(** * talklocal: real-time transcript pipeline

    A shallow embedding of the Python package [talklocal]
    (models.py, handle_error.py, main/generate_subtitle.py,
    main/generate_output.py, main/translate_transcript.py,
    main/process_request.py, core.py) and the properties its
    specification states about it.

    Conventions of the embedding.
    - A Python [str] is a [string] whose characters are the code points
      0..255; the character classes of [re] and [str] ([\w], [isspace],
      [isdigit], [lower]) are the Unicode ones restricted to that range.
    - A Python [int] is a [Z]; [len] results are [nat].
    - A Python [float] that the code only adds, multiplies and divides is an
      exact rational [Q]; [datetime.timedelta] rounds it to whole
      microseconds (half to even), which is what absorbs the binary rounding
      of the real program for every text of realistic size.
    - Exceptions are values of [PyExn]; a function that may raise returns
      [result].
    - The file system is a finite map from paths to file contents, the wall
      clock is a sequence of readings consumed by [datetime.now()]. *)

From Stdlib Require Import ZArith QArith Qround String Ascii List Bool Lia.
From stdpp Require Import base option gmap strings list.

Open Scope Z_scope.

(** ** Python values shared by the modules *)

Module Py.

(** Exceptions.  The four classes of [ErrorHandler] take a message and an
    optional [original_error]; every other exception is a builtin with its
    message. *)
Inductive BuiltinClass :=
  ValueError | KeyError | TypeError | AttributeError | ZeroDivisionError
| OverflowError | ServiceError.

Inductive ErrorHandlerClass :=
  TranscriptionError | TranslationError | SubtitlingError | OutputGenerationError.

#[warnings="-register-all"]
Inductive PyExn :=
| Builtin (cls : BuiltinClass) (msg : string)
| Handled (cls : ErrorHandlerClass) (message : string) (original_error : option PyExn).

Definition class_name (c : ErrorHandlerClass) : string :=
  match c with
  | TranscriptionError => "TranscriptionError"
  | TranslationError => "TranslationError"
  | SubtitlingError => "SubtitlingError"
  | OutputGenerationError => "OutputGenerationError"
  end.

(** [str(e)].  handle_error.py: [__str__] of the four classes returns
    [f"<Class>: {self.original_error}"], not the message. *)
Fixpoint str (e : PyExn) : string :=
  match e with
  | Builtin _ msg => msg
  | Handled c _ None => class_name c +:+ ": None"
  | Handled c _ (Some e') => class_name c +:+ ": " +:+ str e'
  end.

(** The constructor call [ErrorHandler.X(message)]: [original_error] keeps
    its default [None]. *)
Definition new_error (c : ErrorHandlerClass) (message : string) : PyExn :=
  Handled c message None.

(** A computation that returns or raises. *)
Inductive result (A : Type) :=
| Return (a : A)
| Raise (e : PyExn).
Arguments Return {A} a.
Arguments Raise {A} e.

Definition bind {A B} (m : result A) (k : A -> result B) : result B :=
  match m with
  | Return a => k a
  | Raise e => Raise e
  end.

Definition returns {A} (m : result A) : bool :=
  match m with Return _ => true | Raise _ => false end.

(** *** Characters *)

Definition ord (c : ascii) : Z := Z.of_N (N_of_ascii c).

Definition in_range (lo hi : Z) (c : ascii) : bool :=
  (lo <=? ord c) && (ord c <=? hi).

(** [[0-9]] and [\d] below code point 256. *)
Definition is_decimal (c : ascii) : bool := in_range 48 57 c.

(** [str.isdigit] for one character: the decimal digits and the superscripts
    one, two and three. *)
Definition char_isdigit (c : ascii) : bool :=
  is_decimal c || (ord c =? 178) || (ord c =? 179) || (ord c =? 185).

(** [\w]: alphanumeric or underscore. *)
Definition is_word_char (c : ascii) : bool :=
  is_decimal c || in_range 65 90 c || (ord c =? 95) || in_range 97 122 c
  || (ord c =? 170) || (ord c =? 178) || (ord c =? 179) || (ord c =? 181)
  || (ord c =? 185) || (ord c =? 186) || in_range 188 190 c
  || in_range 192 214 c || in_range 216 246 c || in_range 248 255 c.

(** [str.isspace] for one character. *)
Definition is_whitespace (c : ascii) : bool :=
  in_range 9 13 c || in_range 28 32 c || (ord c =? 133) || (ord c =? 160).

Definition chr (z : Z) : ascii := ascii_of_N (Z.to_N z).

Definition lower_char (c : ascii) : ascii :=
  if in_range 65 90 c || in_range 192 214 c || in_range 216 222 c
  then chr (ord c + 32) else c.

(** *** Strings *)

Fixpoint lower (s : string) : string :=
  match s with
  | EmptyString => EmptyString
  | String c s' => String (lower_char c) (lower s')
  end.

Fixpoint lstrip (s : string) : string :=
  match s with
  | EmptyString => EmptyString
  | String c s' => if is_whitespace c then lstrip s' else s
  end.

Definition rev_string (s : string) : string :=
  string_of_list_ascii (rev (list_ascii_of_string s)).

Definition rstrip (s : string) : string := rev_string (lstrip (rev_string s)).

(** [s.strip()] *)
Definition strip (s : string) : string := rstrip (lstrip s).

Fixpoint all_chars (p : ascii -> bool) (s : string) : bool :=
  match s with
  | EmptyString => true
  | String c s' => p c && all_chars p s'
  end.

(** [s.isdigit()]: non-empty and every character a digit. *)
Definition isdigit (s : string) : bool :=
  match s with
  | EmptyString => false
  | _ => all_chars char_isdigit s
  end.

(** [needle in hay] on strings: substring test. *)
Fixpoint contains (needle hay : string) : bool :=
  if String.prefix needle hay then true
  else match hay with
       | EmptyString => false
       | String _ hay' => contains needle hay'
       end.

(** Value of a run of decimal digits, most significant first. *)
Fixpoint digits_value (acc : Z) (s : string) : Z :=
  match s with
  | EmptyString => acc
  | String c s' => digits_value (10 * acc + (ord c - 48)) s'
  end.

(** [int(s)] where [s] is already stripped and passed [isdigit]: it raises
    [ValueError] on the superscript digits, which are digits but not
    decimal. *)
Definition int_of_digits (s : string) : result Z :=
  if all_chars is_decimal s then Return (digits_value 0 s)
  else Raise (Builtin ValueError "invalid literal for int() with base 10").

Definition digit_char (d : Z) : ascii := chr (48 + d).

(** Decimal digits of a non-negative number, with fuel. *)
Fixpoint decimal_fuel (fuel : nat) (n : Z) (acc : string) : string :=
  match fuel with
  | O => acc
  | S fuel' =>
      let acc' := String (digit_char (n mod 10)) acc in
      if n <? 10 then acc' else decimal_fuel fuel' (n / 10) acc'
  end.

(** [str(n)] for an int, as in [f"{cue}"]. *)
Definition str_of_int (n : Z) : string :=
  if n <? 0 then String "-"%char (decimal_fuel (S (Z.to_nat (Z.log2 (- n)))) (- n) "")
  else decimal_fuel (S (Z.to_nat (Z.log2 n))) n "".

(** Zero padding to [width] digits, as [%02d] and [%06d] do. *)
Fixpoint zeros (n : nat) : string :=
  match n with
  | O => EmptyString
  | S n' => String "0"%char (zeros n')
  end.

Definition zfill (width : nat) (s : string) : string :=
  zeros (width - String.length s) +:+ s.

(** [s[:-3]] *)
Definition drop_last3 (s : string) : string :=
  String.substring 0 (String.length s - 3) s.

End Py.

(** ** The parts of [re] the program uses *)

Module Re.
Import Py.

(** The matches of [p+] in [s], left to right: the maximal runs of
    characters of the class [p].  [cur] is the run being read. *)
Fixpoint findall_plus (p : ascii -> bool) (cur : string) (s : string) : list string :=
  match s with
  | EmptyString => match cur with EmptyString => [] | _ => [cur] end
  | String c s' =>
      if p c then findall_plus p (cur +:+ String c EmptyString) s'
      else match cur with
           | EmptyString => findall_plus p EmptyString s'
           | _ => cur :: findall_plus p EmptyString s'
           end
  end.

(** The matches of a one-character class. *)
Fixpoint findall_class (p : ascii -> bool) (s : string) : list string :=
  match s with
  | EmptyString => []
  | String c s' =>
      if p c then String c EmptyString :: findall_class p s'
      else findall_class p s'
  end.

(** [re.split] on a one-character class: the pieces between the matches,
    empty pieces included. *)
Fixpoint split_class (p : ascii -> bool) (cur : string) (s : string) : list string :=
  match s with
  | EmptyString => [cur]
  | String c s' =>
      if p c then cur :: split_class p EmptyString s'
      else split_class p (cur +:+ String c EmptyString) s'
  end.

Definition one_of (cs : string) (c : ascii) : bool :=
  existsb (Ascii.eqb c) (list_ascii_of_string cs).

(** [re.findall(r'\w+', text)] *)
Definition findall_words (text : string) : list string :=
  findall_plus is_word_char EmptyString text.

(** [re.findall(r'[.,?!]', text)] *)
Definition findall_punctuation (text : string) : list string :=
  findall_class (one_of ".,?!") text.

(** [re.split(r'[.!?]', text)] *)
Definition split_sentences (text : string) : list string :=
  split_class (one_of ".!?") EmptyString text.

End Re.

(** ** The parts of [datetime] the program uses *)

Module Datetime.
Import Py.

(** A [datetime]: the proleptic Gregorian ordinal of its date and its time of
    day. *)
Record datetime := {
  ordinal : Z;
  hour : Z;
  minute : Z;
  second : Z;
  microsecond : Z
}.

(** A [timedelta] is its total number of microseconds. *)
Definition timedelta := Z.

Definition us_per_second : Z := 1000000.
Definition us_per_day : Z := 86400 * us_per_second.
Definition ordinal_1900_01_01 : Z := 693596.
Definition MAXORDINAL : Z := 3652059.
Definition max_delta_days : Z := 999999999.

(** Rounding of a rational to the nearest integer, ties to the even one. *)
Definition round_half_even (x : Q) : Z :=
  let f := Qfloor x in
  match Qcompare (x - inject_Z f) (1 # 2) with
  | Lt => f
  | Gt => f + 1
  | Eq => if Z.even f then f else f + 1
  end.

(** [timedelta(seconds=x)] *)
Definition timedelta_of_seconds (x : Q) : result timedelta :=
  let us := round_half_even (x * inject_Z us_per_second) in
  if Z.abs (us / us_per_day) <=? max_delta_days then Return us
  else Raise (Builtin OverflowError "days out of range for timedelta").

Definition us_of_day (d : datetime) : Z :=
  ((hour d * 60 + minute d) * 60 + second d) * us_per_second + microsecond d.

Definition total_us (d : datetime) : Z := ordinal d * us_per_day + us_of_day d.

Definition of_total_us (t : Z) : datetime :=
  let r := t mod us_per_day in
  {| ordinal := t / us_per_day;
     hour := r / (3600 * us_per_second);
     minute := (r / (60 * us_per_second)) mod 60;
     second := (r / us_per_second) mod 60;
     microsecond := r mod us_per_second |}.

(** [d + delta] *)
Definition add (d : datetime) (delta : timedelta) : result datetime :=
  let t := total_us d + delta in
  if (0 <? t / us_per_day) && (t / us_per_day <=? MAXORDINAL)
  then Return (of_total_us t)
  else Raise (Builtin OverflowError "date value out of range").

(** [d.strftime("%H:%M:%S.%f")] *)
Definition strftime_HMSf (d : datetime) : string :=
  zfill 2 (str_of_int (hour d)) +:+ ":" +:+ zfill 2 (str_of_int (minute d)) +:+ ":"
  +:+ zfill 2 (str_of_int (second d)) +:+ "." +:+ zfill 6 (str_of_int (microsecond d)).

(** [d.strftime("%H:%M:%S")] *)
Definition strftime_HMS (d : datetime) : string :=
  zfill 2 (str_of_int (hour d)) +:+ ":" +:+ zfill 2 (str_of_int (minute d)) +:+ ":"
  +:+ zfill 2 (str_of_int (second d)).

(** The text before the first [c] and the text after it. *)
Fixpoint split_once (c : ascii) (s : string) : option (string * string) :=
  match s with
  | EmptyString => None
  | String a s' =>
      if Ascii.eqb a c then Some (EmptyString, s')
      else match split_once c s' with
           | Some (l, r) => Some (String a l, r)
           | None => None
           end
  end.

(** A field of one to [maxlen] decimal digits whose value is at most
    [maxval]. *)
Definition parse_field (maxlen : nat) (maxval : Z) (f : string) : option Z :=
  if (1 <=? String.length f)%nat && (String.length f <=? maxlen)%nat
     && all_chars is_decimal f && (digits_value 0 f <=? maxval)
  then Some (digits_value 0 f) else None.

(** [%f]: one to six digits, padded on the right to microseconds. *)
Definition parse_fraction (f : string) : option Z :=
  if (1 <=? String.length f)%nat && (String.length f <=? 6)%nat
     && all_chars is_decimal f
  then Some (digits_value 0 (f +:+ zeros (6 - String.length f))) else None.

Definition no_match : PyExn :=
  Builtin ValueError "time data does not match format '%H:%M:%S.%f'".

(** [datetime.strptime(s, "%H:%M:%S.%f")]: hours [0..23], minutes [0..59],
    seconds matched up to 61 and then refused above 59 by the constructor;
    the date is 1900-01-01. *)
Definition strptime_HMSf (s : string) : result datetime :=
  match split_once ":" s with
  | None => Raise no_match
  | Some (fh, r1) =>
  match split_once ":" r1 with
  | None => Raise no_match
  | Some (fm, r2) =>
  match split_once "." r2 with
  | None => Raise no_match
  | Some (fs, ff) =>
  match parse_field 2 23 fh, parse_field 2 59 fm, parse_field 2 61 fs, parse_fraction ff with
  | Some h, Some m, Some sec, Some us =>
      if 59 <? sec then Raise (Builtin ValueError "second must be in 0..59")
      else Return {| ordinal := ordinal_1900_01_01; hour := h; minute := m;
                     second := sec; microsecond := us |}
  | _, _, _, _ => Raise no_match
  end end end end.

End Datetime.

(** ** The world the program runs in *)

Module World.
Import Py.

(** One request to the translation service ([translate_client.translate_text])
    with its [Text], [SourceLanguageCode], [TargetLanguageCode] and
    [Settings]. *)
Record TranslateRequest := {
  req_text : string;
  req_source : string;
  req_target : string;
  req_settings : list (string * string)
}.

Inductive LogLevel := INFO | WARNING.

(** What the program can observe and change outside its own variables.
    - [files]: the regular files, by path; an absent key is a file that
      does not exist.  Directories exist and every open succeeds.
    - [now_at], [ticks]: the wall clock; the [n]-th call of [datetime.now()]
      reads [now_at n], a number of microseconds.
    - [heap]: the Python list objects, by identity.
    - [translate_service]: the answer of the translation service to a
      request; [translate_calls]: the requests sent so far, oldest first.
    - [logged]: the records passed to [logging]. *)
Record world := {
  files : gmap string string;
  now_at : nat -> Z;
  ticks : nat;
  heap : gmap nat (list (string * bool));
  translate_service : TranslateRequest -> result string;
  translate_calls : list TranslateRequest;
  logged : list (LogLevel * string)
}.

Definition set_files (f : gmap string string) (w : world) : world :=
  {| files := f; now_at := now_at w; ticks := ticks w; heap := heap w;
     translate_service := translate_service w;
     translate_calls := translate_calls w; logged := logged w |}.

Definition set_ticks (n : nat) (w : world) : world :=
  {| files := files w; now_at := now_at w; ticks := n; heap := heap w;
     translate_service := translate_service w;
     translate_calls := translate_calls w; logged := logged w |}.

Definition set_heap (h : gmap nat (list (string * bool))) (w : world) : world :=
  {| files := files w; now_at := now_at w; ticks := ticks w; heap := h;
     translate_service := translate_service w;
     translate_calls := translate_calls w; logged := logged w |}.

Definition set_translate_calls (c : list TranslateRequest) (w : world) : world :=
  {| files := files w; now_at := now_at w; ticks := ticks w; heap := heap w;
     translate_service := translate_service w;
     translate_calls := c; logged := logged w |}.

Definition set_logged (l : list (LogLevel * string)) (w : world) : world :=
  {| files := files w; now_at := now_at w; ticks := ticks w; heap := heap w;
     translate_service := translate_service w;
     translate_calls := translate_calls w; logged := l |}.

(** A statement of the program: it runs in a world, returns or raises, and
    leaves a world.  What was done before a raise stays done. *)
Definition M (A : Type) : Type := world -> result A * world.

Definition ret {A} (a : A) : M A := fun w => (Return a, w).

Definition raise {A} (e : PyExn) : M A := fun w => (Raise e, w).

Definition bindM {A B} (m : M A) (k : A -> M B) : M B :=
  fun w => match m w with
           | (Return a, w') => k a w'
           | (Raise e, w') => (Raise e, w')
           end.

(** A value or exception computed without the world. *)
Definition lift {A} (r : result A) : M A := fun w => (r, w).

(** [try: m  except Exception as e: raise h(e)] *)
Definition try_reraise {A} (m : M A) (h : PyExn -> PyExn) : M A :=
  fun w => match m w with
           | (Return a, w') => (Return a, w')
           | (Raise e, w') => (Raise (h e), w')
           end.

(** [for x in xs: body x], stopping at the first exception. *)
Fixpoint for_each {A} (xs : list A) (body : A -> M unit) : M unit :=
  match xs with
  | [] => ret tt
  | x :: xs' => bindM (body x) (fun _ => for_each xs' body)
  end.

Definition when (b : bool) (m : M unit) : M unit := if b then m else ret tt.

End World.

Declare Scope py_scope.
Delimit Scope py_scope with py.
Notation "x <- m ;; k" := (World.bindM m (fun x => k))
  (at level 100, m at next level, right associativity) : py_scope.
Notation "m ;; k" := (World.bindM m (fun _ => k))
  (at level 100, right associativity) : py_scope.

(** ** The parts of [os] and of file objects the program uses *)

Module OS.
Import Py World.

(** [os.path.isfile(p)], [os.path.exists(p)] *)
Definition isfile (p : string) : M bool :=
  fun w => (Return (bool_decide (is_Some (files w !! p))), w).

(** [os.stat(p).st_size == 0]; the file exists where the program asks. *)
Definition size_is_zero (p : string) : M bool :=
  fun w => (Return (match files w !! p with
                    | Some c => String.eqb c EmptyString
                    | None => true
                    end), w).

(** [open(p, "a")]: the file is created empty when it does not exist. *)
Definition open_append (p : string) : M unit :=
  fun w => (Return tt,
            match files w !! p with
            | Some _ => w
            | None => set_files (<[p := EmptyString]> (files w)) w
            end).

(** [f.write(s)] on a file opened for appending. *)
Definition write (p : string) (s : string) : M unit :=
  fun w => (Return tt,
            set_files (<[p := default EmptyString (files w !! p) +:+ s]> (files w)) w).

(** The lines of a text with their ends, as text mode gives them: a line ends
    at [\n], [\r] or [\r\n], and its end reads as [\n]. *)
Fixpoint lines_of (cur : string) (s : string) : list string :=
  match s with
  | EmptyString => match cur with EmptyString => [] | _ => [cur] end
  | String c s' =>
      if Ascii.eqb c "010" then (cur +:+ String "010" EmptyString) :: lines_of EmptyString s'
      else if Ascii.eqb c "013" then
        match s' with
        | String c' s'' =>
            if Ascii.eqb c' "010"
            then (cur +:+ String "010" EmptyString) :: lines_of EmptyString s''
            else (cur +:+ String "010" EmptyString) :: lines_of EmptyString s'
        | EmptyString => [cur +:+ String "010" EmptyString]
        end
      else lines_of (cur +:+ String c EmptyString) s'
  end.

(** [with open(p) as f: lines = f.readlines()]; the file exists where the
    program asks. *)
Definition readlines (p : string) : M (list string) :=
  fun w => (Return (lines_of EmptyString (default EmptyString (files w !! p))), w).

(** [datetime.now()]: the next reading of the clock. *)
Definition now : M Datetime.datetime :=
  fun w => (Return (Datetime.of_total_us (now_at w (ticks w))),
            set_ticks (S (ticks w)) w).

End OS.

(** ** main/generate_subtitle.py *)

Module GenerateSubtitle.
Import Py World.
Local Open Scope py_scope.

Record CaptionSmoothing := {
  window_size : Z;
  caption_buffer : list Q
}.

Record SubtitleGenerator := {
  subtitle_path : string;
  caption_smoother : CaptionSmoothing
}.

(** [SubtitleGenerator(subtitle_path)] *)
Definition new_SubtitleGenerator (path : string) : SubtitleGenerator :=
  {| subtitle_path := path;
     caption_smoother := {| window_size := 5; caption_buffer := [] |} |}.

Definition default_subtitle_path : string := "./subtitle/realtime_subtitle".

Definition punctuation_pause_multiplier : Q := 12 # 10.
Definition seconds_per_sentence : Q := 3.

(** [len(re.findall(r'\w+', text))] *)
Definition word_count (text : string) : nat := length (Re.findall_words text).

(** [len(re.findall(r'[.,?!]', text))] *)
Definition punctuation_count (text : string) : nat :=
  length (Re.findall_punctuation text).

(** [len(re.split(r'[.!?]', text))] *)
Definition sentence_count (text : string) : nat :=
  length (Re.split_sentences text).

Definition Qnat (n : nat) : Q := inject_Z (Z.of_nat n).

(** [60 / average_words_per_minute] *)
Definition seconds_per_word (average_words_per_minute : Z) : result Q :=
  if average_words_per_minute =? 0
  then Raise (Builtin ZeroDivisionError "division by zero")
  else Return (60 / inject_Z average_words_per_minute)%Q.

(** The value of [additional_seconds] when [timedelta] is called. *)
Definition additional_seconds (text : string) (spw : Q) : Q :=
  (Qnat (word_count text) * spw
   + Qnat (punctuation_count text) * punctuation_pause_multiplier
   + Qnat (sentence_count text) * seconds_per_sentence)%Q.

(** [calculate_end_time(self, start_time, text, average_words_per_minute)];
    [start_time] is a string or [None], and so is the value returned. *)
Definition calculate_end_time (self : SubtitleGenerator)
    (start_time : option string) (text : string)
    (average_words_per_minute : Z) : result (option string) :=
  match start_time with
  | None => Return None
  | Some st =>
      bind (Datetime.strptime_HMSf st) (fun start_dt =>
      bind (seconds_per_word average_words_per_minute) (fun spw =>
      bind (Datetime.timedelta_of_seconds (additional_seconds text spw)) (fun delta =>
      bind (Datetime.add start_dt delta) (fun end_dt =>
      Return (Some (drop_last3 (Datetime.strftime_HMSf end_dt) +:+ "Z"))))))
  end.

Definition default_wpm : Z := 150.

(** [f"{x}"] for a string or [None]. *)
Definition fmt (x : option string) : string :=
  match x with Some s => s | None => "None" end.

Definition newline : string := String "010" EmptyString.

(** [generate_vtt_subtitle(self, translated_text, partial_flag)] *)
Definition generate_vtt_subtitle (self : SubtitleGenerator)
    (translated_text : string) (partial_flag : bool) : M unit :=
  try_reraise
    (let path := subtitle_path self +:+ ".vtt" in
     t <- OS.now ;;
     let timestamp := Datetime.strftime_HMS t in
     let start_time := timestamp +:+ ".000" in
     end_time <- lift (calculate_end_time self (Some start_time) translated_text default_wpm) ;;
     file_exists <- OS.isfile path ;;
     file_empty <- (if file_exists : bool then OS.size_is_zero path else ret true) ;;
     OS.open_append path ;;
     when file_empty (OS.write path ("WEBVTT" +:+ newline +:+ newline)) ;;
     OS.write path (start_time +:+ " --> " +:+ fmt end_time +:+ newline) ;;
     OS.write path (translated_text +:+ newline))
    (fun e => new_error SubtitlingError ("Subtitle generation error: " +:+ str e)).

(** The scan of [get_next_cue_number]: the lines from the last to the first,
    up to the first one that is digits only once stripped. *)
Fixpoint last_cue_number (reversed_lines : list string) : result (option Z) :=
  match reversed_lines with
  | [] => Return None
  | line :: rest =>
      let stripped_line := strip line in
      if negb (String.eqb stripped_line EmptyString) && isdigit stripped_line
      then bind (int_of_digits stripped_line) (fun n => Return (Some n))
      else last_cue_number rest
  end.

(** [get_next_cue_number(self, file_name)]: an int or [None]. *)
Definition get_next_cue_number (self : SubtitleGenerator) (file_name : string)
    : M (option Z) :=
  file_there <- OS.isfile file_name ;;
  if negb file_there then ret (Some 1)
  else
    lines <- OS.readlines file_name ;;
    if (length lines =? 0)%nat then ret (Some 1)
    else
      last <- lift (last_cue_number (rev lines)) ;;
      ret (match last with Some n => Some (n + 1) | None => None end).

(** [generate_srt_subtitle(self, translated_text, partial_flag)] *)
Definition generate_srt_subtitle (self : SubtitleGenerator)
    (translated_text : string) (partial_flag : bool) : M unit :=
  try_reraise
    (let path := subtitle_path self +:+ ".srt" in
     t <- OS.now ;;
     let start_time := drop_last3 (Datetime.strftime_HMSf t) in
     end_time <- lift (calculate_end_time self (Some start_time) translated_text default_wpm) ;;
     file_exists <- OS.isfile path ;;
     file_empty <- (if file_exists : bool then OS.size_is_zero path else ret true) ;;
     OS.open_append path ;;
     next <- get_next_cue_number self path ;;
     let cue := match next with
                | Some n => if file_empty : bool then 1 else n
                | None => 1
                end in
     OS.write path (str_of_int cue +:+ newline) ;;
     OS.write path (start_time +:+ " --> " +:+ fmt end_time +:+ newline) ;;
     OS.write path (translated_text +:+ newline +:+ newline))
    (fun e => new_error SubtitlingError ("error generating subtitle: " +:+ str e)).

End GenerateSubtitle.

(** ** models.py *)

Module Models.
Import Py.

Inductive SourceLanguage := English.

Inductive TargetLanguage :=
  Afrikaans | Albanian | Amharic | Arabic | Armenian | Azerbaijani | Bengali
| Bosnian | Bulgarian | Catalan | Chinese_Simplified | Chinese_Traditional
| Croatian | Czech | Danish | Dari | Dutch | Estonian | Farsi_Persian
| Filipino_Tagalog | Finnish | French | French_Canada | Georgian | German
| Greek | Gujarati | Haitian_Creole | Hausa | Hebrew | Hindi | Hungarian
| Icelandic | Indonesian | Irish | Italian | Japanese | Kannada | Kazakh
| Korean | Latvian | Lithuanian | Macedonian | Malay | Malayalam | Maltese
| Marathi | Mongolian | Norwegian_Bokmal | Pashto | Polish | Portuguese_Brazil
| Portuguese_Portugal | Punjabi | Romanian | Russian | Serbian | Sinhala
| Slovak | Slovenian | Somali | Spanish | Spanish_Mexico | Swahili | Swedish
| Tamil | Telugu | Thai | Turkish | Ukrainian | Urdu | Uzbek | Vietnamese
| Welsh.

Inductive SubtitleFormat := SRT | VTT.

Inductive OutputFormat := TRANSCRIPT_TEXT | TRANSLATED_TEXT | BOTH_TEXT | NONE.

(** An enumeration as Python iterates it: its members in definition order
    and the [.value] of each. *)
Class PyEnum (E : Type) := {
  members : list E;
  value : E -> string
}.

#[export] Instance SourceLanguage_enum : PyEnum SourceLanguage := {|
  members := [English];
  value := fun _ => "en-US"
|}.

#[export] Instance TargetLanguage_enum : PyEnum TargetLanguage := {|
  members :=
    [Afrikaans; Albanian; Amharic; Arabic; Armenian; Azerbaijani; Bengali;
     Bosnian; Bulgarian; Catalan; Chinese_Simplified; Chinese_Traditional;
     Croatian; Czech; Danish; Dari; Dutch; Estonian; Farsi_Persian;
     Filipino_Tagalog; Finnish; French; French_Canada; Georgian; German;
     Greek; Gujarati; Haitian_Creole; Hausa; Hebrew; Hindi; Hungarian;
     Icelandic; Indonesian; Irish; Italian; Japanese; Kannada; Kazakh;
     Korean; Latvian; Lithuanian; Macedonian; Malay; Malayalam; Maltese;
     Marathi; Mongolian; Norwegian_Bokmal; Pashto; Polish; Portuguese_Brazil;
     Portuguese_Portugal; Punjabi; Romanian; Russian; Serbian; Sinhala;
     Slovak; Slovenian; Somali; Spanish; Spanish_Mexico; Swahili; Swedish;
     Tamil; Telugu; Thai; Turkish; Ukrainian; Urdu; Uzbek; Vietnamese; Welsh];
  value := fun l =>
    match l with
    | Afrikaans => "af" | Albanian => "sq" | Amharic => "am" | Arabic => "ar"
    | Armenian => "hy" | Azerbaijani => "az" | Bengali => "bn" | Bosnian => "bs"
    | Bulgarian => "bg" | Catalan => "ca" | Chinese_Simplified => "zh"
    | Chinese_Traditional => "zh-TW" | Croatian => "hr" | Czech => "cs"
    | Danish => "da" | Dari => "fa-AF" | Dutch => "nl" | Estonian => "et"
    | Farsi_Persian => "fa" | Filipino_Tagalog => "tl" | Finnish => "fi"
    | French => "fr" | French_Canada => "fr-CA" | Georgian => "ka"
    | German => "de" | Greek => "el" | Gujarati => "gu" | Haitian_Creole => "ht"
    | Hausa => "ha" | Hebrew => "he" | Hindi => "hi" | Hungarian => "hu"
    | Icelandic => "is" | Indonesian => "id" | Irish => "ga" | Italian => "it"
    | Japanese => "ja" | Kannada => "kn" | Kazakh => "kk" | Korean => "ko"
    | Latvian => "lv" | Lithuanian => "lt" | Macedonian => "mk" | Malay => "ms"
    | Malayalam => "ml" | Maltese => "mt" | Marathi => "mr" | Mongolian => "mn"
    | Norwegian_Bokmal => "no" | Pashto => "ps" | Polish => "pl"
    | Portuguese_Brazil => "pt" | Portuguese_Portugal => "pt-PT"
    | Punjabi => "pa" | Romanian => "ro" | Russian => "ru" | Serbian => "sr"
    | Sinhala => "si" | Slovak => "sk" | Slovenian => "sl" | Somali => "so"
    | Spanish => "es" | Spanish_Mexico => "es-MX" | Swahili => "sw"
    | Swedish => "sv" | Tamil => "ta" | Telugu => "te" | Thai => "th"
    | Turkish => "tr" | Ukrainian => "uk" | Urdu => "ur" | Uzbek => "uz"
    | Vietnamese => "vi" | Welsh => "cy"
    end
|}.

#[export] Instance SubtitleFormat_enum : PyEnum SubtitleFormat := {|
  members := [SRT; VTT];
  value := fun f => match f with SRT => "srt" | VTT => "vtt" end
|}.

#[export] Instance OutputFormat_enum : PyEnum OutputFormat := {|
  members := [TRANSCRIPT_TEXT; TRANSLATED_TEXT; BOTH_TEXT; NONE];
  value := fun f =>
    match f with
    | TRANSCRIPT_TEXT => "transcript_text"
    | TRANSLATED_TEXT => "translated_text"
    | BOTH_TEXT => "both_text"
    | NONE => "none"
    end
|}.

(** The values a configuration field can hold: [None], a [str], or a member
    of one of the two format enumerations (which are [str] subclasses). *)
Inductive PyVal :=
| PNone
| PStr (s : string)
| PSubtitleFormat (f : SubtitleFormat)
| POutputFormat (f : OutputFormat).

(** The string a value is, when it is one: a member of a [(str, Enum)] class
    is its value. *)
Definition as_str (v : PyVal) : option string :=
  match v with
  | PNone => None
  | PStr s => Some s
  | PSubtitleFormat f => Some (value f)
  | POutputFormat f => Some (value f)
  end.

(** [v == s] for a string [s]: equality of [str] contents. *)
Definition eq_str (v : PyVal) (s : string) : bool :=
  match as_str v with
  | Some s' => String.eqb s' s
  | None => false
  end.

(** [v.lower()] *)
Definition py_lower (v : PyVal) : result string :=
  match as_str v with
  | Some s => Return (lower s)
  | None => Raise (Builtin AttributeError "'NoneType' object has no attribute 'lower'")
  end.

(** [v in [a, b]] for members [a], [b] of a format enumeration. *)
Definition in_members {E} `{PyEnum E} (v : PyVal) (ms : list E) : bool :=
  existsb (fun m => eq_str v (value m)) ms.

Record UserInput := {
  source_language : PyVal;
  target_language : PyVal;
  subtitle_format : PyVal;
  region : PyVal;
  output_format : PyVal
}.

(** [UserInput(source_language, target_language, subtitle_format, region,
    output_format)]: the constructor stores what it is given. *)
Definition new_UserInput (source_language target_language subtitle_format
    region output_format : PyVal) : UserInput :=
  {| source_language := source_language; target_language := target_language;
     subtitle_format := subtitle_format; region := region;
     output_format := output_format |}.

(** [language_code in language_enum.value] *)
Definition code_in_value (language_code : PyVal) (v : string) : result bool :=
  match as_str language_code with
  | Some code => Return (contains code v)
  | None => Raise (Builtin TypeError "'in <string>' requires string as left operand, not NoneType")
  end.

(** [get_language_enum(enum_class, language_code)]: the first member, in
    definition order, that passes the test, or [None]. *)
Fixpoint get_language_enum_loop {E} `{PyEnum E} (ms : list E) (language_code : PyVal)
    : result (option E) :=
  match ms with
  | [] => Return None
  | language_enum :: rest =>
      bind (code_in_value language_code (value language_enum)) (fun found =>
      if found : bool then Return (Some language_enum)
      else get_language_enum_loop rest language_code)
  end.

Definition get_language_enum (E : Type) `{PyEnum E} (language_code : PyVal)
    : result (option E) :=
  get_language_enum_loop members language_code.

Definition get_source_language_enum (language_code : PyVal) : result (option SourceLanguage) :=
  get_language_enum SourceLanguage language_code.

Definition get_target_language_enum (language_code : PyVal) : result (option TargetLanguage) :=
  get_language_enum TargetLanguage language_code.

(** [x.value] where [x] is a member or [None]. *)
Definition dot_value {E} `{PyEnum E} (x : option E) : result string :=
  match x with
  | Some m => Return (value m)
  | None => Raise (Builtin AttributeError "'NoneType' object has no attribute 'value'")
  end.

(** [E(v)]: the member whose value equals [v]. *)
Definition enum_call {E} `{PyEnum E} (v : PyVal) : result E :=
  match find (fun m => eq_str v (value m)) members with
  | Some m => Return m
  | None => Raise (Builtin ValueError "not a valid member")
  end.

(** [input_data[key]] *)
Definition getitem (input_data : gmap string PyVal) (key : string) : result PyVal :=
  match input_data !! key with
  | Some v => Return v
  | None => Raise (Builtin KeyError key)
  end.

(** [input_data.get(key, dflt)] *)
Definition get_default (input_data : gmap string PyVal) (key : string) (dflt : PyVal) : PyVal :=
  default dflt (input_data !! key).

(** [UserInput.from_input_data(input_data)] *)
Definition from_input_data (input_data : gmap string PyVal) : result UserInput :=
  bind (getitem input_data "source_language") (fun code_s =>
  bind (get_source_language_enum code_s) (fun enum_s =>
  bind (dot_value enum_s) (fun source_language =>
  bind (getitem input_data "target_language") (fun code_t =>
  bind (get_target_language_enum code_t) (fun enum_t =>
  bind (dot_value enum_t) (fun target_language =>
  bind (getitem input_data "subtitle_format") (fun raw_format =>
  bind (enum_call raw_format) (fun subtitle_format =>
  let region := get_default input_data "region" (PStr "us-east-1") in
  bind (enum_call (get_default input_data "output_format" (POutputFormat NONE)))
    (fun output_format =>
  Return (new_UserInput (PStr source_language) (PStr target_language)
            (PSubtitleFormat subtitle_format) region
            (POutputFormat output_format))))))))))).

End Models.

(** ** main/generate_output.py *)

Module GenerateOutput.
Import Py World.
Local Open Scope py_scope.

Record OutputGenerator := { output_path : string }.

Definition new_OutputGenerator (path : string) : OutputGenerator :=
  {| output_path := path |}.

Definition default_output_path : string := "./output".

Definition ends_with_slash (s : string) : bool :=
  match rev (list_ascii_of_string s) with
  | c :: _ => Ascii.eqb c "/"
  | [] => false
  end.

(** [os.path.join(a, b)] for a relative [b]. *)
Definition path_join (a b : string) : string :=
  if String.eqb a EmptyString || ends_with_slash a then a +:+ b
  else a +:+ "/" +:+ b.

(** [_store_text_file(self, file_name, text_content)] *)
Definition _store_text_file (self : OutputGenerator) (file_name text_content : string)
    : M unit :=
  try_reraise
    (let file_path := path_join (output_path self) file_name in
     OS.open_append file_path ;;
     OS.write file_path text_content ;;
     OS.write file_path (String "010" EmptyString))
    (fun e => new_error OutputGenerationError ("Error storing output: " +:+ str e)).

Definition transcript_file_name : string := "transcript_full.txt".
Definition translated_file_name : string := "translated_output_full.txt".

(** [store_transcript(self, transcript_text)] *)
Definition store_transcript (self : OutputGenerator) (transcript_text : string) : M unit :=
  _store_text_file self transcript_file_name transcript_text.

(** [store_translated_output(self, translated_text)] *)
Definition store_translated_output (self : OutputGenerator) (translated_text : string)
    : M unit :=
  _store_text_file self translated_file_name translated_text.

End GenerateOutput.

(** ** main/translate_transcript.py *)

Module TranslateTranscript.
Import Py World Models.
Local Open Scope py_scope.

Record Translate := { region_name : string }.

(** [Translate(region_name)] *)
Definition new_Translate (region_name : string) : Translate :=
  {| region_name := region_name |}.

(** A language code as the service call takes it; the client refuses what is
    not a string. *)
Definition code_param (v : PyVal) : result string :=
  match as_str v with
  | Some s => Return s
  | None => Raise (Builtin ServiceError "Parameter validation failed")
  end.

(** [self.translate_client.translate_text(Text=..., ...)]: the request is
    recorded and the service answers or fails. *)
Definition client_translate_text (req : TranslateRequest) : M string :=
  fun w => (translate_service w req,
            set_translate_calls (translate_calls w ++ [req]) w).

(** [translate_text(self, text, source_language_code, target_language_code,
    region_name, profanity_check, brevity_check)] *)
Definition translate_text (self : Translate) (text : string)
    (source_language_code target_language_code region_name : PyVal)
    (profanity_check brevity_check : bool) : M string :=
  let settings :=
    (if profanity_check then [("Profanity", "MASK")] else [])
    ++ (if brevity_check then [("Brevity", "ON")] else []) in
  try_reraise
    (src <- lift (code_param source_language_code) ;;
     tgt <- lift (code_param target_language_code) ;;
     client_translate_text
       {| req_text := text; req_source := src; req_target := tgt;
          req_settings := settings |})
    (fun e => new_error TranslationError ("Translation error: " +:+ str e)).

End TranslateTranscript.

(** ** main/process_request.py *)

Module ProcessRequest.
Import Py World Models.
Local Open Scope py_scope.

(** *** List objects *)

(** A new list object holding [l]. *)
Definition new_list (l : list (string * bool)) : M nat :=
  fun w => let r := fresh (dom (heap w)) in
           (Return r, set_heap (<[r := l]> (heap w)) w).

(** The content of the list object [r]. *)
Definition list_content (r : nat) (w : world) : list (string * bool) :=
  default [] (heap w !! r).

(** [r.append(x)] *)
Definition list_append (r : nat) (x : string * bool) : M unit :=
  fun w => (Return tt, set_heap (alter (fun l => l ++ [x]) r (heap w)) w).

(** [r[:]] *)
Definition list_copy (r : nat) : M nat :=
  fun w => new_list (list_content r w) w.

(** *** TranscriptDataHandler *)

Record TranscriptDataHandler := {
  transcript_data : nat;
  translated_data : nat
}.

(** [TranscriptDataHandler()] *)
Definition new_TranscriptDataHandler : M TranscriptDataHandler :=
  a <- new_list [] ;;
  b <- new_list [] ;;
  ret {| transcript_data := a; translated_data := b |}.

Definition store_transcript_data (self : TranscriptDataHandler)
    (transcript_text : string) (is_partial : bool) : M unit :=
  list_append (transcript_data self) (transcript_text, is_partial).

Definition get_transcript_data (self : TranscriptDataHandler) : M nat :=
  list_copy (transcript_data self).

Definition store_translated_data (self : TranscriptDataHandler)
    (translated_text : string) (is_partial : bool) : M unit :=
  list_append (translated_data self) (translated_text, is_partial).

Definition get_translated_data (self : TranscriptDataHandler) : M nat :=
  list_copy (translated_data self).

(** *** Transcript events *)

Record Alternative := { transcript : string }.

Record Result := {
  alternatives : list Alternative;
  is_partial : bool
}.

(** [transcript_event.transcript.results] *)
Record TranscriptEvent := { results : list Result }.

(** *** TranscriptHandler *)

Record TranscriptHandler := {
  h_source_language : PyVal;
  h_target_language : PyVal;
  h_subtitle_format : PyVal;
  h_region : PyVal;
  h_output_format : PyVal;
  sequence_number : Z;
  data_handler : TranscriptDataHandler
}.

(** [TranscriptHandler(output_stream, source_language, target_language,
    subtitle_format, region, output_format, data_handler)]; the output stream
    is what [handle_events] reads, see [StreamItem] below. *)
Definition new_TranscriptHandler (source_language target_language subtitle_format
    region output_format : PyVal) (data_handler : TranscriptDataHandler)
    : TranscriptHandler :=
  {| h_source_language := source_language; h_target_language := target_language;
     h_subtitle_format := subtitle_format; h_region := region;
     h_output_format := output_format; sequence_number := 0;
     data_handler := data_handler |}.

(** The value of [same_languages]; [or] and [and] evaluate their right side
    only when needed. *)
Definition same_languages (source_language target_language : PyVal) : result bool :=
  bind (py_lower source_language) (fun s =>
  bind (py_lower target_language) (fun t =>
  Return (String.eqb s t
          || (eq_str source_language "en-US" && eq_str target_language "en")))).

(** The body of the two loops of [handle_transcript_event] for one
    alternative of one result. *)
Definition handle_alternative (self : TranscriptHandler)
    (translate : TranslateTranscript.Translate)
    (generate_subtitle : GenerateSubtitle.SubtitleGenerator)
    (generate_output : GenerateOutput.OutputGenerator)
    (store_transcript_text store_translated_text same : bool)
    (result : Result) (alt : Alternative) : M unit :=
  let transcript_text := transcript alt in
  let is_partial := is_partial result in
  translated_text <-
    (if same then ret transcript_text
     else TranslateTranscript.translate_text translate transcript_text
            (h_source_language self) (h_target_language self) (h_region self)
            false false) ;;
  format <- lift (py_lower (h_subtitle_format self)) ;;
  (if String.eqb format "vtt"
   then GenerateSubtitle.generate_vtt_subtitle generate_subtitle translated_text is_partial
   else GenerateSubtitle.generate_srt_subtitle generate_subtitle translated_text is_partial) ;;
  when (negb is_partial)
    (when store_transcript_text
       (GenerateOutput.store_transcript generate_output transcript_text) ;;
     when store_translated_text
       (GenerateOutput.store_translated_output generate_output translated_text)).

(** [handle_transcript_event(self, transcript_event)] *)
Definition handle_transcript_event (self : TranscriptHandler)
    (transcript_event : TranscriptEvent) : M unit :=
  let translate := TranslateTranscript.new_Translate "us-east-1" in
  let generate_subtitle :=
    GenerateSubtitle.new_SubtitleGenerator GenerateSubtitle.default_subtitle_path in
  let generate_output :=
    GenerateOutput.new_OutputGenerator GenerateOutput.default_output_path in
  try_reraise
    (let results := results transcript_event in
     let store_transcript_text :=
       in_members (h_output_format self) [TRANSCRIPT_TEXT; BOTH_TEXT] in
     let store_translated_text :=
       in_members (h_output_format self) [TRANSLATED_TEXT; BOTH_TEXT] in
     same <- lift (same_languages (h_source_language self) (h_target_language self)) ;;
     for_each results (fun result =>
       for_each (alternatives result) (fun alt =>
         handle_alternative self translate generate_subtitle generate_output
           store_transcript_text store_translated_text same result alt)))
    (fun e => new_error TranscriptionError ("transcript event error: " +:+ str e)).

(** *** The session *)

(** What the recognition stream delivers to [handle_events], in order: a
    transcript event, or an error of the transport (raised while reading the
    stream or while [write_chunks] sends audio).  The end of the list is the
    stream closing.  [asyncio.gather] hands the first exception of either
    task to [basic_transcribe], whose [except] clause has no suspension
    point, so no event is handled after it. *)
Inductive StreamItem :=
| Event (e : TranscriptEvent)
| Failure (e : PyExn).

Record Session := {
  start_error : option PyExn;
  stream : list StreamItem
}.

(** [await client.start_stream_transcription(...)] *)
Definition start_stream_transcription (session : Session) : M (list StreamItem) :=
  match start_error session with
  | Some e => raise e
  | None => ret (stream session)
  end.

(** [await asyncio.gather(write_chunks(stream, audio_handler),
    handler.handle_events())] *)
Definition gather_write_and_handle (handler : TranscriptHandler)
    (items : list StreamItem) : M unit :=
  for_each items (fun item =>
    match item with
    | Event e => handle_transcript_event handler e
    | Failure e => raise e
    end).

Definition log (level : LogLevel) (msg : string) : M unit :=
  fun w => (Return tt, set_logged (logged w ++ [(level, msg)]) w).

(** [if transcript_data:] *)
Definition truthy (r : nat) : M bool :=
  fun w => (Return (match list_content r w with [] => false | _ => true end), w).

(** [try: m  except Exception as e: h(e)] where the handler returns. *)
Definition try_except_return {A} (m : M A) (h : PyExn -> M A) : M A :=
  fun w => match m w with
           | (Return a, w') => (Return a, w')
           | (Raise e, w') => h e w'
           end.

(** [basic_transcribe(source_language, target_language, subtitle_format,
    region_name, output_format, audio_handler, data_handler)]: the list
    object returned, or [None].  [data_handler] is a
    [TranscriptDataHandler] by its type, so the [isinstance] check passes.
    In the [except] clause the [TranscriptionError] is built and dropped. *)
Definition basic_transcribe (source_language target_language subtitle_format
    region_name output_format : PyVal) (session : Session)
    (data_handler : TranscriptDataHandler) : M (option nat) :=
  try_except_return
    (items <- start_stream_transcription session ;;
     let handler := new_TranscriptHandler source_language target_language
                      subtitle_format region_name output_format data_handler in
     gather_write_and_handle handler items ;;
     transcript_data <- get_transcript_data data_handler ;;
     nonempty <- truthy transcript_data ;;
     (if nonempty : bool then log INFO "Transcript data extracted successfully."
      else log WARNING "No transcript data extracted.") ;;
     ret (Some transcript_data))
    (fun e =>
       let _dropped := new_error TranscriptionError
                         ("transcript streaming client error: " +:+ str e) in
       ret None).

(** [process_request(user_input)] *)
Definition process_request (user_input : UserInput) (session : Session)
    : M (option nat) :=
  data_handler <- new_TranscriptDataHandler ;;
  basic_transcribe (source_language user_input) (target_language user_input)
    (subtitle_format user_input) (region user_input) (output_format user_input)
    session data_handler.

End ProcessRequest.

(** ** core.py *)

Module Core.
Import Py World Models.

(** The parsed command line: the two language options are required, the
    other three are [None] when absent. *)
Record Args := {
  arg_source_language : string;
  arg_target_language : string;
  arg_subtitle_format : option string;
  arg_aws_region : option string;
  arg_output_format : option string
}.

Definition opt_val (o : option string) : PyVal :=
  match o with Some s => PStr s | None => PNone end.

(** The [UserInput] the script builds: the constructor, not
    [from_input_data]. *)
Definition user_input_of_args (args : Args) : UserInput :=
  new_UserInput (PStr (arg_source_language args)) (PStr (arg_target_language args))
    (opt_val (arg_subtitle_format args)) (opt_val (arg_aws_region args))
    (opt_val (arg_output_format args)).

(** [main(user_input)], whose body is [await process_request(user_input)].
    In core.py the name [process_request] is bound by
    [from talklocal.main import process_request]; the package
    [talklocal.main] has no [__init__.py] that exports the function, so the
    name is the module main/process_request.py, and calling it raises the
    [TypeError] before anything else is done. *)
Definition main (user_input : UserInput) : M unit :=
  raise (Builtin TypeError "'module' object is not callable").

End Core.

(** ** The specification's reading of the word count *)

Module Spec.
Import Py.

(** The whitespace-delimited tokens of a text, [text.split()]. *)
Definition whitespace_tokens (text : string) : list string :=
  Re.findall_plus (fun c => negb (is_whitespace c)) EmptyString text.

Definition whitespace_token_count (text : string) : nat :=
  length (whitespace_tokens text).

(** The duration the specification gives for 150 words per minute:
    [word_count / (150/60) + punctuation_count * 1.2 + sentence_count * 3]
    with the whitespace-delimited tokens as words. *)
Definition duration_by_whitespace_tokens (text : string) : Q :=
  (GenerateSubtitle.Qnat (whitespace_token_count text) / ((150 # 1) / (60 # 1))
   + GenerateSubtitle.Qnat (GenerateSubtitle.punctuation_count text) * (12 # 10)
   + GenerateSubtitle.Qnat (GenerateSubtitle.sentence_count text) * (3 # 1))%Q.

End Spec.

(** ** Notions used to state the properties *)

Module Props.
Import Py World Models.

(** *** Cue timing *)

(** The estimate of [calculate_end_time] at 150 words per minute, in
    microseconds: 0.4 s per word, 1.2 s per punctuation mark, 3 s per
    sentence piece. *)
Definition estimated_duration_us (text : string) : Z :=
  400000 * Z.of_nat (GenerateSubtitle.word_count text)
  + 1200000 * Z.of_nat (GenerateSubtitle.punctuation_count text)
  + 3000000 * Z.of_nat (GenerateSubtitle.sentence_count text).

(** The end timestamp as [calculate_end_time] renders it. *)
Definition end_time_string (d : Datetime.datetime) : string :=
  drop_last3 (Datetime.strftime_HMSf d) +:+ "Z".

(** A text whose estimated duration keeps the end time within the dates a
    [datetime] can hold (some 8100 years). *)
Definition reasonable_text (text : string) : Prop :=
  estimated_duration_us text <= 2958462 * Datetime.us_per_day.

(** A two-digit field of a timestamp, as [strftime] writes the number [v],
    is read back by [strptime] as [v]. *)
Definition field_roundtrip (maxval v : Z) : bool :=
  let f := zfill 2 (str_of_int v) in
  all_chars is_decimal f
  && match Datetime.parse_field 2 maxval f with
     | Some v' => v' =? v
     | None => false
     end.

Definition upto (n : nat) : list Z := map Z.of_nat (seq 0 n).

(** *** What a statement leaves alone *)

(** A statement keeps a relation between the world before and after. *)
Definition keeps {A} (R : world -> world -> Prop) (m : M A) : Prop :=
  forall w, R w (snd (m w)).

(** Relations between the world before and after a statement: the heap, the
    translation service and the clock readings are the same; the requests
    sent to the translation service are the same; the file [q] is the
    same. *)
Definition same_inner (w w' : world) : Prop :=
  heap w' = heap w /\ translate_service w' = translate_service w
  /\ now_at w' = now_at w.

Definition same_calls (w w' : world) : Prop :=
  translate_calls w' = translate_calls w.

Definition same_file (q : string) (w w' : world) : Prop :=
  files w' !! q = files w !! q.

(** *** The Store *)

(** What the Store holds: the content of its transcript log and of its
    translation log. *)
Definition store_snapshot (self : ProcessRequest.TranscriptDataHandler) (w : world)
    : list (string * bool) * list (string * bool) :=
  (ProcessRequest.list_content (ProcessRequest.transcript_data self) w,
   ProcessRequest.list_content (ProcessRequest.translated_data self) w).

(** The Store was built in this world: its two logs are two list objects of
    the heap. *)
Definition store_allocated (self : ProcessRequest.TranscriptDataHandler) (w : world)
    : Prop :=
  is_Some (heap w !! ProcessRequest.transcript_data self)
  /\ is_Some (heap w !! ProcessRequest.translated_data self)
  /\ ProcessRequest.transcript_data self <> ProcessRequest.translated_data self.

(** Any in-place change of the list object [r]: [append], [pop], [clear],
    item assignment, ... leave it holding some [l]. *)
Definition overwrite_list (r : nat) (l : list (string * bool)) (w : world) : world :=
  set_heap (<[r := l]> (heap w)) w.

(** *** The handler of transcript events *)

(** The files the handler of transcript events writes. *)
Definition transcript_path : string :=
  GenerateOutput.path_join GenerateOutput.default_output_path
    GenerateOutput.transcript_file_name.

Definition translated_path : string :=
  GenerateOutput.path_join GenerateOutput.default_output_path
    GenerateOutput.translated_file_name.

Definition vtt_path : string := GenerateSubtitle.default_subtitle_path +:+ ".vtt".

Definition srt_path : string := GenerateSubtitle.default_subtitle_path +:+ ".srt".

(** A text file after the entries have been appended to it, one per line;
    [None] is the file that does not exist. *)
Definition appended (old : option string) (entries : list string) : option string :=
  fold_left
    (fun acc entry => Some ((default EmptyString acc +:+ entry) +:+ String "010" EmptyString))
    entries old.

(** The transcript texts of the final (not partial) results of an event, one
    per alternative, in order. *)
Definition final_texts (ev : ProcessRequest.TranscriptEvent) : list string :=
  flat_map
    (fun r => if ProcessRequest.is_partial r then []
              else map ProcessRequest.transcript (ProcessRequest.alternatives r))
    (ProcessRequest.results ev).

(** The transcript texts of all the results of an event, partial or final,
    one per alternative, in order. *)
Definition all_texts (ev : ProcessRequest.TranscriptEvent) : list string :=
  flat_map (fun r => map ProcessRequest.transcript (ProcessRequest.alternatives r))
    (ProcessRequest.results ev).

(** The request the handler sends for a text. *)
Definition request_for (self : ProcessRequest.TranscriptHandler) (text : string)
    : TranslateRequest :=
  {| req_text := text;
     req_source := default EmptyString (as_str (ProcessRequest.h_source_language self));
     req_target := default EmptyString (as_str (ProcessRequest.h_target_language self));
     req_settings := [] |}.

(** The translated text the handler uses for a transcript text: the text
    itself when the languages are the same, the answer of the service
    otherwise. *)
Definition translation_of (service : TranslateRequest -> result string)
    (self : ProcessRequest.TranscriptHandler) (same : bool) (text : string) : string :=
  if same then text
  else match service (request_for self text) with
       | Return t => t
       | Raise _ => EmptyString
       end.

(** The three helper objects [handle_transcript_event] builds. *)
Definition the_translate : TranslateTranscript.Translate :=
  TranslateTranscript.new_Translate "us-east-1".
Definition the_subtitles : GenerateSubtitle.SubtitleGenerator :=
  GenerateSubtitle.new_SubtitleGenerator GenerateSubtitle.default_subtitle_path.
Definition the_outputs : GenerateOutput.OutputGenerator :=
  GenerateOutput.new_OutputGenerator GenerateOutput.default_output_path.

(** Whether the handler takes its two languages for the same one. *)
Definition languages_same (self : ProcessRequest.TranscriptHandler) : bool :=
  match ProcessRequest.same_languages (ProcessRequest.h_source_language self)
          (ProcessRequest.h_target_language self) with
  | Return b => b
  | Raise _ => false
  end.

(** The two flags [handle_transcript_event] derives from the output
    format. *)
Definition stores_transcript (self : ProcessRequest.TranscriptHandler) : bool :=
  in_members (ProcessRequest.h_output_format self) [TRANSCRIPT_TEXT; BOTH_TEXT].

Definition stores_translated (self : ProcessRequest.TranscriptHandler) : bool :=
  in_members (ProcessRequest.h_output_format self) [TRANSLATED_TEXT; BOTH_TEXT].

(** The two loops of [handle_transcript_event]. *)
Definition event_loops (self : ProcessRequest.TranscriptHandler) (same : bool)
    (rs : list ProcessRequest.Result) : M unit :=
  for_each rs (fun result =>
    for_each (ProcessRequest.alternatives result) (fun alt =>
      ProcessRequest.handle_alternative self the_translate the_subtitles the_outputs
        (stores_transcript self) (stores_translated self) same result alt)).

(** The handler writes WebVTT cues. *)
Definition vtt_configured (self : ProcessRequest.TranscriptHandler) : bool :=
  match py_lower (ProcessRequest.h_subtitle_format self) with
  | Return format => String.eqb format "vtt"
  | Raise _ => false
  end.

(** The translated text of [text] can be had, and its cue can be timed. *)
Definition text_can_be_handled (service : TranslateRequest -> result string)
    (self : ProcessRequest.TranscriptHandler) (same : bool) (text : string) : Prop :=
  (same = true \/ returns (service (request_for self text)) = true)
  /\ reasonable_text (translation_of service self same text).

(** *** WebVTT files *)

Definition join_all (pieces : list string) : string :=
  fold_right String.append EmptyString pieces.

(** A file is fresh when it does not exist or is empty. *)
Definition fresh_file (content : option string) : bool :=
  match content with
  | None => true
  | Some c => String.eqb c EmptyString
  end.

Definition vtt_header : string :=
  "WEBVTT" +:+ GenerateSubtitle.newline +:+ GenerateSubtitle.newline.

(** One call [generator.generate_vtt_subtitle(text, partial)]. *)
Record VttCall := {
  call_generator : GenerateSubtitle.SubtitleGenerator;
  call_text : string;
  call_partial : bool
}.

(** A sequence of calls, each by a caller that goes on after an exception. *)
Fixpoint run_vtt_calls (calls : list VttCall) (w : world) : world :=
  match calls with
  | [] => w
  | c :: rest =>
      run_vtt_calls rest
        (snd (GenerateSubtitle.generate_vtt_subtitle (call_generator c) (call_text c)
                (call_partial c) w))
  end.

(** The start timestamp of a cue written when the clock reads [reading]. *)
Definition vtt_start (reading : Z) : string :=
  Datetime.strftime_HMS (Datetime.of_total_us reading) +:+ ".000".

(** The two lines of the cue a call writes for [text] when the clock reads
    [reading]; [None] when the end time cannot be computed. *)
Definition vtt_cue_at (reading : Z) (text : string) : option string :=
  match GenerateSubtitle.calculate_end_time the_subtitles (Some (vtt_start reading))
          text GenerateSubtitle.default_wpm with
  | Return end_time =>
      Some ((vtt_start reading +:+ " --> " +:+ GenerateSubtitle.fmt end_time
             +:+ GenerateSubtitle.newline)
            +:+ (text +:+ GenerateSubtitle.newline))
  | Raise _ => None
  end.

(** The cues of a sequence of calls that starts at clock reading number [n],
    in order; a call that raises writes none. *)
Fixpoint vtt_cues (clock : nat -> Z) (n : nat) (calls : list VttCall) : list string :=
  match calls with
  | [] => []
  | c :: rest =>
      match vtt_cue_at (clock n) (call_text c) with
      | Some cue => cue :: vtt_cues clock (S n) rest
      | None => vtt_cues clock (S n) rest
      end
  end.

(** The content of the target after a call that wrote [cue]. *)
Definition vtt_after (old : option string) (cue : string) : string :=
  (if fresh_file old then vtt_header else default EmptyString old) +:+ cue.

(** *** SubRip files *)

(** A sequence of [generate_srt_subtitle] calls of one generator, each by a
    caller that goes on after an exception. *)
Fixpoint run_srt_calls (self : GenerateSubtitle.SubtitleGenerator)
    (texts : list string) (w : world) : world :=
  match texts with
  | [] => w
  | text :: rest =>
      run_srt_calls self rest
        (snd (GenerateSubtitle.generate_srt_subtitle self text false w))
  end.

(** A character that does not end a line. *)
Definition no_break (c : ascii) : bool :=
  negb (Ascii.eqb c "010") && negb (Ascii.eqb c "013").

(** A digit in the sense of [isdigit], or white space. *)
Definition digit_or_space (c : ascii) : bool := char_isdigit c || is_whitespace c.

(** A line that the scan of [get_next_cue_number] takes for a cue number. *)
Definition numeric_line (line : string) : bool :=
  negb (String.eqb (strip line) EmptyString) && isdigit (strip line).

(** A cue text none of whose lines is taken for a cue number. *)
Definition plain_text (text : string) : Prop :=
  Forall (fun line => numeric_line line = false)
    (OS.lines_of EmptyString
       (text +:+ GenerateSubtitle.newline +:+ GenerateSubtitle.newline)).

(** What [get_next_cue_number] computes from the content of the file. *)
Definition next_cue_of (content : option string) : result (option Z) :=
  match content with
  | None => Return (Some 1)
  | Some c =>
      let lines := OS.lines_of EmptyString c in
      if (length lines =? 0)%nat then Return (Some 1)
      else bind (GenerateSubtitle.last_cue_number (rev lines)) (fun last =>
           Return (match last with Some n => Some (n + 1) | None => None end))
  end.

(** The index a call writes, from the content of the target before it. *)
Definition cue_index (old : option string) : result Z :=
  bind (next_cue_of (Some (default EmptyString old))) (fun next =>
  Return (match next with
          | Some n => if fresh_file old then 1 else n
          | None => 1
          end)).

(** The start timestamp of a cue written when the clock reads [reading]. *)
Definition srt_start (reading : Z) : string :=
  drop_last3 (Datetime.strftime_HMSf (Datetime.of_total_us reading)).

(** The timing line and the text lines of the cue a call writes for [text]
    when the clock reads [reading]; [None] when the end time cannot be
    computed. *)
Definition srt_body_at (reading : Z) (text : string) : option string :=
  match GenerateSubtitle.calculate_end_time the_subtitles (Some (srt_start reading))
          text GenerateSubtitle.default_wpm with
  | Return end_time =>
      Some ((srt_start reading +:+ " --> " +:+ GenerateSubtitle.fmt end_time
             +:+ GenerateSubtitle.newline)
            +:+ (text +:+ GenerateSubtitle.newline +:+ GenerateSubtitle.newline))
  | Raise _ => None
  end.

(** The cues of a sequence of calls that starts at clock reading number [n],
    numbered from [k] on; a call that raises writes none and uses no
    number. *)
Fixpoint srt_blocks (clock : nat -> Z) (n : nat) (k : Z) (texts : list string)
    : list string :=
  match texts with
  | [] => []
  | text :: rest =>
      match srt_body_at (clock n) text with
      | Some body =>
          ((str_of_int k +:+ GenerateSubtitle.newline) +:+ body)
          :: srt_blocks clock (S n) (k + 1) rest
      | None => srt_blocks clock (S n) k rest
      end
  end.

(** The target holds cues of which the last one has the number [k]: it ends
    with a line break and the scan finds [k]. *)
Definition last_cue_is (k : Z) (content : option string) : Prop :=
  exists c c',
    content = Some c /\ c = c' +:+ GenerateSubtitle.newline
    /\ GenerateSubtitle.last_cue_number (rev (OS.lines_of EmptyString c))
       = Return (Some k).

(** The target after [k] cues were written to it from fresh. *)
Definition srt_state (k : Z) (content : option string) : Prop :=
  (k = 0 /\ fresh_file content = true) \/ (1 <= k /\ last_cue_is k content).

(** *** Example inputs *)

(** A world to run examples in: no file, a clock that reads 23:59:50.123456
    and advances five seconds per reading, an empty heap, and a translation
    service that answers [<text>]. *)
Definition example_world : world :=
  {| files := ∅;
     now_at := fun n => (Z.of_nat n * 5 + 86390) * 1000000 + 123456;
     ticks := 0;
     heap := ∅;
     translate_service := fun r => Return ("<" +:+ req_text r +:+ ">");
     translate_calls := [];
     logged := [] |}.

(** Examples: a Store built in the example world, a handler configured with
    plain strings, and an event with one result of one alternative. *)
Definition example_store : ProcessRequest.TranscriptDataHandler :=
  {| ProcessRequest.transcript_data := 0%nat; ProcessRequest.translated_data := 1%nat |}.

Definition example_world_with_store : world :=
  snd (ProcessRequest.new_TranscriptDataHandler example_world).

Definition example_handler (source target format output : string)
    : ProcessRequest.TranscriptHandler :=
  ProcessRequest.new_TranscriptHandler (PStr source) (PStr target) (PStr format)
    PNone (PStr output) example_store.

Definition one_result (text : string) (partial : bool) : ProcessRequest.TranscriptEvent :=
  {| ProcessRequest.results :=
       [{| ProcessRequest.alternatives := [{| ProcessRequest.transcript := text |}];
           ProcessRequest.is_partial := partial |}] |}.

(** A session in which one final event arrives and the transport then
    fails. *)
Definition failing_session : ProcessRequest.Session :=
  {| ProcessRequest.start_error := None;
     ProcessRequest.stream :=
       [ProcessRequest.Event (one_result "Hi there" false);
        ProcessRequest.Failure (Builtin ServiceError "connection reset")] |}.

(** A session that cannot be opened. *)
Definition unopened_session : ProcessRequest.Session :=
  {| ProcessRequest.start_error := Some (Builtin ServiceError "no credentials");
     ProcessRequest.stream := [] |}.

Definition english_to_spanish : UserInput :=
  new_UserInput (PStr "en-US") (PStr "es") (PStr "srt") (PStr "us-east-1")
    (PStr "both_text").

(** The example world with a translation service that is down. *)
Definition world_without_translation : world :=
  {| files := files example_world_with_store; now_at := now_at example_world;
     ticks := 0; heap := heap example_world_with_store;
     translate_service := fun _ => Raise (Builtin ServiceError "service unavailable");
     translate_calls := []; logged := [] |}.

(** The dictionary [{"source_language": s, "target_language": t,
    "subtitle_format": f}]. *)
Definition input_data_of (s t f : string) : gmap string PyVal :=
  <["source_language" := PStr s]>
    (<["target_language" := PStr t]> (<["subtitle_format" := PStr f]> ∅)).

(** A command line on which every option is invalid. *)
Definition invalid_args : Core.Args :=
  {| Core.arg_source_language := "klingon";
     Core.arg_target_language := "xx";
     Core.arg_subtitle_format := Some "ass";
     Core.arg_aws_region := None;
     Core.arg_output_format := Some "everything" |}.

Definition one_event_session : ProcessRequest.Session :=
  {| ProcessRequest.start_error := None;
     ProcessRequest.stream := [ProcessRequest.Event (one_result "Hi" false)] |}.

(** [from_input_data] maps the target code [code] to [expected]. *)
Definition target_maps_to (code expected : string) : bool :=
  match from_input_data (input_data_of "en-US" code "srt") with
  | Return u => eq_str (target_language u) expected
  | Raise _ => false
  end.

End Props.

(** ** handle_error.py: [ErrorHandler.handle_error] *)

Module HandleError.
Import Py.

(** [handle_error(error_type, message)]: every branch raises. *)
Definition handle_error (error_type message : string) : result unit :=
  if String.eqb error_type "transcription"
  then Raise (new_error TranscriptionError message)
  else if String.eqb error_type "translation"
  then Raise (new_error TranslationError message)
  else if String.eqb error_type "subtitling"
  then Raise (new_error SubtitlingError message)
  else if String.eqb error_type "output"
  then Raise (new_error OutputGenerationError message)
  else Raise (Builtin ValueError "Invalid error type specified").

(** The [error_type] that selects a class. *)
Definition error_type_of (c : ErrorHandlerClass) : string :=
  match c with
  | TranscriptionError => "transcription"
  | TranslationError => "translation"
  | SubtitlingError => "subtitling"
  | OutputGenerationError => "output"
  end.

Definition known_error_types : list string :=
  map error_type_of
    [TranscriptionError; TranslationError; SubtitlingError; OutputGenerationError].

End HandleError.

(** ** main/generate_subtitle.py: [CaptionSmoothing] *)

Module Smoothing.
Import Py GenerateSubtitle.

(** [deque.append(x)] on a deque of maximal length [maxlen]: the item is
    added on the right, and the leftmost one is dropped when the deque has
    grown beyond [maxlen]. *)
Definition deque_append (maxlen : Z) (d : list Q) (x : Q) : list Q :=
  let d' := d ++ [x] in
  if maxlen <? Z.of_nat (length d') then tl d' else d'.

(** [CaptionSmoothing(window_size)]; [deque(maxlen=...)] refuses a negative
    length. *)
Definition new_CaptionSmoothing (window_size : Z) : result CaptionSmoothing :=
  if window_size <? 0 then Raise (Builtin ValueError "maxlen must be non-negative")
  else Return {| window_size := window_size; caption_buffer := [] |}.

(** [add_caption(self, new_caption)] *)
Definition add_caption (self : CaptionSmoothing) (new_caption : Q) : CaptionSmoothing :=
  {| window_size := window_size self;
     caption_buffer := deque_append (window_size self) (caption_buffer self) new_caption |}.

(** [sum(buffer)] *)
Definition sum (xs : list Q) : Q := fold_left Qplus xs 0%Q.

(** [get_smoothed_caption(self)]: [None] for an empty buffer, else
    [sum(buffer) / max(1, len(buffer))], the quotient being the exact one
    (a [float] quotient is its rounding).  What it prints is left out. *)
Definition get_smoothed_caption (self : CaptionSmoothing) : option Q :=
  match caption_buffer self with
  | [] => None
  | _ => Some (sum (caption_buffer self)
               / inject_Z (Z.max 1 (Z.of_nat (length (caption_buffer self)))))%Q
  end.

End Smoothing.

(** ** Further notions used to state properties *)

Module MoreProps.
Import Py World Models Props.

(** A statement raises only exceptions for which [P] holds. *)
Definition raises_only {A} (P : PyExn -> Prop) (m : M A) : Prop :=
  forall w e, fst (m w) = Raise e -> P e.

(** The three texts [str(e)] can be for an exception that reaches the
    [except] clause of [handle_transcript_event]. *)
Definition event_failure_text (text : string) : Prop :=
  text = "'NoneType' object has no attribute 'lower'"
  \/ text = "TranslationError: None"
  \/ text = "SubtitlingError: None"
  \/ text = "OutputGenerationError: None".

(** The dictionary that holds the five fields of a [UserInput]. *)
Definition to_input_data (u : UserInput) : gmap string PyVal :=
  <["source_language" := source_language u]>
    (<["target_language" := target_language u]>
       (<["subtitle_format" := subtitle_format u]>
          (<["region" := region u]>
             (<["output_format" := output_format u]> ∅)))).

(** The lookup of a member's own value finds a member with that value. *)
Definition finds_own_value (m : TargetLanguage) : bool :=
  match get_target_language_enum (PStr (value m)) with
  | Return (Some m') => String.eqb (value m') (value m)
  | _ => false
  end.

(** All that a statement leaves alone besides the file [q]: the heap, the
    translation service, the clock readings and the log. *)
Definition leaves (q : string) (w w' : world) : Prop :=
  files w' !! q = files w !! q /\ heap w' = heap w
  /\ translate_service w' = translate_service w /\ now_at w' = now_at w
  /\ logged w' = logged w.

(** The handler with another region. *)
Definition with_region (r : PyVal) (self : ProcessRequest.TranscriptHandler)
    : ProcessRequest.TranscriptHandler :=
  {| ProcessRequest.h_source_language := ProcessRequest.h_source_language self;
     ProcessRequest.h_target_language := ProcessRequest.h_target_language self;
     ProcessRequest.h_subtitle_format := ProcessRequest.h_subtitle_format self;
     ProcessRequest.h_region := r;
     ProcessRequest.h_output_format := ProcessRequest.h_output_format self;
     ProcessRequest.sequence_number := ProcessRequest.sequence_number self;
     ProcessRequest.data_handler := ProcessRequest.data_handler self |}.

(** The last [n] items of a list. *)
Definition lastn {A} (n : nat) (l : list A) : list A := skipn (length l - n) l.

(** The captions added one after the other. *)
Definition add_captions (self : GenerateSubtitle.CaptionSmoothing) (xs : list Q)
    : GenerateSubtitle.CaptionSmoothing :=
  fold_left Smoothing.add_caption xs self.

(** The subtitle file the handler writes: the WebVTT one when the format
    lowers to [vtt], the SubRip one otherwise. *)
Definition subtitle_target (self : ProcessRequest.TranscriptHandler) : string :=
  if vtt_configured self then vtt_path else srt_path.

(** Two worlds in which a subtitle writer whose target is [p] does the same
    to its target: the target, the clock and its readings are the same. *)
Definition agree (p : string) (w v : world) : Prop :=
  files w !! p = files v !! p /\ ticks w = ticks v /\ now_at w = now_at v.

(** A statement that does the same in worlds that agree on [p]: the same
    outcome, and worlds that agree on [p] again. *)
Definition respects {A} (p : string) (m : M A) : Prop :=
  forall w v, agree p w v ->
    fst (m w) = fst (m v) /\ agree p (snd (m w)) (snd (m v)).

(** One call of the subtitle writer the handler is configured for. *)
Definition write_cue (self : ProcessRequest.TranscriptHandler) (text : string) : M unit :=
  if vtt_configured self
  then GenerateSubtitle.generate_vtt_subtitle the_subtitles text false
  else GenerateSubtitle.generate_srt_subtitle the_subtitles text false.

(** One call per text, in order. *)
Fixpoint write_cues (self : ProcessRequest.TranscriptHandler) (texts : list string)
    (w : world) : world :=
  match texts with
  | [] => w
  | text :: rest => write_cues self rest (snd (write_cue self text w))
  end.

End MoreProps.

(** * Properties *)

Import Py World Models Props.

(** ** The cue timing estimate *)

Section Rounding.

Lemma round_half_even_inject (x : Q) (k : Z) :
  (x == inject_Z k)%Q -> Datetime.round_half_even x = k.
Proof.
  intros H. unfold Datetime.round_half_even.
  assert (Hf : Qfloor x = k) by (rewrite (Qfloor_comp _ _ H); apply Qfloor_Z).
  rewrite Hf.
  assert (Hc : ((x - inject_Z k) ?= (1 # 2))%Q = Lt).
  { rewrite <- Qlt_alt. rewrite H. unfold Qminus. rewrite Qplus_opp_r. reflexivity. }
  now rewrite Hc.
Qed.

Lemma additional_seconds_us (text : string) :
  (GenerateSubtitle.additional_seconds text (60 / inject_Z 150)
     * inject_Z Datetime.us_per_second
   == inject_Z (estimated_duration_us text))%Q.
Proof.
  unfold GenerateSubtitle.additional_seconds, estimated_duration_us,
    GenerateSubtitle.Qnat, GenerateSubtitle.punctuation_pause_multiplier,
    GenerateSubtitle.seconds_per_sentence, Datetime.us_per_second.
  rewrite !inject_Z_plus, !inject_Z_mult.
  generalize (inject_Z (Z.of_nat (GenerateSubtitle.word_count text))).
  generalize (inject_Z (Z.of_nat (GenerateSubtitle.punctuation_count text))).
  generalize (inject_Z (Z.of_nat (GenerateSubtitle.sentence_count text))).
  intros a b c.
  assert (E : (60 / inject_Z 150 == 4 # 10)%Q) by reflexivity.
  rewrite E. clear E.
  unfold Qeq. simpl. lia.
Qed.

Lemma additional_seconds_formula (text : string) :
  (GenerateSubtitle.additional_seconds text (60 / inject_Z 150)
   == GenerateSubtitle.Qnat (GenerateSubtitle.word_count text) / ((150 # 1) / (60 # 1))
      + GenerateSubtitle.Qnat (GenerateSubtitle.punctuation_count text) * (12 # 10)
      + GenerateSubtitle.Qnat (GenerateSubtitle.sentence_count text) * (3 # 1))%Q.
Proof.
  unfold GenerateSubtitle.additional_seconds,
    GenerateSubtitle.punctuation_pause_multiplier, GenerateSubtitle.seconds_per_sentence.
  generalize (GenerateSubtitle.Qnat (GenerateSubtitle.word_count text)).
  generalize (GenerateSubtitle.Qnat (GenerateSubtitle.punctuation_count text)).
  generalize (GenerateSubtitle.Qnat (GenerateSubtitle.sentence_count text)).
  intros a b c.
  assert (E : (60 / inject_Z 150 == 4 # 10)%Q) by reflexivity.
  assert (E' : ((150 # 1) / (60 # 1) == 5 # 2)%Q) by reflexivity.
  rewrite E. unfold Qdiv. rewrite E'. 
  unfold Qeq. simpl. lia.
Qed.

End Rounding.

Lemma split_class_nonempty (p : ascii -> bool) (s cur : string) :
  (1 <= length (Re.split_class p cur s))%nat.
Proof.
  revert cur. induction s as [|c s IH]; intros cur; simpl.
  - lia.
  - destruct (p c); simpl; [lia | apply IH].
Qed.

Lemma sentence_count_positive (text : string) :
  (1 <= GenerateSubtitle.sentence_count text)%nat.
Proof. apply split_class_nonempty. Qed.

Lemma estimated_duration_at_least_3s (text : string) :
  3000000 <= estimated_duration_us text.
Proof.
  unfold estimated_duration_us.
  pose proof (sentence_count_positive text). lia.
Qed.

Lemma is_decimal_ord (c : ascii) : is_decimal c = true -> 48 <= ord c <= 57.
Proof. unfold is_decimal, in_range. intros H. apply andb_prop in H. lia. Qed.

Lemma digits_value_nonneg (s : string) (acc : Z) :
  all_chars is_decimal s = true -> 0 <= acc -> 0 <= digits_value acc s.
Proof.
  revert acc. induction s as [|c s IH]; intros acc H Hacc; simpl in *.
  - exact Hacc.
  - apply andb_prop in H as [Hc Hs]. apply is_decimal_ord in Hc.
    apply IH; [exact Hs | lia].
Qed.

Lemma parse_field_nonneg (n : nat) (mx : Z) (f : string) (v : Z) :
  Datetime.parse_field n mx f = Some v -> 0 <= v <= mx.
Proof.
  unfold Datetime.parse_field.
  destruct (_ && _) eqn:E; [|discriminate].
  intros [= <-].
  repeat (apply andb_prop in E as [E ?]).
  split; [apply digits_value_nonneg; [assumption | lia] | lia].
Qed.

Lemma all_chars_app (p : ascii -> bool) (a b : string) :
  all_chars p (a +:+ b) = all_chars p a && all_chars p b.
Proof.
  induction a as [|c a IH]; simpl; [reflexivity|].
  rewrite IH. now rewrite andb_assoc.
Qed.

Lemma all_chars_zeros (n : nat) : all_chars is_decimal (zeros n) = true.
Proof. induction n; simpl; [reflexivity | exact IHn]. Qed.

Lemma parse_fraction_nonneg (f : string) (v : Z) :
  Datetime.parse_fraction f = Some v -> 0 <= v.
Proof.
  unfold Datetime.parse_fraction.
  destruct (_ && _) eqn:E; [|discriminate].
  intros [= <-].
  repeat (apply andb_prop in E as [E ?]).
  apply digits_value_nonneg; [|lia].
  rewrite all_chars_app, all_chars_zeros. now rewrite andb_true_r.
Qed.

(** What a parsed start time looks like. *)
Lemma strptime_HMSf_fields (s : string) (d : Datetime.datetime) :
  Datetime.strptime_HMSf s = Return d ->
  Datetime.ordinal d = Datetime.ordinal_1900_01_01
  /\ 0 <= Datetime.hour d <= 23 /\ 0 <= Datetime.minute d <= 59
  /\ 0 <= Datetime.second d <= 59 /\ 0 <= Datetime.microsecond d.
Proof.
  unfold Datetime.strptime_HMSf.
  destruct (Datetime.split_once ":" s) as [[fh r1]|]; [|discriminate].
  destruct (Datetime.split_once ":" r1) as [[fm r2]|]; [|discriminate].
  destruct (Datetime.split_once "." r2) as [[fs ff]|]; [|discriminate].
  destruct (Datetime.parse_field 2 23 fh) as [h|] eqn:Hh; [|discriminate].
  destruct (Datetime.parse_field 2 59 fm) as [m|] eqn:Hm; [|discriminate].
  destruct (Datetime.parse_field 2 61 fs) as [sec|] eqn:Hs; [|discriminate].
  destruct (Datetime.parse_fraction ff) as [us|] eqn:Hf; [|discriminate].
  destruct (59 <? sec) eqn:Hsec; [discriminate|].
  intros [= <-]. simpl.
  apply parse_field_nonneg in Hh, Hm, Hs. apply parse_fraction_nonneg in Hf.
  lia.
Qed.

Lemma length_append (a b : string) :
  String.length (a +:+ b) = (String.length a + String.length b)%nat.
Proof.
  induction a as [|c a IH]; [reflexivity|].
  change (String c a +:+ b) with (String c (a +:+ b)). simpl. now rewrite IH.
Qed.

Lemma digits_value_bound (s : string) :
  all_chars is_decimal s = true ->
  forall acc, 0 <= acc ->
    digits_value acc s < (acc + 1) * 10 ^ Z.of_nat (String.length s).
Proof.
  induction s as [|c s IH]; intros H acc Hacc.
  - simpl. lia.
  - simpl in H. apply andb_prop in H as [Hc Hs]. apply is_decimal_ord in Hc.
    cbn [digits_value String.length]. rewrite Nat2Z.inj_succ, Z.pow_succ_r by lia.
    specialize (IH Hs (10 * acc + (ord c - 48)) ltac:(lia)).
    assert (0 < 10 ^ Z.of_nat (String.length s)) by (apply Z.pow_pos_nonneg; lia).
    nia.
Qed.

Lemma parse_fraction_bound (f : string) (v : Z) :
  Datetime.parse_fraction f = Some v -> 0 <= v < 1000000.
Proof.
  intros H. split; [now apply (parse_fraction_nonneg f)|].
  unfold Datetime.parse_fraction in H.
  destruct (_ && _) eqn:E; [|discriminate]. injection H as <-.
  repeat (apply andb_prop in E as [E ?]).
  assert (Hall : all_chars is_decimal (f +:+ zeros (6 - String.length f)) = true)
    by now rewrite all_chars_app, all_chars_zeros, andb_true_r.
  pose proof (digits_value_bound _ Hall 0 ltac:(lia)) as Hb.
  assert (Hz : forall n, String.length (zeros n) = n)
    by (induction n; simpl; congruence).
  rewrite length_append, Hz in Hb.
  apply Nat.leb_le in H0.
  replace (String.length f + (6 - String.length f))%nat with 6%nat in Hb by lia.
  simpl in Hb. lia.
Qed.


Lemma us_of_day_nonneg (s : string) (d : Datetime.datetime) :
  Datetime.strptime_HMSf s = Return d -> 0 <= Datetime.us_of_day d.
Proof.
  intros H. apply strptime_HMSf_fields in H.
  unfold Datetime.us_of_day, Datetime.us_per_second. lia.
Qed.

Lemma us_of_day_of_total_us (t : Z) :
  Datetime.us_of_day (Datetime.of_total_us t) = t mod Datetime.us_per_day.
Proof.
  unfold Datetime.us_of_day, Datetime.of_total_us, Datetime.us_per_day,
    Datetime.us_per_second. simpl.
  set (r := t mod (86400 * 1000000)).
  assert (Hr : 0 <= r < 86400 * 1000000) by (apply Z.mod_pos_bound; lia).
  clearbody r.
  pose proof (Z.div_mod r 1000000 ltac:(lia)) as E1.
  pose proof (Z.mod_pos_bound r 1000000 ltac:(lia)) as B1.
  pose proof (Z.div_mod (r / 1000000) 60 ltac:(lia)) as E2.
  pose proof (Z.mod_pos_bound (r / 1000000) 60 ltac:(lia)) as B2.
  assert (E3 : r / (60 * 1000000) = r / 1000000 / 60)
    by (rewrite Z.mul_comm, Z.div_div by lia; reflexivity).
  assert (E4 : r / (3600 * 1000000) = r / 1000000 / 60 / 60).
  { rewrite !Z.div_div by lia. f_equal. }
  pose proof (Z.div_mod (r / 1000000 / 60) 60 ltac:(lia)) as E5.
  rewrite E3, E4. lia.
Qed.


Lemma day_positive : 0 < Datetime.us_per_day.
Proof. reflexivity. Qed.

(** [timedelta(seconds=additional_seconds)] at 150 words per minute. *)
Lemma timedelta_of_estimate (text : string) :
  estimated_duration_us text / Datetime.us_per_day <= Datetime.max_delta_days ->
  Datetime.timedelta_of_seconds
    (GenerateSubtitle.additional_seconds text (60 / inject_Z 150))
  = Return (estimated_duration_us text).
Proof.
  intros Hb. unfold Datetime.timedelta_of_seconds.
  rewrite (round_half_even_inject _ _ (additional_seconds_us text)).
  pose proof (estimated_duration_at_least_3s text) as H3.
  assert (0 <= estimated_duration_us text / Datetime.us_per_day)
    by (apply Z.div_pos; [lia | apply day_positive]).
  rewrite Z.abs_eq by assumption.
  destruct (Z.leb_spec (estimated_duration_us text / Datetime.us_per_day)
              Datetime.max_delta_days); [reflexivity | lia].
Qed.

(** The value of [calculate_end_time] at 150 words per minute when the end
    stays within the dates a [datetime] can hold. *)
Lemma calculate_end_time_150 (self : GenerateSubtitle.SubtitleGenerator)
    (start text : string) (start_dt : Datetime.datetime) :
  Datetime.strptime_HMSf start = Return start_dt ->
  (Datetime.total_us start_dt + estimated_duration_us text) / Datetime.us_per_day
    <= Datetime.MAXORDINAL ->
  GenerateSubtitle.calculate_end_time self (Some start) text 150
  = Return (Some (end_time_string
      (Datetime.of_total_us (Datetime.total_us start_dt + estimated_duration_us text)))).
Proof.
  intros Hp Hmax.
  pose proof (estimated_duration_at_least_3s text) as H3.
  pose proof (us_of_day_nonneg _ _ Hp) as Hu.
  pose proof (strptime_HMSf_fields _ _ Hp) as [Hord _].
  pose proof day_positive as Hday.
  assert (Hge : Datetime.ordinal_1900_01_01 * Datetime.us_per_day
                <= Datetime.total_us start_dt) by (unfold Datetime.total_us; nia).
  assert (Hlow : Datetime.ordinal_1900_01_01
                 <= (Datetime.total_us start_dt + estimated_duration_us text)
                    / Datetime.us_per_day)
    by (apply Z.div_le_lower_bound; lia).
  assert (Hd : estimated_duration_us text / Datetime.us_per_day
               <= Datetime.max_delta_days).
  { transitivity ((Datetime.total_us start_dt + estimated_duration_us text)
                  / Datetime.us_per_day).
    - apply Z.div_le_mono; [exact Hday|].
      unfold Datetime.total_us, Datetime.ordinal_1900_01_01 in *. nia.
    - unfold Datetime.MAXORDINAL, Datetime.max_delta_days in *. lia. }
  unfold GenerateSubtitle.calculate_end_time. rewrite Hp. simpl.
  rewrite (timedelta_of_estimate text Hd). simpl.
  unfold Datetime.add.
  destruct (Z.ltb_spec 0 ((Datetime.total_us start_dt + estimated_duration_us text)
                          / Datetime.us_per_day));
    [|unfold Datetime.ordinal_1900_01_01 in *; lia].
  destruct (Z.leb_spec ((Datetime.total_us start_dt + estimated_duration_us text)
                        / Datetime.us_per_day) Datetime.MAXORDINAL); [|lia].
  reflexivity.
Qed.

(** C3 as the specification words it, refuted: with the words counted as
    whitespace-delimited tokens the text [don't] has one word and a duration
    of 3.4 s; the program counts the two runs [don] and [t] and adds 3.8 s. *)
Lemma estimate_end_whitespace_words_refuted :
  let self := GenerateSubtitle.new_SubtitleGenerator GenerateSubtitle.default_subtitle_path in
  let text := "don't" in
  Spec.whitespace_token_count text = 1%nat
  /\ GenerateSubtitle.word_count text = 2%nat
  /\ (Spec.duration_by_whitespace_tokens text == 34 # 10)%Q
  /\ (GenerateSubtitle.additional_seconds text (60 / inject_Z 150) == 38 # 10)%Q
  /\ GenerateSubtitle.calculate_end_time self (Some "00:00:00.000") text 150
     = Return (Some "00:00:03.800Z")
  /\ ~ (forall t : string,
          GenerateSubtitle.additional_seconds t (60 / inject_Z 150)
          == Spec.duration_by_whitespace_tokens t)%Q.
Proof.
  cbv zeta. repeat split; try reflexivity.
  intros H. specialize (H "don't"). vm_compute in H. discriminate.
Qed.

(** C3, amended: at 150 words per minute [calculate_end_time] adds
    [word_count / (150/60) + punctuation_count * 1.2 + sentence_count * 3]
    seconds to the start, where [word_count] is the number of matches of
    [\w+] (maximal runs of word characters), [punctuation_count] the number
    of [. , ? !] and [sentence_count] the number of pieces of the split on
    [. ! ?], which is at least 1 and is 1 for the empty text.  The sum is a
    whole number of microseconds, and the value returned is the time of day
    of start + duration, cut to milliseconds, followed by [Z].  For
    [Hello world.] the counts are 2, 1 and 2 and the duration is 8 s. *)
Theorem estimate_end_adds_duration (self : GenerateSubtitle.SubtitleGenerator)
    (start text : string) (start_dt : Datetime.datetime) :
  Datetime.strptime_HMSf start = Return start_dt ->
  (Datetime.total_us start_dt + estimated_duration_us text) / Datetime.us_per_day
    <= Datetime.MAXORDINAL ->
  (GenerateSubtitle.additional_seconds text (60 / inject_Z 150)
   == GenerateSubtitle.Qnat (GenerateSubtitle.word_count text) / ((150 # 1) / (60 # 1))
      + GenerateSubtitle.Qnat (GenerateSubtitle.punctuation_count text) * (12 # 10)
      + GenerateSubtitle.Qnat (GenerateSubtitle.sentence_count text) * (3 # 1))%Q
  /\ GenerateSubtitle.seconds_per_word 150 = Return (60 / inject_Z 150)%Q
  /\ Datetime.timedelta_of_seconds
       (GenerateSubtitle.additional_seconds text (60 / inject_Z 150))
     = Return (estimated_duration_us text)
  /\ GenerateSubtitle.calculate_end_time self (Some start) text 150
     = Return (Some (end_time_string
         (Datetime.of_total_us (Datetime.total_us start_dt + estimated_duration_us text))))
  /\ (1 <= GenerateSubtitle.sentence_count text)%nat
  /\ GenerateSubtitle.sentence_count "" = 1%nat
  /\ GenerateSubtitle.word_count "Hello world." = 2%nat
  /\ GenerateSubtitle.punctuation_count "Hello world." = 1%nat
  /\ GenerateSubtitle.sentence_count "Hello world." = 2%nat
  /\ estimated_duration_us "Hello world." = 8 * Datetime.us_per_second.
Proof.
  intros Hp Hmax.
  split; [apply additional_seconds_formula|].
  split; [reflexivity|].
  split.
  { apply timedelta_of_estimate.
    pose proof (estimated_duration_at_least_3s text).
    pose proof (us_of_day_nonneg _ _ Hp).
    pose proof (strptime_HMSf_fields _ _ Hp) as [Hord _].
    transitivity ((Datetime.total_us start_dt + estimated_duration_us text)
                  / Datetime.us_per_day).
    - apply Z.div_le_mono; [apply day_positive|].
      unfold Datetime.total_us. rewrite Hord.
      unfold Datetime.ordinal_1900_01_01, Datetime.us_per_day, Datetime.us_per_second. lia.
    - unfold Datetime.MAXORDINAL, Datetime.max_delta_days in *. lia. }
  split; [now apply calculate_end_time_150|].
  split; [apply sentence_count_positive|].
  repeat split; reflexivity.
Qed.

Lemma estimate_end_adds_duration_witness :
  GenerateSubtitle.calculate_end_time
    (GenerateSubtitle.new_SubtitleGenerator GenerateSubtitle.default_subtitle_path)
    (Some "12:00:00.000") "Hello world." 150
  = Return (Some "12:00:08.000Z").
Proof.
  pose proof (estimate_end_adds_duration
    (GenerateSubtitle.new_SubtitleGenerator GenerateSubtitle.default_subtitle_path)
    "12:00:00.000" "Hello world."
    {| Datetime.ordinal := Datetime.ordinal_1900_01_01; Datetime.hour := 12;
       Datetime.minute := 0; Datetime.second := 0; Datetime.microsecond := 0 |}
    eq_refl ltac:(vm_compute; discriminate)) as (_ & _ & _ & H & _).
  rewrite H. vm_compute. reflexivity.
Defined.

(** C4: [calculate_end_time] is deterministic.  Two calls with the same start
    string, text and words per minute return the same value (a timestamp,
    [None], or the same exception), whatever generator object and whatever
    world (files, clock, heap, translation service) each call runs in, and
    the call leaves its world as it was. *)
Theorem estimate_end_deterministic
    (self1 self2 : GenerateSubtitle.SubtitleGenerator)
    (start1 start2 : option string) (text1 text2 : string) (wpm1 wpm2 : Z)
    (w1 w2 : world) :
  start1 = start2 -> text1 = text2 -> wpm1 = wpm2 ->
  GenerateSubtitle.calculate_end_time self1 start1 text1 wpm1
  = GenerateSubtitle.calculate_end_time self2 start2 text2 wpm2
  /\ fst (lift (GenerateSubtitle.calculate_end_time self1 start1 text1 wpm1) w1)
     = fst (lift (GenerateSubtitle.calculate_end_time self2 start2 text2 wpm2) w2)
  /\ snd (lift (GenerateSubtitle.calculate_end_time self1 start1 text1 wpm1) w1) = w1
  /\ snd (lift (GenerateSubtitle.calculate_end_time self2 start2 text2 wpm2) w2) = w2.
Proof.
  intros -> -> ->.
  assert (E : GenerateSubtitle.calculate_end_time self1 start2 text2 wpm2
              = GenerateSubtitle.calculate_end_time self2 start2 text2 wpm2).
  { unfold GenerateSubtitle.calculate_end_time. reflexivity. }
  repeat split; simpl; exact E.
Qed.

Lemma estimate_end_deterministic_witness :
  GenerateSubtitle.calculate_end_time
    (GenerateSubtitle.new_SubtitleGenerator "a") (Some "10:20:30.400") "Hello world." 150
  = GenerateSubtitle.calculate_end_time
    (GenerateSubtitle.new_SubtitleGenerator "b") (Some "10:20:30.400") "Hello world." 150.
Proof.
  exact (proj1 (estimate_end_deterministic
    (GenerateSubtitle.new_SubtitleGenerator "a") (GenerateSubtitle.new_SubtitleGenerator "b")
    (Some "10:20:30.400") (Some "10:20:30.400") "Hello world." "Hello world." 150 150
    example_world (set_ticks 7 example_world) eq_refl eq_refl eq_refl)).
Defined.





(** ** The Transcript/Translation Store *)

Section Store.
Import ProcessRequest.

Lemma fresh_not_allocated (h : gmap nat (list (string * bool))) :
  h !! fresh (dom h) = None.
Proof. apply not_elem_of_dom. apply is_fresh. Qed.

Lemma list_content_overwrite_ne (r r' : nat) (l : list (string * bool)) (w : world) :
  r <> r' -> list_content r' (overwrite_list r l w) = list_content r' w.
Proof.
  intros Hne. unfold list_content, overwrite_list. simpl.
  now rewrite lookup_insert_ne.
Qed.

Lemma list_content_overwrite_eq (r : nat) (l : list (string * bool)) (w : world) :
  list_content r (overwrite_list r l w) = l.
Proof.
  unfold list_content, overwrite_list. simpl. now rewrite lookup_insert_eq.
Qed.

(** [r[:]] builds a new object with the content of [r]. *)
Lemma list_copy_run (r : nat) (w : world) :
  list_copy r w
  = (Return (fresh (dom (heap w))),
     overwrite_list (fresh (dom (heap w))) (list_content r w) w).
Proof. reflexivity. Qed.

(** [r.append(x)] on an allocated object. *)
Lemma list_append_run (r : nat) (x : string * bool) (w : world) :
  is_Some (heap w !! r) ->
  list_append r x w = (Return tt, overwrite_list r (list_content r w ++ [x]) w).
Proof.
  intros [l Hl]. unfold list_append, overwrite_list, list_content.
  rewrite Hl. simpl. do 2 f_equal.
  apply map_eq. intros i.
  destruct (decide (r = i)) as [<-|Hne].
  - now rewrite lookup_alter_eq, Hl, lookup_insert_eq.
  - now rewrite lookup_alter_ne, lookup_insert_ne.
Qed.

Lemma copy_is_snapshot (self : TranscriptDataHandler) (src : nat) (w : world) :
  store_allocated self w ->
  let r := fresh (dom (heap w)) in
  let w' := overwrite_list r (list_content src w) w in
  heap w !! r = None
  /\ r <> transcript_data self /\ r <> translated_data self
  /\ list_content r w' = list_content src w
  /\ store_allocated self w'
  /\ store_snapshot self w' = store_snapshot self w
  /\ (forall l, store_snapshot self (overwrite_list r l w') = store_snapshot self w)
  /\ (forall x, store_snapshot self (snd (list_append r x w')) = store_snapshot self w).
Proof.
  intros (Ha & Hb & Hne) r w'.
  assert (Hr : heap w !! r = None) by apply fresh_not_allocated.
  assert (Hra : r <> transcript_data self) by (intros E; rewrite <- E, Hr in Ha; now destruct Ha).
  assert (Hrb : r <> translated_data self) by (intros E; rewrite <- E, Hr in Hb; now destruct Hb).
  assert (Hsnap : store_snapshot self w' = store_snapshot self w).
  { unfold store_snapshot, w'. now rewrite !list_content_overwrite_ne. }
  assert (Hmut : forall l, store_snapshot self (overwrite_list r l w') = store_snapshot self w).
  { intros l. rewrite <- Hsnap. unfold store_snapshot.
    now rewrite !list_content_overwrite_ne. }
  split; [exact Hr|]. split; [exact Hra|]. split; [exact Hrb|].
  split; [apply list_content_overwrite_eq|].
  split.
  { unfold store_allocated, w', overwrite_list. simpl.
    rewrite !lookup_insert_ne by assumption. auto. }
  split; [exact Hsnap|]. split; [exact Hmut|].
  intros x. rewrite list_append_run.
  - simpl. apply Hmut.
  - unfold w', overwrite_list. simpl. rewrite lookup_insert_eq. eauto.
Qed.

Lemma append_is_one_entry (self : TranscriptDataHandler) (r : nat)
    (x : string * bool) (w : world) :
  store_allocated self w -> is_Some (heap w !! r) ->
  let w' := snd (list_append r x w) in
  fst (list_append r x w) = Return tt
  /\ list_content r w' = list_content r w ++ [x]
  /\ (forall r', r' <> r -> heap w' !! r' = heap w !! r')
  /\ store_allocated self w'
  /\ files w' = files w /\ translate_calls w' = translate_calls w
  /\ ticks w' = ticks w /\ logged w' = logged w.
Proof.
  intros (Ha & Hb & Hne) Hr. rewrite (list_append_run r x w Hr). simpl.
  split; [reflexivity|].
  split; [apply list_content_overwrite_eq|].
  split; [intros r' Hr'; now rewrite lookup_insert_ne|].
  split; [|repeat split].
  unfold store_allocated. simpl.
  rewrite !lookup_insert_is_Some. 
  repeat split; try exact Hne;
    [destruct (decide (r = transcript_data self)); auto
    |destruct (decide (r = translated_data self)); auto].
Qed.

End Store.

(** C10: [get_transcript_data] and [get_translated_data] return a new list
    object holding the content of the log, so that any change of the returned
    list (an [append] on it, or whatever leaves it holding some other
    content) leaves both logs of the Store as they were, and the getters
    themselves change neither log; [store_transcript_data] and
    [store_translated_data] add exactly the pair [(text, is_partial)] at the
    end of their log, keep the entries stored before, leave the other log and
    every other list object alone, and touch nothing else in the world. *)
Theorem store_append_only_and_snapshots
    (self : ProcessRequest.TranscriptDataHandler) (w : world) :
  store_allocated self w ->
  (exists r w',
      ProcessRequest.get_transcript_data self w = (Return r, w')
      /\ heap w !! r = None
      /\ ProcessRequest.list_content r w' = fst (store_snapshot self w)
      /\ store_snapshot self w' = store_snapshot self w
      /\ (forall l, store_snapshot self (overwrite_list r l w') = store_snapshot self w)
      /\ (forall x, store_snapshot self (snd (ProcessRequest.list_append r x w'))
                    = store_snapshot self w))
  /\ (exists r w',
      ProcessRequest.get_translated_data self w = (Return r, w')
      /\ heap w !! r = None
      /\ ProcessRequest.list_content r w' = snd (store_snapshot self w)
      /\ store_snapshot self w' = store_snapshot self w
      /\ (forall l, store_snapshot self (overwrite_list r l w') = store_snapshot self w)
      /\ (forall x, store_snapshot self (snd (ProcessRequest.list_append r x w'))
                    = store_snapshot self w))
  /\ (forall text is_partial, exists w',
      ProcessRequest.store_transcript_data self text is_partial w = (Return tt, w')
      /\ store_snapshot self w'
         = (fst (store_snapshot self w) ++ [(text, is_partial)],
            snd (store_snapshot self w))
      /\ (forall r, r <> ProcessRequest.transcript_data self -> heap w' !! r = heap w !! r)
      /\ store_allocated self w'
      /\ files w' = files w /\ translate_calls w' = translate_calls w)
  /\ (forall text is_partial, exists w',
      ProcessRequest.store_translated_data self text is_partial w = (Return tt, w')
      /\ store_snapshot self w'
         = (fst (store_snapshot self w),
            snd (store_snapshot self w) ++ [(text, is_partial)])
      /\ (forall r, r <> ProcessRequest.translated_data self -> heap w' !! r = heap w !! r)
      /\ store_allocated self w'
      /\ files w' = files w /\ translate_calls w' = translate_calls w).
Proof.
  intros Hok. pose proof Hok as (Ha & Hb & Hne).
  split; [|split; [|split]].
  - destruct (copy_is_snapshot self (ProcessRequest.transcript_data self) w Hok)
      as (Hr & _ & _ & Hc & _ & Hs & Hm & Hx).
    eexists _, _. split; [apply list_copy_run|]. auto.
  - destruct (copy_is_snapshot self (ProcessRequest.translated_data self) w Hok)
      as (Hr & _ & _ & Hc & _ & Hs & Hm & Hx).
    eexists _, _. split; [apply list_copy_run|]. auto.
  - intros text p.
    destruct (append_is_one_entry self (ProcessRequest.transcript_data self)
                (text, p) w Hok Ha) as (Hret & Hc & Hfr & Hok' & Hf & Htc & _).
    exists (snd (ProcessRequest.list_append (ProcessRequest.transcript_data self) (text, p) w)).
    split.
    { unfold ProcessRequest.store_transcript_data.
      destruct (ProcessRequest.list_append _ _ w) as [res w'] eqn:E.
      simpl in *. now rewrite Hret. }
    split.
    { unfold store_snapshot. rewrite Hc. simpl. f_equal.
      unfold ProcessRequest.list_content. rewrite Hfr by congruence. reflexivity. }
    auto.
  - intros text p.
    destruct (append_is_one_entry self (ProcessRequest.translated_data self)
                (text, p) w Hok Hb) as (Hret & Hc & Hfr & Hok' & Hf & Htc & _).
    exists (snd (ProcessRequest.list_append (ProcessRequest.translated_data self) (text, p) w)).
    split.
    { unfold ProcessRequest.store_translated_data.
      destruct (ProcessRequest.list_append _ _ w) as [res w'] eqn:E.
      simpl in *. now rewrite Hret. }
    split.
    { unfold store_snapshot. rewrite Hc. simpl. f_equal.
      unfold ProcessRequest.list_content. rewrite Hfr by congruence. reflexivity. }
    auto.
Qed.

Lemma store_append_only_and_snapshots_witness :
  let self := {| ProcessRequest.transcript_data := 0%nat;
                 ProcessRequest.translated_data := 1%nat |} in
  let w := snd (ProcessRequest.new_TranscriptDataHandler example_world) in
  store_allocated self w
  /\ exists w',
       ProcessRequest.store_transcript_data self "Hi" false w = (Return tt, w')
       /\ store_snapshot self w' = ([("Hi", false)], []).
Proof.
  cbv zeta.
  assert (Hok : store_allocated
                  {| ProcessRequest.transcript_data := 0%nat;
                     ProcessRequest.translated_data := 1%nat |}
                  (snd (ProcessRequest.new_TranscriptDataHandler example_world))).
  { repeat split; [eexists; vm_compute; reflexivity
                  |eexists; vm_compute; reflexivity | discriminate]. }
  split; [exact Hok|].
  destruct (store_append_only_and_snapshots _ _ Hok) as (_ & _ & Hst & _).
  destruct (Hst "Hi" false) as (w' & Hrun & Hsnap & _).
  exists w'. split; [exact Hrun|]. rewrite Hsnap. vm_compute. reflexivity.
Defined.

(** ** What a statement leaves alone *)

Section Frame.
Import GenerateSubtitle GenerateOutput TranslateTranscript ProcessRequest.
Local Open Scope py_scope.

Variable R : world -> world -> Prop.
Hypothesis R_refl : forall w, R w w.
Hypothesis R_trans : forall a b c, R a b -> R b c -> R a c.

Lemma keeps_ret {A} (a : A) : keeps R (ret a).
Proof. intros w. apply R_refl. Qed.


Lemma keeps_lift {A} (r : result A) : keeps R (lift r).
Proof. intros w. apply R_refl. Qed.

Lemma keeps_bind {A B} (m : M A) (k : A -> M B) :
  keeps R m -> (forall a, keeps R (k a)) -> keeps R (bindM m k).
Proof.
  intros Hm Hk w. unfold bindM. specialize (Hm w).
  destruct (m w) as [[a|e] w1]; simpl in *.
  - eapply R_trans; [exact Hm | apply Hk].
  - exact Hm.
Qed.

Lemma keeps_try_reraise {A} (m : M A) (h : PyExn -> PyExn) :
  keeps R m -> keeps R (try_reraise m h).
Proof.
  intros Hm w. unfold try_reraise. specialize (Hm w).
  destruct (m w) as [[a|e] w1]; exact Hm.
Qed.

Lemma keeps_for_each {A} (xs : list A) (body : A -> M unit) :
  (forall x, keeps R (body x)) -> keeps R (for_each xs body).
Proof.
  intros Hb. induction xs as [|x xs IH]; simpl.
  - apply keeps_ret.
  - apply keeps_bind; [apply Hb | intros _; exact IH].
Qed.

Lemma keeps_for_each_Forall {A} (xs : list A) (body : A -> M unit) :
  Forall (fun x => keeps R (body x)) xs -> keeps R (for_each xs body).
Proof.
  induction 1 as [|x xs Hx _ IH]; simpl.
  - apply keeps_ret.
  - apply keeps_bind; [exact Hx | intros _; exact IH].
Qed.

Lemma keeps_when (b : bool) (m : M unit) :
  (b = true -> keeps R m) -> keeps R (when b m).
Proof. destruct b; simpl; [auto | intros _; apply keeps_ret]. Qed.

Lemma keeps_isfile (p : string) : keeps R (OS.isfile p).
Proof. intros w. apply R_refl. Qed.

Lemma keeps_size_is_zero (p : string) : keeps R (OS.size_is_zero p).
Proof. intros w. apply R_refl. Qed.

Lemma keeps_readlines (p : string) : keeps R (OS.readlines p).
Proof. intros w. apply R_refl. Qed.

(** The clock may advance, and the files for which [writable] holds may
    change. *)
Variable writable : string -> Prop.
Hypothesis R_ticks : forall w n, R w (set_ticks n w).
Hypothesis R_write :
  forall w p c, writable p -> R w (set_files (<[p := c]> (files w)) w).

Lemma keeps_now : keeps R OS.now.
Proof. intros w. apply R_ticks. Qed.

Lemma keeps_open_append (p : string) : writable p -> keeps R (OS.open_append p).
Proof.
  intros Hp w. unfold OS.open_append. simpl.
  destruct (files w !! p); [apply R_refl | now apply R_write].
Qed.

Lemma keeps_write (p s : string) : writable p -> keeps R (OS.write p s).
Proof. intros Hp w. now apply R_write. Qed.

Lemma keeps_generate_vtt_subtitle (self : SubtitleGenerator) (text : string) (flag : bool) :
  writable (subtitle_path self +:+ ".vtt") ->
  keeps R (generate_vtt_subtitle self text flag).
Proof.
  intros Hp. unfold generate_vtt_subtitle.
  apply keeps_try_reraise.
  apply keeps_bind; [apply keeps_now | intros t].
  apply keeps_bind; [apply keeps_lift | intros end_time].
  apply keeps_bind; [apply keeps_isfile | intros file_exists].
  apply keeps_bind;
    [destruct file_exists; [apply keeps_size_is_zero | apply keeps_ret] | intros file_empty].
  apply keeps_bind; [now apply keeps_open_append | intros _].
  apply keeps_bind; [apply keeps_when; intros _; now apply keeps_write | intros _].
  apply keeps_bind; [now apply keeps_write | intros _].
  now apply keeps_write.
Qed.

Lemma keeps_get_next_cue_number (self : SubtitleGenerator) (p : string) :
  keeps R (get_next_cue_number self p).
Proof.
  unfold get_next_cue_number.
  apply keeps_bind; [apply keeps_isfile | intros there].
  destruct (negb there); [apply keeps_ret|].
  apply keeps_bind; [apply keeps_readlines | intros lines].
  destruct (length lines =? 0)%nat; [apply keeps_ret|].
  apply keeps_bind; [apply keeps_lift | intros last; apply keeps_ret].
Qed.

Lemma keeps_generate_srt_subtitle (self : SubtitleGenerator) (text : string) (flag : bool) :
  writable (subtitle_path self +:+ ".srt") ->
  keeps R (generate_srt_subtitle self text flag).
Proof.
  intros Hp. unfold generate_srt_subtitle.
  apply keeps_try_reraise.
  apply keeps_bind; [apply keeps_now | intros t].
  apply keeps_bind; [apply keeps_lift | intros end_time].
  apply keeps_bind; [apply keeps_isfile | intros file_exists].
  apply keeps_bind;
    [destruct file_exists; [apply keeps_size_is_zero | apply keeps_ret] | intros file_empty].
  apply keeps_bind; [now apply keeps_open_append | intros _].
  apply keeps_bind; [apply keeps_get_next_cue_number | intros next].
  apply keeps_bind; [now apply keeps_write | intros _].
  apply keeps_bind; [now apply keeps_write | intros _].
  now apply keeps_write.
Qed.

Lemma keeps_store_text_file (self : OutputGenerator) (file_name text : string) :
  writable (path_join (output_path self) file_name) ->
  keeps R (_store_text_file self file_name text).
Proof.
  intros Hp. unfold _store_text_file.
  apply keeps_try_reraise.
  apply keeps_bind; [now apply keeps_open_append | intros _].
  apply keeps_bind; [now apply keeps_write | intros _].
  now apply keeps_write.
Qed.

(** Requests to the translation service may be recorded when
    [may_translate] holds. *)
Variable may_translate : Prop.
Hypothesis R_calls :
  may_translate -> forall w c, R w (set_translate_calls c w).

Lemma keeps_translate_text (self : Translate) (text : string)
    (src tgt region : PyVal) (profanity brevity : bool) :
  may_translate -> keeps R (translate_text self text src tgt region profanity brevity).
Proof.
  intros Hm. unfold translate_text.
  apply keeps_try_reraise.
  apply keeps_bind; [apply keeps_lift | intros s].
  apply keeps_bind; [apply keeps_lift | intros t].
  intros w. now apply R_calls.
Qed.

Lemma keeps_handle_alternative (self : TranscriptHandler) (translate : Translate)
    (gs : SubtitleGenerator) (go : OutputGenerator)
    (store_transcript_text store_translated_text same : bool)
    (result : Result) (alt : Alternative) :
  same = true \/ may_translate ->
  writable (subtitle_path gs +:+ ".vtt") ->
  writable (subtitle_path gs +:+ ".srt") ->
  is_partial result = true \/ store_transcript_text = false
    \/ writable (path_join (output_path go) transcript_file_name) ->
  is_partial result = true \/ store_translated_text = false
    \/ writable (path_join (output_path go) translated_file_name) ->
  keeps R (handle_alternative self translate gs go store_transcript_text
             store_translated_text same result alt).
Proof.
  intros Htr Hvtt Hsrt Ht Hx. unfold handle_alternative.
  apply keeps_bind.
  { destruct same; [apply keeps_ret|].
    apply keeps_translate_text. destruct Htr; [discriminate | assumption]. }
  intros translated_text.
  apply keeps_bind; [apply keeps_lift | intros format].
  apply keeps_bind.
  { destruct (String.eqb format "vtt");
      [now apply keeps_generate_vtt_subtitle | now apply keeps_generate_srt_subtitle]. }
  intros _.
  apply keeps_when. intros Hfinal.
  apply negb_true_iff in Hfinal.
  apply keeps_bind.
  - apply keeps_when. intros Hs. unfold store_transcript.
    apply (keeps_store_text_file go transcript_file_name).
    destruct Ht as [Ht|[Ht|Ht]]; [congruence | congruence | exact Ht].
  - intros _. apply keeps_when. intros Hs. unfold store_translated_output.
    apply (keeps_store_text_file go translated_file_name).
    destruct Hx as [Hx|[Hx|Hx]]; [congruence | congruence | exact Hx].
Qed.

End Frame.

(** ** Running statements *)

Section Runs.
Import GenerateSubtitle GenerateOutput TranslateTranscript ProcessRequest.
Local Open Scope py_scope.

Lemma bindM_Return {A B} (m : M A) (k : A -> M B) (w w' : world) (b : B) :
  bindM m k w = (Return b, w') ->
  exists a w1, m w = (Return a, w1) /\ k a w1 = (Return b, w').
Proof.
  unfold bindM. destruct (m w) as [[a|e] w1]; [eauto | discriminate].
Qed.

Lemma try_reraise_Return {A} (m : M A) (h : PyExn -> PyExn) (w w' : world) (a : A) :
  try_reraise m h w = (Return a, w') -> m w = (Return a, w').
Proof.
  unfold try_reraise. destruct (m w) as [[a'|e] w1]; [auto | discriminate].
Qed.

Lemma lift_Return {A} (r : result A) (w w' : world) (a : A) :
  lift r w = (Return a, w') -> r = Return a /\ w' = w.
Proof. unfold lift. intros [= -> ->]. auto. Qed.

Lemma for_each_cons_Return {A} (x : A) (xs : list A) (body : A -> M unit)
    (w w' : world) (u : unit) :
  for_each (x :: xs) body w = (Return u, w') ->
  exists w1, body x w = (Return tt, w1) /\ for_each xs body w1 = (Return u, w').
Proof.
  simpl. intros H. apply bindM_Return in H as ([] & w1 & H1 & H2). eauto.
Qed.

Lemma appended_app (old : option string) (a b : list string) :
  appended old (a ++ b) = appended (appended old a) b.
Proof. unfold appended. apply fold_left_app. Qed.

(** [_store_text_file] appends the text and a line break, and creates the
    file when it is not there. *)
Lemma store_text_file_run (self : OutputGenerator) (file_name text : string) (w : world) :
  let p := path_join (output_path self) file_name in
  _store_text_file self file_name text w
  = (Return tt, set_files (<[p := (default EmptyString (files w !! p) +:+ text)
                                   +:+ String "010" EmptyString]> (files w)) w).
Proof.
  intros p. unfold _store_text_file, try_reraise, bindM, OS.open_append, OS.write.
  fold p. destruct (files w !! p) as [c|] eqn:E; simpl.
  - rewrite !lookup_insert_eq, E. simpl. rewrite insert_insert_eq. reflexivity.
  - rewrite !lookup_insert_eq. simpl. rewrite !insert_insert_eq. reflexivity.
Qed.

Lemma store_text_file_appends (self : OutputGenerator) (file_name text : string)
    (w : world) (q : string) :
  let p := path_join (output_path self) file_name in
  files (snd (_store_text_file self file_name text w)) !! q
  = if decide (p = q) then appended (files w !! q) [text] else files w !! q.
Proof.
  intros p. rewrite store_text_file_run. fold p. simpl.
  destruct (decide (p = q)) as [<-|Hne].
  - now rewrite lookup_insert_eq.
  - now rewrite lookup_insert_ne.
Qed.

End Runs.

(** ** The handler of transcript events *)

Section Handler.
Import GenerateSubtitle GenerateOutput TranslateTranscript ProcessRequest.
Local Open Scope py_scope.

Lemma same_inner_refl (w : world) : same_inner w w.
Proof. repeat split. Qed.

Lemma same_inner_trans (a b c : world) :
  same_inner a b -> same_inner b c -> same_inner a c.
Proof. unfold same_inner. intros (? & ? & ?) (? & ? & ?). repeat split; congruence. Qed.

Lemma same_calls_trans (a b c : world) :
  same_calls a b -> same_calls b c -> same_calls a c.
Proof. unfold same_calls. congruence. Qed.

Lemma same_file_trans (q : string) (a b c : world) :
  same_file q a b -> same_file q b c -> same_file q a c.
Proof. unfold same_file. congruence. Qed.

Lemma same_file_write (q : string) (w : world) (p c : string) :
  p <> q -> same_file q w (set_files (<[p := c]> (files w)) w).
Proof. intros Hne. unfold same_file. simpl. now rewrite lookup_insert_ne. Qed.

(** The output files are not the subtitle files. *)
Lemma output_paths_distinct :
  vtt_path <> transcript_path /\ srt_path <> transcript_path
  /\ vtt_path <> translated_path /\ srt_path <> translated_path
  /\ transcript_path <> translated_path.
Proof. repeat split; intros H; vm_compute in H; discriminate. Qed.

(** One alternative never touches the heap, the service or the clock
    readings. *)
Lemma handle_alternative_same_inner (self : TranscriptHandler)
    (st1 st2 same : bool) (result : Result) (alt : Alternative) :
  keeps same_inner
    (handle_alternative self the_translate the_subtitles the_outputs st1 st2 same result alt).
Proof.
  apply (keeps_handle_alternative same_inner same_inner_refl same_inner_trans
           (fun _ => True) ltac:(repeat split) ltac:(repeat split)
           True ltac:(repeat split)); auto.
Qed.

(** One alternative sends no request when the languages are the same. *)
Lemma handle_alternative_same_calls (self : TranscriptHandler)
    (st1 st2 : bool) (result : Result) (alt : Alternative) :
  keeps same_calls
    (handle_alternative self the_translate the_subtitles the_outputs st1 st2 true result alt).
Proof.
  apply (keeps_handle_alternative same_calls ltac:(reflexivity) same_calls_trans
           (fun _ => True) ltac:(reflexivity) ltac:(reflexivity)
           False ltac:(intros [])); auto.
Qed.

(** A partial alternative leaves the two output files alone. *)
Lemma handle_alternative_partial (self : TranscriptHandler)
    (st1 st2 same : bool) (result : Result) (alt : Alternative) (q : string) :
  is_partial result = true -> q = transcript_path \/ q = translated_path ->
  keeps (same_file q)
    (handle_alternative self the_translate the_subtitles the_outputs st1 st2 same result alt).
Proof.
  intros Hp Hq.
  pose proof output_paths_distinct as (H1 & H2 & H3 & H4 & H5).
  apply (keeps_handle_alternative (same_file q) ltac:(reflexivity) (same_file_trans q)
           (fun p => p <> q) ltac:(reflexivity) (same_file_write q)
           True ltac:(reflexivity)); auto;
    destruct Hq as [-> | ->]; assumption.
Qed.

(** A guarded write of one output file. *)
Lemma when_store_lookup (b : bool) (go : OutputGenerator) (file_name text : string)
    (w w' : world) (r : result unit) (q : string) :
  when b (_store_text_file go file_name text) w = (r, w') ->
  files w' !! q
  = if b && bool_decide (path_join (output_path go) file_name = q)
    then appended (files w !! q) [text] else files w !! q.
Proof.
  destruct b; cbn [when andb].
  - intros H. pose proof (store_text_file_appends go file_name text w q) as L.
    rewrite H in L. cbn [snd] in L. rewrite L.
    destruct (decide (path_join (output_path go) file_name = q)) as [E|E].
    + now rewrite bool_decide_eq_true_2.
    + now rewrite bool_decide_eq_false_2.
  - intros [= _ <-]. reflexivity.
Qed.

(** The translated text of an alternative. *)
Lemma translated_text_run (self : TranscriptHandler) (same : bool) (text : string)
    (w w1 : world) (translated : string) :
  (if same then ret text
   else translate_text the_translate text (h_source_language self)
          (h_target_language self) (h_region self) false false) w
  = (Return translated, w1) ->
  translated = translation_of (translate_service w) self same text
  /\ files w1 = files w /\ translate_service w1 = translate_service w.
Proof.
  unfold translation_of. destruct same.
  - intros [= <- <-]. auto.
  - unfold translate_text. intros H.
    apply try_reraise_Return in H.
    apply bindM_Return in H as (s & w2 & Hs & H).
    apply lift_Return in Hs as [Hs ->].
    apply bindM_Return in H as (t & w3 & Ht & H).
    apply lift_Return in Ht as [Ht ->].
    unfold client_translate_text in H. injection H as Hsvc <-.
    unfold code_param in Hs, Ht.
    unfold request_for.
    destruct (as_str (h_source_language self)); [|discriminate].
    destruct (as_str (h_target_language self)); [|discriminate].
    injection Hs as ->. injection Ht as ->. simpl.
    rewrite Hsvc. auto.
Qed.

(** What one alternative adds to the two output files when it is handled
    without an exception. *)
Lemma handle_alternative_outputs (self : TranscriptHandler)
    (st1 st2 same : bool) (result : Result) (alt : Alternative) (w w' : world) :
  handle_alternative self the_translate the_subtitles the_outputs st1 st2 same result alt w
  = (Return tt, w') ->
  files w' !! transcript_path
  = appended (files w !! transcript_path)
      (if negb (is_partial result) && st1 then [transcript alt] else [])
  /\ files w' !! translated_path
     = appended (files w !! translated_path)
         (if negb (is_partial result) && st2
          then [translation_of (translate_service w) self same (transcript alt)] else []).
Proof.
  intros H. unfold handle_alternative in H.
  pose proof output_paths_distinct as (D1 & D2 & D3 & D4 & D5).
  apply bindM_Return in H as (translated & w1 & Htr & H).
  apply translated_text_run in Htr as (-> & Hf1 & _).
  apply bindM_Return in H as (format & w2 & Hfmt & H).
  apply lift_Return in Hfmt as [_ ->].
  apply bindM_Return in H as ([] & w3 & Hgen & H).
  assert (Hsub : forall q, q = transcript_path \/ q = translated_path ->
                           files w3 !! q = files w !! q).
  { intros q Hq. rewrite <- Hf1.
    assert (Hk : keeps (same_file q)
              (if String.eqb format "vtt"
               then generate_vtt_subtitle the_subtitles
                      (translation_of (translate_service w) self same (transcript alt))
                      (is_partial result)
               else generate_srt_subtitle the_subtitles
                      (translation_of (translate_service w) self same (transcript alt))
                      (is_partial result))).
    { destruct (String.eqb format "vtt").
      - apply (keeps_generate_vtt_subtitle (same_file q) ltac:(reflexivity)
                 (same_file_trans q) (fun p => p <> q) ltac:(reflexivity)
                 (same_file_write q)).
        destruct Hq as [-> | ->]; assumption.
      - apply (keeps_generate_srt_subtitle (same_file q) ltac:(reflexivity)
                 (same_file_trans q) (fun p => p <> q) ltac:(reflexivity)
                 (same_file_write q)).
        destruct Hq as [-> | ->]; assumption. }
    specialize (Hk w1). rewrite Hgen in Hk. exact Hk. }
  destruct (is_partial result); cbn [negb andb when] in H |- *.
  { injection H as <-. split; apply Hsub; auto. }
  apply bindM_Return in H as ([] & w4 & Ha & Hb).
  pose proof (fun q => when_store_lookup _ _ _ _ _ _ _ q Ha) as La.
  pose proof (fun q => when_store_lookup _ _ _ _ _ _ _ q Hb) as Lb.
  change (path_join (output_path the_outputs) transcript_file_name)
    with transcript_path in La.
  change (path_join (output_path the_outputs) translated_file_name)
    with translated_path in Lb.
  split.
  - rewrite Lb, La, Hsub by auto.
    rewrite (bool_decide_eq_true_2 (transcript_path = transcript_path)) by reflexivity.
    rewrite (bool_decide_eq_false_2 (translated_path = transcript_path)) by congruence.
    destruct st1, st2; reflexivity.
  - rewrite Lb, La, Hsub by auto.
    rewrite (bool_decide_eq_true_2 (translated_path = translated_path)) by reflexivity.
    rewrite (bool_decide_eq_false_2 (transcript_path = translated_path)) by congruence.
    destruct st1, st2; reflexivity.
Qed.

Lemma handle_transcript_event_unfold (self : TranscriptHandler) (ev : TranscriptEvent) :
  handle_transcript_event self ev
  = try_reraise
      (same <- lift (same_languages (h_source_language self) (h_target_language self)) ;;
       event_loops self same (results ev))
      (fun e => new_error TranscriptionError ("transcript event error: " +:+ str e)).
Proof. reflexivity. Qed.

Lemma event_loops_keeps (R : world -> world -> Prop) (self : TranscriptHandler)
    (same : bool) (rs : list Result) :
  (forall w, R w w) -> (forall a b c, R a b -> R b c -> R a c) ->
  Forall (fun result => forall alt,
            keeps R (handle_alternative self the_translate the_subtitles the_outputs
                       (stores_transcript self) (stores_translated self) same result alt)) rs ->
  keeps R (event_loops self same rs).
Proof.
  intros Hrefl Htrans Hall. unfold event_loops.
  apply keeps_for_each_Forall; [assumption..|].
  eapply Forall_impl; [exact Hall|].
  intros result Hres. simpl. apply keeps_for_each; assumption.
Qed.

Lemma handle_transcript_event_keeps (R : world -> world -> Prop)
    (self : TranscriptHandler) (ev : TranscriptEvent) :
  (forall w, R w w) -> (forall a b c, R a b -> R b c -> R a c) ->
  (forall same, same_languages (h_source_language self) (h_target_language self)
                = Return same -> keeps R (event_loops self same (results ev))) ->
  keeps R (handle_transcript_event self ev).
Proof.
  intros Hrefl Htrans Hloops. rewrite handle_transcript_event_unfold.
  apply keeps_try_reraise; [assumption..|].
  intros w. unfold bindM, lift.
  destruct (same_languages (h_source_language self) (h_target_language self))
    as [same|e] eqn:E; simpl.
  - apply (Hloops same eq_refl).
  - apply Hrefl.
Qed.

(** The heap, and with it the Store, is out of reach of the handler. *)
Lemma handle_transcript_event_same_inner (self : TranscriptHandler) (ev : TranscriptEvent) :
  keeps same_inner (handle_transcript_event self ev).
Proof.
  apply handle_transcript_event_keeps;
    [apply same_inner_refl | apply same_inner_trans|].
  intros same _. apply event_loops_keeps;
    [apply same_inner_refl | apply same_inner_trans|].
  apply Forall_forall. intros result _ alt. apply handle_alternative_same_inner.
Qed.

Lemma handle_transcript_event_partial (self : TranscriptHandler) (ev : TranscriptEvent)
    (q : string) :
  Forall (fun result => is_partial result = true) (results ev) ->
  q = transcript_path \/ q = translated_path ->
  keeps (same_file q) (handle_transcript_event self ev).
Proof.
  intros Hall Hq.
  apply handle_transcript_event_keeps;
    [reflexivity | apply same_file_trans|].
  intros same _. apply event_loops_keeps;
    [reflexivity | apply same_file_trans|].
  eapply Forall_impl; [exact Hall|].
  intros result Hp alt. simpl in Hp. now apply handle_alternative_partial.
Qed.

Lemma handle_transcript_event_same_calls (self : TranscriptHandler) (ev : TranscriptEvent) :
  same_languages (h_source_language self) (h_target_language self) = Return true ->
  keeps same_calls (handle_transcript_event self ev).
Proof.
  intros Hsame.
  apply handle_transcript_event_keeps;
    [reflexivity | apply same_calls_trans|].
  intros same E. rewrite Hsame in E. injection E as <-.
  apply event_loops_keeps; [reflexivity | apply same_calls_trans|].
  apply Forall_forall. intros result _ alt. apply handle_alternative_same_calls.
Qed.

(** What the alternatives of one result add to the output files. *)
Lemma alternatives_outputs (self : TranscriptHandler) (same : bool) (result : Result)
    (alts : list Alternative) (w w' : world) :
  for_each alts (fun alt =>
    handle_alternative self the_translate the_subtitles the_outputs
      (stores_transcript self) (stores_translated self) same result alt) w
  = (Return tt, w') ->
  translate_service w' = translate_service w
  /\ files w' !! transcript_path
     = appended (files w !! transcript_path)
         (if negb (is_partial result) && stores_transcript self
          then map transcript alts else [])
  /\ files w' !! translated_path
     = appended (files w !! translated_path)
         (if negb (is_partial result) && stores_translated self
          then map (translation_of (translate_service w) self same) (map transcript alts)
          else []).
Proof.
  revert w. induction alts as [|alt alts IH]; intros w H.
  - simpl in H. injection H as <-.
    destruct (negb (is_partial result) && stores_transcript self),
      (negb (is_partial result) && stores_translated self); repeat split.
  - apply for_each_cons_Return in H as (w1 & H1 & H2).
    pose proof (handle_alternative_same_inner self (stores_transcript self)
                  (stores_translated self) same result alt w) as (_ & Hsvc & _).
    rewrite H1 in Hsvc. simpl in Hsvc.
    apply handle_alternative_outputs in H1 as [Ht Hx].
    apply IH in H2 as (Hsvc' & Ht' & Hx').
    split; [congruence|].
    rewrite Ht', Hx', Ht, Hx, Hsvc.
    destruct (negb (is_partial result) && stores_transcript self),
      (negb (is_partial result) && stores_translated self); split; reflexivity.
Qed.

(** What the results of an event add to the output files. *)
Lemma event_loops_outputs (self : TranscriptHandler) (same : bool) (rs : list Result)
    (w w' : world) :
  event_loops self same rs w = (Return tt, w') ->
  translate_service w' = translate_service w
  /\ files w' !! transcript_path
     = appended (files w !! transcript_path)
         (if stores_transcript self then final_texts {| results := rs |} else [])
  /\ files w' !! translated_path
     = appended (files w !! translated_path)
         (if stores_translated self
          then map (translation_of (translate_service w) self same)
                 (final_texts {| results := rs |})
          else []).
Proof.
  unfold event_loops, final_texts. simpl.
  revert w. induction rs as [|result rs IH]; intros w H.
  - simpl in H. injection H as <-.
    repeat split; now destruct stores_transcript, stores_translated.
  - apply for_each_cons_Return in H as (w1 & H1 & H2).
    apply alternatives_outputs in H1 as (Hsvc & Ht & Hx).
    apply IH in H2 as (Hsvc' & Ht' & Hx').
    split; [congruence|].
    rewrite Ht', Hx', Ht, Hx, Hsvc. simpl flat_map.
    split.
    + destruct (stores_transcript self); [|now rewrite andb_false_r].
      rewrite andb_true_r, appended_app.
      now destruct (is_partial result).
    + destruct (stores_translated self); [|now rewrite andb_false_r].
      rewrite andb_true_r, map_app, appended_app.
      now destruct (is_partial result).
Qed.

End Handler.


(** ** The WebVTT writer *)

Section Vtt.
Import GenerateSubtitle.
Local Open Scope py_scope.

Lemma append_assoc (a b c : string) : (a +:+ b) +:+ c = a +:+ (b +:+ c).
Proof.
  induction a as [|x a IH]; [reflexivity|].
  change (String x ((a +:+ b) +:+ c) = String x (a +:+ (b +:+ c))).
  now rewrite IH.
Qed.

Lemma append_empty_r (a : string) : a +:+ EmptyString = a.
Proof.
  induction a as [|x a IH]; [reflexivity|].
  change (String x (a +:+ EmptyString) = String x a).
  now rewrite IH.
Qed.

Lemma generate_vtt_subtitle_run (self : SubtitleGenerator) (text : string)
    (flag : bool) (w : world) :
  let p := subtitle_path self +:+ ".vtt" in
  let run := generate_vtt_subtitle self text flag w in
  ticks (snd run) = S (ticks w)
  /\ now_at (snd run) = now_at w
  /\ match vtt_cue_at (now_at w (ticks w)) text with
     | Some cue =>
         fst run = Return tt
         /\ files (snd run) = <[p := vtt_after (files w !! p) cue]> (files w)
     | None => returns (fst run) = false /\ files (snd run) = files w
     end.
Proof.
  intros p run. subst run.
  unfold vtt_cue_at, vtt_start.
  unfold generate_vtt_subtitle, try_reraise, bindM, OS.now, lift.
  cbn [fst snd ticks now_at set_ticks].
  change (calculate_end_time self) with (calculate_end_time the_subtitles).
  destruct (calculate_end_time the_subtitles _ text default_wpm) as [end_time|e].
  2:{ cbn. auto. }
  fold p.
  unfold OS.isfile, OS.size_is_zero, OS.open_append, OS.write, when, ret, vtt_after,
    fresh_file.
  cbn [fst snd ticks now_at files set_ticks set_files].
  destruct (files w !! p) as [c|] eqn:E.
  - rewrite bool_decide_eq_true_2 by eauto.
    cbn [fst snd ticks now_at files set_ticks set_files]. rewrite E.
    destruct (String.eqb c EmptyString) eqn:Ec;
      cbn [fst snd ticks now_at files set_ticks set_files default];
      rewrite ?lookup_insert_eq, ?E; cbn [default]; rewrite ?insert_insert_eq.
    + apply String.eqb_eq in Ec. subst c.
      repeat split; f_equal; unfold id, vtt_header;
        change (EmptyString +:+ ?x) with x; rewrite ?append_assoc; reflexivity.
    + repeat split; f_equal; unfold id; rewrite ?append_assoc; reflexivity.
  - rewrite bool_decide_eq_false_2 by (intros [? ?]; discriminate).
    cbn [fst snd ticks now_at files set_ticks set_files]. rewrite E.
    cbn [fst snd ticks now_at files set_ticks set_files default].
    rewrite ?lookup_insert_eq. cbn [default]. rewrite ?insert_insert_eq.
    repeat split; f_equal; unfold id, vtt_header;
      change (EmptyString +:+ ?x) with x; rewrite ?append_assoc; reflexivity.
Qed.

Lemma in_upto (n : nat) (z : Z) : 0 <= z < Z.of_nat n -> In z (upto n).
Proof.
  intros H. unfold upto. apply in_map_iff. exists (Z.to_nat z).
  split; [lia | apply in_seq; lia].
Qed.

Lemma field_roundtrip_hours (h : Z) : 0 <= h < 24 -> field_roundtrip 23 h = true.
Proof.
  intros H.
  assert (Hall : forallb (field_roundtrip 23) (upto 24) = true)
    by (vm_compute; reflexivity).
  exact (proj1 (forallb_forall _ _) Hall h (in_upto 24 h H)).
Qed.

Lemma field_roundtrip_minutes (m : Z) : 0 <= m < 60 -> field_roundtrip 59 m = true.
Proof.
  intros H.
  assert (Hall : forallb (field_roundtrip 59) (upto 60) = true)
    by (vm_compute; reflexivity).
  exact (proj1 (forallb_forall _ _) Hall m (in_upto 60 m H)).
Qed.

Lemma field_roundtrip_seconds (s : Z) :
  0 <= s < 60 -> field_roundtrip 61 s = true.
Proof.
  intros H.
  assert (Hall : forallb (field_roundtrip 61) (upto 60) = true)
    by (vm_compute; reflexivity).
  exact (proj1 (forallb_forall _ _) Hall s (in_upto 60 s H)).
Qed.

Lemma field_roundtrip_parse (maxval v : Z) :
  field_roundtrip maxval v = true ->
  all_chars is_decimal (zfill 2 (str_of_int v)) = true
  /\ Datetime.parse_field 2 maxval (zfill 2 (str_of_int v)) = Some v.
Proof.
  unfold field_roundtrip. intros H. apply andb_prop in H as [Ha Hp].
  split; [exact Ha|].
  destruct (Datetime.parse_field 2 maxval _) as [v'|]; [|discriminate].
  apply Z.eqb_eq in Hp. now subst.
Qed.

(** A run of decimal digits followed by a separator splits at it. *)
Lemma split_once_after_digits (c : ascii) (a b : string) :
  is_decimal c = false -> all_chars is_decimal a = true ->
  Datetime.split_once c (a +:+ String c b) = Some (a, b).
Proof.
  intros Hc. induction a as [|x a IH]; intros Ha.
  - change (EmptyString +:+ String c b) with (String c b). simpl.
    now rewrite Ascii.eqb_refl.
  - change (String x a +:+ String c b) with (String x (a +:+ String c b)).
    simpl in Ha. apply andb_prop in Ha as [Hx Ha]. simpl.
    destruct (Ascii.eqb x c) eqn:E.
    + apply Ascii.eqb_eq in E. congruence.
    + now rewrite IH.
Qed.

Lemma of_total_us_ranges (t : Z) :
  0 <= Datetime.hour (Datetime.of_total_us t) < 24
  /\ 0 <= Datetime.minute (Datetime.of_total_us t) < 60
  /\ 0 <= Datetime.second (Datetime.of_total_us t) < 60.
Proof.
  unfold Datetime.of_total_us, Datetime.us_per_day, Datetime.us_per_second. simpl.
  pose proof (Z.mod_pos_bound t (86400 * 1000000) ltac:(lia)) as Hr.
  split; [|split; apply Z.mod_pos_bound; lia].
  split; [apply Z.div_pos; lia | apply Z.div_lt_upper_bound; lia].
Qed.

(** [strptime] reads back the hours, minutes and seconds that [strftime]
    wrote, and the fraction that follows them. *)
Lemma strptime_of_strftime (d : Datetime.datetime) (fraction : string) (us : Z) :
  0 <= Datetime.hour d < 24 -> 0 <= Datetime.minute d < 60 ->
  0 <= Datetime.second d < 60 ->
  Datetime.parse_fraction fraction = Some us ->
  Datetime.strptime_HMSf (Datetime.strftime_HMS d +:+ "." +:+ fraction)
  = Return {| Datetime.ordinal := Datetime.ordinal_1900_01_01;
              Datetime.hour := Datetime.hour d; Datetime.minute := Datetime.minute d;
              Datetime.second := Datetime.second d; Datetime.microsecond := us |}.
Proof.
  intros Hh Hm Hs Hf.
  destruct (field_roundtrip_parse _ _ (field_roundtrip_hours _ Hh)) as [Dh Ph].
  destruct (field_roundtrip_parse _ _ (field_roundtrip_minutes _ Hm)) as [Dm Pm].
  destruct (field_roundtrip_parse _ _ (field_roundtrip_seconds _ Hs)) as [Ds Ps].
  unfold Datetime.strftime_HMS.
  set (fh := zfill 2 (str_of_int (Datetime.hour d))) in *.
  set (fm := zfill 2 (str_of_int (Datetime.minute d))) in *.
  set (fs := zfill 2 (str_of_int (Datetime.second d))) in *.
  rewrite !append_assoc.
  change (":" +:+ ?x) with (String ":" x).
  unfold Datetime.strptime_HMSf.
  rewrite (split_once_after_digits ":" fh _ eq_refl Dh). cbv beta iota.
  change (":" +:+ ?x) with (String ":" x).
  rewrite (split_once_after_digits ":" fm _ eq_refl Dm). cbv beta iota.
  change ("." +:+ fraction) with (String "." fraction).
  rewrite (split_once_after_digits "." fs _ eq_refl Ds). cbv beta iota.
  rewrite Ph, Pm, Ps, Hf.
  destruct (Z.ltb_spec 59 (Datetime.second d)); [lia | reflexivity].
Qed.

(** The start time a call builds from the clock is read back by
    [calculate_end_time]. *)
Lemma vtt_start_parses (reading : Z) :
  exists start_dt,
    Datetime.strptime_HMSf (vtt_start reading) = Return start_dt
    /\ Datetime.ordinal start_dt = Datetime.ordinal_1900_01_01
    /\ 0 <= Datetime.us_of_day start_dt < Datetime.us_per_day.
Proof.
  pose proof (of_total_us_ranges reading) as (Hh & Hm & Hs).
  unfold vtt_start.
  change (Datetime.strftime_HMS ?d +:+ ".000")
    with (Datetime.strftime_HMS d +:+ "." +:+ "000").
  rewrite (strptime_of_strftime _ "000" 0 Hh Hm Hs eq_refl).
  generalize dependent (Datetime.of_total_us reading). intros d Hh Hm Hs.
  eexists. split; [reflexivity|]. split; [reflexivity|].
  unfold Datetime.us_of_day, Datetime.us_per_day, Datetime.us_per_second.
  cbn [Datetime.hour Datetime.minute Datetime.second Datetime.microsecond]. lia.
Qed.

(** A call with a reasonable text writes its cue. *)
Lemma vtt_cue_at_reasonable (reading : Z) (text : string) :
  reasonable_text text -> is_Some (vtt_cue_at reading text).
Proof.
  intros Hr. destruct (vtt_start_parses reading) as (start_dt & Hp & Hord & Hu).
  unfold vtt_cue_at. change default_wpm with 150.
  rewrite (calculate_end_time_150 the_subtitles _ text start_dt Hp); [eauto|].
  unfold reasonable_text in Hr.
  assert (Datetime.total_us start_dt + estimated_duration_us text
          < Datetime.us_per_day * (Datetime.MAXORDINAL + 1)).
  { unfold Datetime.total_us. rewrite Hord.
    unfold Datetime.ordinal_1900_01_01, Datetime.MAXORDINAL, Datetime.us_per_day,
      Datetime.us_per_second in *. lia. }
  assert ((Datetime.total_us start_dt + estimated_duration_us text) / Datetime.us_per_day
          < Datetime.MAXORDINAL + 1)
    by (apply Z.div_lt_upper_bound; [apply day_positive | assumption]).
  lia.
Qed.

Lemma vtt_after_not_fresh (old : option string) (cue : string) :
  fresh_file (Some (vtt_after old cue)) = false.
Proof.
  unfold vtt_after, fresh_file.
  destruct old as [[|a c]|]; reflexivity.
Qed.

Lemma vtt_after_after (old : option string) (cue rest : string) :
  vtt_after (Some (vtt_after old cue)) rest = vtt_after old (cue +:+ rest).
Proof.
  unfold vtt_after at 1. rewrite vtt_after_not_fresh. simpl.
  unfold vtt_after. now rewrite append_assoc.
Qed.

(** The target after a sequence of calls on the same path. *)
Lemma run_vtt_calls_content (path : string) (calls : list VttCall) :
  Forall (fun c => subtitle_path (call_generator c) = path) calls ->
  forall w,
    let p := path +:+ ".vtt" in
    files (run_vtt_calls calls w) !! p
    = match vtt_cues (now_at w) (ticks w) calls with
      | [] => files w !! p
      | cues => Some (vtt_after (files w !! p) (join_all cues))
      end
    /\ forall q, q <> p -> files (run_vtt_calls calls w) !! q = files w !! q.
Proof.
  induction 1 as [|c calls Hc _ IH]; intros w p; [split; reflexivity|].
  simpl run_vtt_calls. simpl vtt_cues.
  pose proof (generate_vtt_subtitle_run (call_generator c) (call_text c)
                (call_partial c) w) as (Ht & Hn & Hrun).
  rewrite Hc in Hrun. fold p in Hrun.
  destruct (IH (snd (generate_vtt_subtitle (call_generator c) (call_text c)
                       (call_partial c) w))) as [IHp IHq].
  fold p in IHp, IHq. rewrite Ht, Hn in IHp.
  destruct (vtt_cue_at (now_at w (ticks w)) (call_text c)) as [cue|].
  - destruct Hrun as [_ Hf]. rewrite Hf in IHp, IHq.
    rewrite lookup_insert_eq in IHp.
    split.
    + rewrite IHp.
      destruct (vtt_cues (now_at w) (S (ticks w)) calls) as [|c2 cs].
      * simpl. now rewrite append_empty_r.
      * now rewrite vtt_after_after.
    + intros q Hq. rewrite IHq by exact Hq. now rewrite lookup_insert_ne.
  - destruct Hrun as [_ Hf]. rewrite Hf in IHp, IHq. now split.
Qed.

Lemma vtt_cues_all (clock : nat -> Z) (calls : list VttCall) :
  Forall (fun c => reasonable_text (call_text c)) calls ->
  forall n, length (vtt_cues clock n calls) = length calls.
Proof.
  induction 1 as [|c calls Hc _ IH]; intros n; [reflexivity|].
  simpl. destruct (vtt_cue_at_reasonable (clock n) _ Hc) as [cue ->].
  simpl. now rewrite IH.
Qed.

End Vtt.

(** C7: for every sequence of calls of [generate_vtt_subtitle] on the same
    path, by any number of generator objects, the target holds the header
    [WEBVTT] once, at its start before the first cue, followed by the cues in
    call order and nothing else, when it did not exist or was empty before
    the first call; when it already had content, the cues are appended to
    that content and no header is written.  A call whose end time cannot be
    computed raises before the file is opened and writes nothing; a call with
    a text of reasonable length always writes its cue.  No other file
    changes. *)
Theorem vtt_header_written_once (path : string) (calls : list VttCall) (w : world) :
  Forall (fun c => GenerateSubtitle.subtitle_path (call_generator c) = path) calls ->
  let p := path +:+ ".vtt" in
  let w' := run_vtt_calls calls w in
  let cues := vtt_cues (now_at w) (ticks w) calls in
  (fresh_file (files w !! p) = true ->
   files w' !! p = match cues with
                   | [] => files w !! p
                   | _ :: _ => Some (vtt_header +:+ join_all cues)
                   end)
  /\ (forall c, files w !! p = Some c -> c <> EmptyString ->
                files w' !! p = Some (c +:+ join_all cues))
  /\ (forall q, q <> p -> files w' !! q = files w !! q)
  /\ (Forall (fun c => reasonable_text (call_text c)) calls ->
      length cues = length calls).
Proof.
  intros Hpath p w' cues.
  destruct (run_vtt_calls_content path calls Hpath w) as [Hp Hq].
  fold p w' cues in Hp, Hq.
  split; [|split; [|split]].
  - intros Hfresh. rewrite Hp. destruct cues; [reflexivity|].
    unfold vtt_after. now rewrite Hfresh.
  - intros c Hc Hne. rewrite Hp, Hc. destruct cues as [|c1 cs].
    + simpl. now rewrite append_empty_r.
    + unfold vtt_after, fresh_file.
      destruct (String.eqb c EmptyString) eqn:E; [|reflexivity].
      apply String.eqb_eq in E. contradiction.
  - exact Hq.
  - intros Hr. apply vtt_cues_all. exact Hr.
Qed.

Lemma vtt_header_written_once_witness :
  let calls :=
    [ {| call_generator := GenerateSubtitle.new_SubtitleGenerator "sub";
         call_text := "Hello world."; call_partial := true |};
      {| call_generator := GenerateSubtitle.new_SubtitleGenerator "sub";
         call_text := "Bye"; call_partial := false |} ] in
  files (run_vtt_calls calls example_world) !! "sub.vtt"
  = Some ("WEBVTT" +:+ GenerateSubtitle.newline +:+ GenerateSubtitle.newline
          +:+ "23:59:50.000 --> 23:59:58.000Z" +:+ GenerateSubtitle.newline
          +:+ "Hello world." +:+ GenerateSubtitle.newline
          +:+ "23:59:55.000 --> 23:59:58.400Z" +:+ GenerateSubtitle.newline
          +:+ "Bye" +:+ GenerateSubtitle.newline).
Proof.
  cbv zeta.
  destruct (vtt_header_written_once "sub"
    [ {| call_generator := GenerateSubtitle.new_SubtitleGenerator "sub";
         call_text := "Hello world."; call_partial := true |};
      {| call_generator := GenerateSubtitle.new_SubtitleGenerator "sub";
         call_text := "Bye"; call_partial := false |} ]
    example_world
    ltac:(repeat constructor)) as (Hfresh & _).
  cbv zeta in Hfresh.
  change ("sub" +:+ ".vtt") with "sub.vtt" in Hfresh.
  rewrite (Hfresh eq_refl). vm_compute. reflexivity.
Defined.

(** ** When the handler returns *)

Section Returns.
Import GenerateSubtitle GenerateOutput TranslateTranscript ProcessRequest.
Local Open Scope py_scope.

Lemma bindM_run {A B} (m : M A) (k : A -> M B) (w w1 : world) (a : A) :
  m w = (Return a, w1) -> bindM m k w = k a w1.
Proof. intros H. unfold bindM. now rewrite H. Qed.

Lemma for_each_cons_run {A} (x : A) (xs : list A) (body : A -> M unit) (w w1 : world) :
  body x w = (Return tt, w1) -> for_each (x :: xs) body w = for_each xs body w1.
Proof.
  intros H. exact (bindM_run (body x) (fun _ => for_each xs body) w w1 tt H).
Qed.

Lemma translated_text_returns (self : TranscriptHandler) (same : bool) (text : string)
    (w : world) :
  is_Some (as_str (h_source_language self)) ->
  is_Some (as_str (h_target_language self)) ->
  same = true \/ returns (translate_service w (request_for self text)) = true ->
  exists w1,
    (if same then ret text
     else translate_text the_translate text (h_source_language self)
            (h_target_language self) (h_region self) false false) w
    = (Return (translation_of (translate_service w) self same text), w1)
    /\ same_inner w w1.
Proof.
  intros [s Hs] [t Ht] Hsame. unfold translation_of.
  destruct same.
  - exists w. split; [reflexivity | apply same_inner_refl].
  - destruct Hsame as [|Hsvc]; [discriminate|].
    unfold translate_text, try_reraise, bindM, lift, code_param, client_translate_text.
    unfold request_for in *. rewrite Hs, Ht in *. simpl in *.
    destruct (translate_service w _) as [x|e]; [|discriminate].
    eexists. split; [reflexivity | repeat split].
Qed.

Lemma generate_vtt_subtitle_returns (self : SubtitleGenerator) (text : string)
    (flag : bool) (w : world) :
  reasonable_text text ->
  exists w1, generate_vtt_subtitle self text flag w = (Return tt, w1).
Proof.
  intros Hr.
  pose proof (generate_vtt_subtitle_run self text flag w) as (_ & _ & Hrun).
  destruct (vtt_cue_at_reasonable (now_at w (ticks w)) text Hr) as [cue Hcue].
  rewrite Hcue in Hrun. destruct Hrun as [Hret _].
  destruct (generate_vtt_subtitle self text flag w) as [r w1]. simpl in Hret.
  subst r. eauto.
Qed.

Lemma when_store_returns (b : bool) (go : OutputGenerator) (file_name text : string)
    (w : world) :
  exists w1, when b (_store_text_file go file_name text) w = (Return tt, w1).
Proof.
  destruct b; cbn [when].
  - rewrite store_text_file_run. eauto.
  - unfold ret. eauto.
Qed.

Lemma handle_alternative_returns (self : TranscriptHandler) (same : bool)
    (result : Result) (alt : Alternative) (w : world) :
  vtt_configured self = true ->
  is_Some (as_str (h_source_language self)) ->
  is_Some (as_str (h_target_language self)) ->
  text_can_be_handled (translate_service w) self same (transcript alt) ->
  exists w1,
    handle_alternative self the_translate the_subtitles the_outputs
      (stores_transcript self) (stores_translated self) same result alt w
    = (Return tt, w1)
    /\ same_inner w w1.
Proof.
  intros Hvtt Hs Ht [Hsvc Hr].
  pose proof (handle_alternative_same_inner self (stores_transcript self)
                (stores_translated self) same result alt w) as Hinner.
  destruct (translated_text_returns self same (transcript alt) w Hs Ht Hsvc)
    as (w1 & Htr & _).
  unfold handle_alternative in *.
  rewrite (bindM_run _ _ _ _ _ Htr) in *.
  unfold vtt_configured in Hvtt.
  destruct (py_lower (h_subtitle_format self)) as [format|e] eqn:Hf; [|discriminate].
  assert (Hl : lift (Return format) w1 = (Return format, w1)) by reflexivity.
  rewrite (bindM_run _ _ _ _ _ Hl) in *. rewrite Hvtt in *.
  destruct (generate_vtt_subtitle_returns the_subtitles _ (is_partial result) w1 Hr)
    as (w2 & Hgen).
  rewrite (bindM_run _ _ _ _ _ Hgen) in *.
  destruct (is_partial result); cbn [negb when] in *.
  - exists w2. split; [reflexivity | exact Hinner].
  - destruct (when_store_returns (stores_transcript self) the_outputs
                transcript_file_name (transcript alt) w2) as (w3 & H3).
    destruct (when_store_returns (stores_translated self) the_outputs
                translated_file_name
                (translation_of (translate_service w) self same (transcript alt)) w3)
      as (w4 & H4).
    unfold store_transcript, store_translated_output in *.
    rewrite (bindM_run _ _ _ _ _ H3) in *. rewrite H4 in *.
    exists w4. split; [reflexivity | exact Hinner].
Qed.

Lemma alternatives_return (self : TranscriptHandler) (same : bool) (res : Result)
    (service : TranslateRequest -> result string) (alts : list Alternative) :
  vtt_configured self = true ->
  is_Some (as_str (h_source_language self)) ->
  is_Some (as_str (h_target_language self)) ->
  Forall (text_can_be_handled service self same) (map transcript alts) ->
  forall w, translate_service w = service ->
  exists w1,
    for_each alts (fun alt =>
      handle_alternative self the_translate the_subtitles the_outputs
        (stores_transcript self) (stores_translated self) same res alt) w
    = (Return tt, w1)
    /\ translate_service w1 = service.
Proof.
  intros Hvtt Hs Ht. induction alts as [|alt alts IH]; intros Hall w Hw.
  - exists w. split; [reflexivity | exact Hw].
  - simpl in Hall. apply Forall_cons in Hall as [Ha Hall].
    rewrite <- Hw in Ha.
    destruct (handle_alternative_returns self same res alt w Hvtt Hs Ht Ha)
      as (w1 & H1 & (_ & Hsvc & _)).
    rewrite (for_each_cons_run _ _ _ _ _ H1).
    apply (IH Hall). congruence.
Qed.

Lemma event_loops_cons (self : TranscriptHandler) (same : bool) (res : Result)
    (rs : list Result) :
  event_loops self same (res :: rs)
  = (for_each (alternatives res) (fun alt =>
       handle_alternative self the_translate the_subtitles the_outputs
         (stores_transcript self) (stores_translated self) same res alt) ;;
     event_loops self same rs).
Proof. reflexivity. Qed.

Lemma event_loops_return (self : TranscriptHandler) (same : bool)
    (service : TranslateRequest -> result string) (rs : list Result) :
  vtt_configured self = true ->
  is_Some (as_str (h_source_language self)) ->
  is_Some (as_str (h_target_language self)) ->
  Forall (text_can_be_handled service self same) (all_texts {| results := rs |}) ->
  forall w, translate_service w = service ->
  exists w1, event_loops self same rs w = (Return tt, w1)
             /\ translate_service w1 = service.
Proof.
  intros Hvtt Hs Ht. unfold all_texts. simpl.
  induction rs as [|res rs IH]; intros Hall w Hw.
  - exists w. split; [reflexivity | exact Hw].
  - simpl in Hall. apply Forall_app in Hall as [Ha Hall].
    destruct (alternatives_return self same res service (alternatives res)
                Hvtt Hs Ht Ha w Hw) as (w1 & H1 & Hw1).
    rewrite event_loops_cons, (bindM_run _ _ _ _ _ H1).
    apply (IH Hall w1 Hw1).
Qed.

(** An event is handled without an exception when the handler writes WebVTT
    cues, its languages are strings, and every text of the event can be
    translated and timed. *)
Lemma handle_transcript_event_returns (self : TranscriptHandler) (ev : TranscriptEvent)
    (w : world) :
  vtt_configured self = true ->
  is_Some (as_str (h_source_language self)) ->
  is_Some (as_str (h_target_language self)) ->
  Forall (text_can_be_handled (translate_service w) self (languages_same self))
    (all_texts ev) ->
  fst (handle_transcript_event self ev w) = Return tt.
Proof.
  intros Hvtt Hs Ht Hall.
  rewrite handle_transcript_event_unfold.
  unfold languages_same in Hall.
  assert (Hsame : exists same,
             same_languages (h_source_language self) (h_target_language self)
             = Return same).
  { unfold same_languages, py_lower.
    destruct Hs as [s ->], Ht as [t ->]. simpl. eauto. }
  destruct Hsame as [same Hsame]. rewrite Hsame in Hall.
  destruct ev as [rs].
  destruct (event_loops_return self same (translate_service w) rs Hvtt Hs Ht Hall w
              eq_refl) as (w1 & Hrun & _).
  unfold try_reraise, bindM, lift. rewrite Hsame. simpl results.
  now rewrite Hrun.
Qed.

End Returns.

(** ** What an event adds to the Store and to the output files *)

(** C1 at a failing input: [handle_transcript_event] never appends to the
    Store ([TranscriptDataHandler]).  For every handler, event and world,
    whether the event is handled or raises, the heap and with it both logs
    of the Store are as before.  So a final result handled with the output
    format [both_text] leaves both logs of a newly built Store empty; its
    texts went to the two output text files, and [process_request], which
    returns a copy of the transcript log, returns an empty list for that
    session. *)
Theorem final_event_never_reaches_store :
  (forall (self : ProcessRequest.TranscriptHandler) (ev : ProcessRequest.TranscriptEvent)
          (w : world),
      let run := ProcessRequest.handle_transcript_event self ev w in
      heap (snd run) = heap w
      /\ store_snapshot (ProcessRequest.data_handler self) (snd run)
         = store_snapshot (ProcessRequest.data_handler self) w)
  /\ (let self := example_handler "en-US" "es" "srt" "both_text" in
      let run := ProcessRequest.handle_transcript_event self (one_result "Hi there" false)
                   example_world_with_store in
      fst run = Return tt
      /\ store_allocated (ProcessRequest.data_handler self) example_world_with_store
      /\ store_snapshot (ProcessRequest.data_handler self) (snd run) = ([], [])
      /\ files (snd run) !! transcript_path
         = Some ("Hi there" +:+ GenerateSubtitle.newline)
      /\ files (snd run) !! translated_path
         = Some ("<Hi there>" +:+ GenerateSubtitle.newline))
  /\ (let run := ProcessRequest.process_request english_to_spanish one_event_session
                   example_world in
      exists transcript_data,
        fst run = Return (Some transcript_data)
        /\ ProcessRequest.list_content transcript_data (snd run) = []
        /\ files (snd run) !! transcript_path = Some ("Hi" +:+ GenerateSubtitle.newline)).
Proof.
  split; [|split].
  - intros self ev w run.
    pose proof (handle_transcript_event_same_inner self ev w) as (Hheap & _ & _).
    fold run in Hheap. split; [exact Hheap|].
    unfold store_snapshot, ProcessRequest.list_content. now rewrite Hheap.
  - cbv zeta. split; [vm_compute; reflexivity|].
    split.
    { repeat split; [eexists; vm_compute; reflexivity
                    |eexists; vm_compute; reflexivity | discriminate]. }
    repeat split; vm_compute; reflexivity.
  - cbv zeta. exists 2%nat. repeat split; vm_compute; reflexivity.
Qed.

(** What the output format governs are the two output text files.  An
    event whose results are all partial leaves them as they were, and when
    the event is handled without an exception the transcript file gains one
    line per alternative of each final result, in order, if the format is
    [transcript_text] or [both_text], and the translated file gains the
    translated text of each of them if the format is [translated_text] or
    [both_text]; partial results add nothing.  The event is handled without
    an exception whenever the handler writes WebVTT cues, its two languages
    are strings, and every text of the event can be translated (same
    languages, or the service answers) and is of reasonable length. *)
Theorem final_results_reach_output_files
    (self : ProcessRequest.TranscriptHandler) (ev : ProcessRequest.TranscriptEvent)
    (w : world) :
  let run := ProcessRequest.handle_transcript_event self ev w in
  heap (snd run) = heap w
  /\ store_snapshot (ProcessRequest.data_handler self) (snd run)
     = store_snapshot (ProcessRequest.data_handler self) w
  /\ (Forall (fun result => ProcessRequest.is_partial result = true)
        (ProcessRequest.results ev) ->
      files (snd run) !! transcript_path = files w !! transcript_path
      /\ files (snd run) !! translated_path = files w !! translated_path)
  /\ (fst run = Return tt ->
      files (snd run) !! transcript_path
      = appended (files w !! transcript_path)
          (if stores_transcript self then final_texts ev else [])
      /\ files (snd run) !! translated_path
         = appended (files w !! translated_path)
             (if stores_translated self
              then map (translation_of (translate_service w) self (languages_same self))
                     (final_texts ev)
              else []))
  /\ (vtt_configured self = true ->
      is_Some (as_str (ProcessRequest.h_source_language self)) ->
      is_Some (as_str (ProcessRequest.h_target_language self)) ->
      Forall (text_can_be_handled (translate_service w) self (languages_same self))
        (all_texts ev) ->
      fst run = Return tt).
Proof.
  intros run.
  pose proof (handle_transcript_event_same_inner self ev w) as (Hheap & _ & _).
  fold run in Hheap.
  split; [exact Hheap|].
  split.
  { unfold store_snapshot, ProcessRequest.list_content. now rewrite Hheap. }
  split.
  { intros Hall. split.
    - apply (handle_transcript_event_partial self ev transcript_path Hall); auto.
    - apply (handle_transcript_event_partial self ev translated_path Hall); auto. }
  split; [|apply handle_transcript_event_returns].
  intros Hret.
  assert (Hrun : ProcessRequest.handle_transcript_event self ev w = (Return tt, snd run))
    by (subst run; destruct (ProcessRequest.handle_transcript_event self ev w);
        simpl in *; congruence).
  rewrite handle_transcript_event_unfold in Hrun.
  apply try_reraise_Return in Hrun.
  apply bindM_Return in Hrun as (same & w1 & Hs & Hloops).
  apply lift_Return in Hs as [Hs ->].
  apply event_loops_outputs in Hloops as (_ & Ht & Hx).
  unfold languages_same. rewrite Hs.
  destruct ev as [rs]. auto.
Qed.

Lemma final_results_reach_output_files_witness :
  let self := example_handler "en-US" "es" "vtt" "transcript_text" in
  let ev := one_result "Hi there" false in
  let run := ProcessRequest.handle_transcript_event self ev example_world_with_store in
  fst run = Return tt
  /\ files (snd run) !! transcript_path = Some ("Hi there" +:+ GenerateSubtitle.newline)
  /\ files (snd run) !! translated_path = None.
Proof.
  cbv zeta.
  destruct (final_results_reach_output_files
              (example_handler "en-US" "es" "vtt" "transcript_text")
              (one_result "Hi there" false) example_world_with_store)
    as (_ & _ & _ & Hout & Hreturns).
  assert (Hret : fst (ProcessRequest.handle_transcript_event
                        (example_handler "en-US" "es" "vtt" "transcript_text")
                        (one_result "Hi there" false) example_world_with_store)
                 = Return tt).
  { apply Hreturns; [reflexivity | eexists; reflexivity | eexists; reflexivity|].
    apply List.Forall_cons; [|apply List.Forall_nil].
    split; [right; reflexivity | vm_compute; discriminate]. }
  split; [exact Hret|].
  destruct (Hout Hret) as [Ht Hx].
  split; [rewrite Ht | rewrite Hx]; vm_compute; reflexivity.
Defined.

(** ** Same source and target language *)

Lemma same_languages_refl (s : string) :
  ProcessRequest.same_languages (PStr s) (PStr s) = Return true.
Proof.
  unfold ProcessRequest.same_languages. simpl. now rewrite String.eqb_refl.
Qed.

(** C5: when the handler takes its source and target language for the same
    one (equal once lowered, or source [en-US] with target [en]),
    [handle_transcript_event] is the two loops in which every cue and every
    line of the translated output file is made from the transcript text
    itself, and no request reaches the translation service: the list of
    requests sent is the same after the event as before, handled or not. *)
Theorem same_language_skips_translation
    (self : ProcessRequest.TranscriptHandler) (ev : ProcessRequest.TranscriptEvent)
    (w : world) :
  ProcessRequest.same_languages (ProcessRequest.h_source_language self)
    (ProcessRequest.h_target_language self) = Return true ->
  let run := ProcessRequest.handle_transcript_event self ev w in
  translate_calls (snd run) = translate_calls w
  /\ ProcessRequest.handle_transcript_event self ev
     = try_reraise
         (for_each (ProcessRequest.results ev) (fun result =>
            for_each (ProcessRequest.alternatives result) (fun alt =>
              (format <- lift (py_lower (ProcessRequest.h_subtitle_format self)) ;;
               (if String.eqb format "vtt"
                then GenerateSubtitle.generate_vtt_subtitle the_subtitles
                       (ProcessRequest.transcript alt) (ProcessRequest.is_partial result)
                else GenerateSubtitle.generate_srt_subtitle the_subtitles
                       (ProcessRequest.transcript alt) (ProcessRequest.is_partial result)) ;;
               when (negb (ProcessRequest.is_partial result))
                 (when (stores_transcript self)
                    (GenerateOutput.store_transcript the_outputs
                       (ProcessRequest.transcript alt)) ;;
                  when (stores_translated self)
                    (GenerateOutput.store_translated_output the_outputs
                       (ProcessRequest.transcript alt))))%py)))
         (fun e => new_error TranscriptionError ("transcript event error: " +:+ str e))
  /\ (fst run = Return tt ->
      files (snd run) !! translated_path
      = appended (files w !! translated_path)
          (if stores_translated self then final_texts ev else []))
  /\ (forall s, ProcessRequest.same_languages (PStr s) (PStr s) = Return true)
  /\ ProcessRequest.same_languages (PStr "en-US") (PStr "en") = Return true.
Proof.
  intros Hsame run.
  split; [apply (handle_transcript_event_same_calls self ev Hsame w)|].
  split.
  { rewrite handle_transcript_event_unfold, Hsame. reflexivity. }
  split; [|split; [apply same_languages_refl | reflexivity]].
  intros Hret.
  assert (Hrun : ProcessRequest.handle_transcript_event self ev w = (Return tt, snd run))
    by (subst run; destruct (ProcessRequest.handle_transcript_event self ev w);
        simpl in *; congruence).
  rewrite handle_transcript_event_unfold, Hsame in Hrun.
  apply try_reraise_Return in Hrun.
  apply bindM_Return in Hrun as (same & w1 & Hs & Hloops).
  apply lift_Return in Hs as [[= <-] ->].
  apply event_loops_outputs in Hloops as (_ & _ & Hx).
  rewrite Hx. destruct ev as [rs]. simpl.
  destruct (stores_translated self); [|reflexivity].
  f_equal. unfold translation_of. apply map_id.
Qed.

Lemma same_language_skips_translation_witness :
  let self := example_handler "en-US" "en" "vtt" "both_text" in
  let run := ProcessRequest.handle_transcript_event self (one_result "Hello" false)
               example_world_with_store in
  fst run = Return tt
  /\ translate_calls (snd run) = []
  /\ files (snd run) !! translated_path = Some ("Hello" +:+ GenerateSubtitle.newline).
Proof.
  cbv zeta.
  assert (Hret : fst (ProcessRequest.handle_transcript_event
                        (example_handler "en-US" "en" "vtt" "both_text")
                        (one_result "Hello" false) example_world_with_store)
                 = Return tt) by (vm_compute; reflexivity).
  split; [exact Hret|].
  destruct (same_language_skips_translation
              (example_handler "en-US" "en" "vtt" "both_text")
              (one_result "Hello" false) example_world_with_store eq_refl)
    as (Hcalls & _ & Hout & _).
  split; [rewrite Hcalls; reflexivity|].
  rewrite (Hout Hret). vm_compute. reflexivity.
Defined.

(** ** The SubRip writer on texts that are not numbers *)

Section SrtPlain.
Import GenerateSubtitle.
Local Open Scope py_scope.

Lemma get_next_cue_number_run (self : SubtitleGenerator) (p : string) (w : world) :
  get_next_cue_number self p w
  = (next_cue_of (files w !! p), w).
Proof.
  unfold get_next_cue_number, next_cue_of, bindM, OS.isfile, OS.readlines, lift, ret.
  cbv beta.
  destruct (files w !! p) as [c|] eqn:E.
  - rewrite bool_decide_eq_true_2 by eauto. cbn [negb default]. cbv beta. rewrite E.
    cbn [default]. unfold id.
    destruct (length (OS.lines_of EmptyString c) =? 0)%nat; [reflexivity|].
    destruct (last_cue_number _) as [last|e]; reflexivity.
  - rewrite bool_decide_eq_false_2 by (intros [? ?]; discriminate). reflexivity.
Qed.

Lemma generate_srt_subtitle_run (self : SubtitleGenerator) (text : string)
    (flag : bool) (w : world) :
  let p := subtitle_path self +:+ ".srt" in
  let run := generate_srt_subtitle self text flag w in
  ticks (snd run) = S (ticks w)
  /\ now_at (snd run) = now_at w
  /\ match srt_body_at (now_at w (ticks w)) text with
     | Some body =>
         match cue_index (files w !! p) with
         | Return cue =>
             fst run = Return tt
             /\ files (snd run)
                = <[p := default EmptyString (files w !! p)
                         +:+ ((str_of_int cue +:+ newline) +:+ body)]> (files w)
         | Raise _ => returns (fst run) = false
         end
     | None => returns (fst run) = false /\ files (snd run) = files w
     end.
Proof.
  intros p run. subst run.
  unfold srt_body_at, srt_start, cue_index.
  unfold generate_srt_subtitle, try_reraise, bindM, OS.now, lift.
  cbn [fst snd ticks now_at set_ticks].
  change (calculate_end_time self) with (calculate_end_time the_subtitles).
  change default_wpm with 150.
  destruct (calculate_end_time the_subtitles _ text 150) as [end_time|e].
  2:{ cbn. auto. }
  fold p.
  unfold OS.isfile, OS.size_is_zero, OS.open_append, OS.write, ret, fresh_file.
  cbn [fst snd ticks now_at files set_ticks set_files].
  destruct (files w !! p) as [c|] eqn:E.
  - rewrite bool_decide_eq_true_2 by eauto.
    cbn [fst snd ticks now_at files set_ticks set_files]. rewrite E.
    rewrite get_next_cue_number_run.
    cbn [fst snd ticks now_at files set_ticks set_files default]. rewrite E.
    cbn [default]. unfold id.
    destruct (next_cue_of (Some c)) as [next|e]; cbn [bind]; [|cbn; auto].
    cbn [fst snd ticks now_at files set_ticks set_files default].
    rewrite ?lookup_insert_eq, ?E; cbn [default]; rewrite ?insert_insert_eq.
    repeat split; f_equal; unfold id; rewrite ?append_assoc; reflexivity.
  - rewrite bool_decide_eq_false_2 by (intros [? ?]; discriminate).
    cbn [fst snd ticks now_at files set_ticks set_files]. rewrite E.
    rewrite get_next_cue_number_run.
    cbn [fst snd ticks now_at files set_ticks set_files default].
    rewrite lookup_insert_eq. cbn [default]. unfold id.
    destruct (next_cue_of (Some EmptyString)) as [next|e]; cbn [bind]; [|cbn; auto].
    cbn [fst snd ticks now_at files set_ticks set_files default].
    rewrite ?lookup_insert_eq; cbn [default]; rewrite ?insert_insert_eq.
    repeat split; f_equal; unfold id; change (EmptyString +:+ ?x) with x;
      rewrite ?append_assoc; reflexivity.
Qed.

(** *** Decimal numerals *)

Lemma digits_value_app (a b : string) (acc : Z) :
  digits_value acc (a +:+ b) = digits_value (digits_value acc a) b.
Proof.
  revert acc. induction a as [|c a IH]; intros acc; [reflexivity|].
  change (String c a +:+ b) with (String c (a +:+ b)). simpl. apply IH.
Qed.

Lemma digit_char_spec (d : Z) :
  0 <= d < 10 -> is_decimal (digit_char d) = true /\ ord (digit_char d) - 48 = d.
Proof.
  intros H.
  assert (d = 0 \/ d = 1 \/ d = 2 \/ d = 3 \/ d = 4 \/ d = 5 \/ d = 6 \/ d = 7
          \/ d = 8 \/ d = 9) as Hd by lia.
  repeat (destruct Hd as [-> | Hd]; [split; reflexivity|]). subst. split; reflexivity.
Qed.

(** The digits [decimal_fuel] puts in front of [acc], given enough fuel. *)
Lemma decimal_fuel_digits (fuel : nat) :
  forall n acc, (0 < fuel)%nat -> 0 <= n < 2 ^ Z.of_nat fuel ->
  exists ds,
    decimal_fuel fuel n acc = ds +:+ acc
    /\ all_chars is_decimal ds = true
    /\ ds <> EmptyString
    /\ (forall a, digits_value a ds = a * 10 ^ Z.of_nat (String.length ds) + n)
    /\ (String.length ds = 1%nat \/ 10 ^ Z.of_nat (String.length ds) <= 10 * n).
Proof.
  induction fuel as [|fuel IH]; intros n acc Hfuel Hn; [lia|].
  - cbn [decimal_fuel].
    pose proof (Z.mod_pos_bound n 10 ltac:(lia)) as Hmod.
    destruct (digit_char_spec (n mod 10) Hmod) as [Hdec Hord].
    destruct (Z.ltb_spec n 10) as [Hlt|Hge].
    + exists (String (digit_char (n mod 10)) EmptyString).
      split; [reflexivity|]. split; [simpl; now rewrite Hdec|].
      split; [discriminate|].
      split; [|left; reflexivity].
      intros a. simpl. rewrite Hord.
      rewrite Z.mod_small by lia. lia.
    + assert (Hdiv : 0 <= n / 10 < 2 ^ Z.of_nat fuel).
      { split; [apply Z.div_pos; lia|].
        apply Z.div_lt_upper_bound; [lia|].
        rewrite Nat2Z.inj_succ, Z.pow_succ_r in Hn by lia. lia. }
      assert (Hpos : (0 < fuel)%nat).
      { destruct fuel; [|lia]. simpl in Hdiv.
        assert (1 <= n / 10) by (apply Z.div_le_lower_bound; lia). lia. }
      destruct (IH (n / 10) (String (digit_char (n mod 10)) acc) Hpos Hdiv)
        as (ds & Heq & Hall & _ & Hval & Hlen).
      exists (ds +:+ String (digit_char (n mod 10)) EmptyString).
      assert (Hl : Z.of_nat (String.length (ds +:+ String (digit_char (n mod 10)) EmptyString))
                   = Z.succ (Z.of_nat (String.length ds)))
        by (rewrite length_append; simpl; lia).
      pose proof (Z.div_mod n 10 ltac:(lia)) as Hdm.
      split; [rewrite Heq, append_assoc; reflexivity|].
      split; [rewrite all_chars_app, Hall; simpl; now rewrite Hdec|].
      split; [destruct ds; discriminate|].
      rewrite Hl, Z.pow_succ_r by lia.
      split.
      * intros a. rewrite digits_value_app, Hval. simpl. rewrite Hord. lia.
      * right. destruct Hlen as [H1|Hle]; [rewrite H1; simpl; lia | lia].
Qed.

Lemma str_of_int_spec (n : Z) :
  0 <= n ->
  all_chars is_decimal (str_of_int n) = true
  /\ str_of_int n <> EmptyString
  /\ digits_value 0 (str_of_int n) = n
  /\ (n < 1000000 -> (String.length (str_of_int n) <= 6)%nat).
Proof.
  intros Hn. unfold str_of_int.
  destruct (Z.ltb_spec n 0); [lia|].
  assert (Hfuel : 0 <= n < 2 ^ Z.of_nat (S (Z.to_nat (Z.log2 n)))).
  { split; [exact Hn|].
    pose proof (Z.log2_nonneg n).
    rewrite Nat2Z.inj_succ, Z2Nat.id by assumption.
    destruct (Z.eq_dec n 0) as [->|Hne]; [reflexivity|].
    apply Z.log2_spec. lia. }
  destruct (decimal_fuel_digits _ n EmptyString (Nat.lt_0_succ _) Hfuel)
    as (ds & Heq & Hall & Hne & Hval & Hlen).
  rewrite Heq, append_empty_r.
  split; [exact Hall|]. split; [exact Hne|].
  split; [rewrite Hval; lia|].
  intros Hsmall. destruct Hlen as [H1|Hle]; [lia|].
  assert (Hp : 10 ^ Z.of_nat (String.length ds) < 10 ^ 7) by (simpl; lia).
  apply Z.pow_lt_mono_r_iff in Hp; lia.
Qed.

(** *** Stripping *)

Lemma list_of_string_app (a b : string) :
  list_ascii_of_string (a +:+ b) = list_ascii_of_string a ++ list_ascii_of_string b.
Proof.
  induction a as [|c a IH]; [reflexivity|].
  change (String c a +:+ b) with (String c (a +:+ b)). simpl. now rewrite IH.
Qed.

Lemma string_of_list_app (l1 l2 : list ascii) :
  string_of_list_ascii (l1 ++ l2) = string_of_list_ascii l1 +:+ string_of_list_ascii l2.
Proof.
  induction l1 as [|c l1 IH]; [reflexivity|].
  simpl string_of_list_ascii. rewrite IH. reflexivity.
Qed.

Lemma rev_string_app (a b : string) :
  rev_string (a +:+ b) = rev_string b +:+ rev_string a.
Proof.
  unfold rev_string. now rewrite list_of_string_app, rev_app_distr, string_of_list_app.
Qed.

Lemma rev_string_involutive (s : string) : rev_string (rev_string s) = s.
Proof.
  unfold rev_string.
  now rewrite list_ascii_of_string_of_list_ascii, rev_involutive,
    string_of_list_ascii_of_string.
Qed.

Lemma all_chars_forallb (p : ascii -> bool) (s : string) :
  all_chars p s = forallb p (list_ascii_of_string s).
Proof. induction s as [|c s IH]; [reflexivity|]. simpl. now rewrite IH. Qed.

Lemma all_chars_rev_string (p : ascii -> bool) (s : string) :
  all_chars p s = true -> all_chars p (rev_string s) = true.
Proof.
  rewrite !all_chars_forallb. unfold rev_string.
  rewrite list_ascii_of_string_of_list_ascii, !forallb_forall.
  intros H c Hc. apply H. now apply in_rev.
Qed.

Lemma all_chars_impl (p q : ascii -> bool) (s : string) :
  (forall c, p c = true -> q c = true) ->
  all_chars p s = true -> all_chars q s = true.
Proof.
  intros Hpq. induction s as [|c s IH]; [reflexivity|]. simpl.
  intros H. apply andb_prop in H as [Hc Hs]. now rewrite (Hpq c Hc), IH.
Qed.

Lemma decimal_not_whitespace (c : ascii) : is_decimal c = true -> is_whitespace c = false.
Proof.
  intros H. apply is_decimal_ord in H. unfold is_whitespace, in_range.
  repeat match goal with
         | |- context [?a <=? ?b] => destruct (Z.leb_spec a b); try lia
         | |- context [?a =? ?b] => destruct (Z.eqb_spec a b); try lia
         end; reflexivity.
Qed.

Lemma decimal_no_break (c : ascii) : is_decimal c = true -> no_break c = true.
Proof.
  intros H. apply is_decimal_ord in H. unfold no_break.
  destruct (Ascii.eqb_spec c "010") as [->|]; [change (ord "010") with 10 in H; lia|].
  destruct (Ascii.eqb_spec c "013") as [->|]; [change (ord "013") with 13 in H; lia|].
  reflexivity.
Qed.

Lemma decimal_isdigit (c : ascii) : is_decimal c = true -> char_isdigit c = true.
Proof. intros H. unfold char_isdigit. now rewrite H. Qed.

Lemma lstrip_decimal (s : string) : all_chars is_decimal s = true -> lstrip s = s.
Proof.
  destruct s as [|c s]; [reflexivity|]. simpl. intros H.
  apply andb_prop in H as [Hc _]. now rewrite (decimal_not_whitespace c Hc).
Qed.

Lemma lstrip_spec (s : string) :
  exists w, s = w +:+ lstrip s /\ all_chars is_whitespace w = true.
Proof.
  induction s as [|c s (w & Hs & Hw)]; [exists EmptyString; auto|].
  simpl. destruct (is_whitespace c) eqn:E.
  - exists (String c w). split.
    + change (String c w +:+ lstrip s) with (String c (w +:+ lstrip s)). now rewrite <- Hs.
    + simpl. now rewrite E.
  - exists EmptyString. auto.
Qed.

Lemma rstrip_spec (s : string) :
  exists w, s = rstrip s +:+ w /\ all_chars is_whitespace w = true.
Proof.
  destruct (lstrip_spec (rev_string s)) as (w & Hs & Hw).
  exists (rev_string w). split; [|now apply all_chars_rev_string].
  unfold rstrip. rewrite <- rev_string_app, <- Hs. now rewrite rev_string_involutive.
Qed.

(** A numeral followed by a line break strips to the numeral. *)
Lemma strip_numeral_line (ds : string) :
  all_chars is_decimal ds = true -> strip (ds +:+ newline) = ds.
Proof.
  intros H. destruct ds as [|c ds]; [reflexivity|].
  unfold strip, rstrip.
  assert (Hl : lstrip (String c ds +:+ newline) = String c ds +:+ newline).
  { change (String c ds +:+ newline) with (String c (ds +:+ newline)).
    simpl in *. apply andb_prop in H as [Hc _].
    now rewrite (decimal_not_whitespace c Hc). }
  revert H Hl. generalize (String c ds). clear c ds. intros ds H Hl.
  rewrite Hl, rev_string_app.
  change (rev_string newline) with newline.
  change (newline +:+ rev_string ds) with (String "010" (rev_string ds)).
  change (lstrip (String "010" (rev_string ds))) with (lstrip (rev_string ds)).
  rewrite lstrip_decimal by now apply all_chars_rev_string.
  apply rev_string_involutive.
Qed.

(** A line taken for a cue number is made of digits and white space. *)
Lemma numeric_line_chars (line : string) :
  numeric_line line = true -> all_chars digit_or_space line = true.
Proof.
  unfold numeric_line. intros H. apply andb_prop in H as [_ Hd].
  assert (Hs : all_chars char_isdigit (strip line) = true)
    by (unfold isdigit in Hd; destruct (strip line); [discriminate | exact Hd]).
  destruct (lstrip_spec line) as (w1 & E1 & Hw1).
  destruct (rstrip_spec (lstrip line)) as (w2 & E2 & Hw2).
  fold (strip line) in E2. rewrite E1, E2, !all_chars_app.
  rewrite (all_chars_impl is_whitespace digit_or_space w1), (all_chars_impl is_whitespace digit_or_space w2),
    (all_chars_impl char_isdigit digit_or_space (strip line)); auto;
    unfold digit_or_space; intros c Hc; rewrite Hc; auto using orb_true_r.
Qed.

(** The line of a numeral is taken for that number. *)
Lemma last_cue_number_numeral (n : Z) (rest : list string) :
  0 <= n ->
  last_cue_number ((str_of_int n +:+ newline) :: rest) = Return (Some n).
Proof.
  intros Hn. destruct (str_of_int_spec n Hn) as (Hall & Hne & Hval & _).
  cbn [last_cue_number]. rewrite (strip_numeral_line _ Hall).
  assert (Hd : isdigit (str_of_int n) = true).
  { unfold isdigit. destruct (str_of_int n); [congruence|].
    apply (all_chars_impl is_decimal); [apply decimal_isdigit | exact Hall]. }
  rewrite Hd.
  assert (He : String.eqb (str_of_int n) EmptyString = false)
    by (destruct (str_of_int n); [congruence | reflexivity]).
  rewrite He. cbn [negb andb]. unfold int_of_digits. rewrite Hall. cbn [bind].
  now rewrite Hval.
Qed.

(** Lines not taken for a number are passed over. *)
Lemma last_cue_number_skip (skipped rest : list string) :
  Forall (fun line => numeric_line line = false) skipped ->
  last_cue_number (skipped ++ rest) = last_cue_number rest.
Proof.
  induction 1 as [|line skipped Hline _ IH]; [reflexivity|].
  cbn [app last_cue_number]. unfold numeric_line in Hline. now rewrite Hline.
Qed.

(** *** Lines *)

(** A piece without line break, then a line break: one line. *)
Lemma lines_of_first_line (x rest : string) :
  all_chars no_break x = true ->
  forall cur,
    OS.lines_of cur (x +:+ newline +:+ rest)
    = (cur +:+ x +:+ newline) :: OS.lines_of EmptyString rest.
Proof.
  induction x as [|c x IH]; intros Hx cur.
  - reflexivity.
  - simpl in Hx. apply andb_prop in Hx as [Hc Hx].
    unfold no_break in Hc. apply andb_prop in Hc as [Hn Hr].
    apply negb_true_iff in Hn, Hr.
    change (String c x +:+ newline +:+ rest) with (String c (x +:+ newline +:+ rest)).
    cbn [OS.lines_of]. rewrite Hn, Hr. rewrite (IH Hx).
    now rewrite !append_assoc.
Qed.

(** After a line break the lines of what follows start afresh. *)
Lemma lines_of_after_break (n : nat) :
  forall a cur b, (String.length a <= n)%nat ->
    OS.lines_of cur ((a +:+ newline) +:+ b)
    = OS.lines_of cur (a +:+ newline) ++ OS.lines_of EmptyString b.
Proof.
  induction n as [|n IH]; intros a cur b Hlen.
  - destruct a; [reflexivity | simpl in Hlen; lia].
  - destruct a as [|c a]; [reflexivity|].
    simpl in Hlen.
    change ((String c a +:+ newline) +:+ b) with (String c ((a +:+ newline) +:+ b)).
    change (String c a +:+ newline) with (String c (a +:+ newline)).
    cbn [OS.lines_of].
    destruct (Ascii.eqb c "010").
    { rewrite IH by lia. reflexivity. }
    destruct (Ascii.eqb c "013"); [|apply IH; lia].
    destruct a as [|c' a].
    { reflexivity. }
    change ((String c' a +:+ newline) +:+ b) with (String c' ((a +:+ newline) +:+ b)).
    change (String c' a +:+ newline) with (String c' (a +:+ newline)).
    cbv beta match.
    destruct (Ascii.eqb c' "010").
    + simpl in Hlen. rewrite IH by lia. reflexivity.
    + change (String c' ((a +:+ newline) +:+ b)) with ((String c' a +:+ newline) +:+ b).
      change (String c' (a +:+ newline)) with (String c' a +:+ newline).
      rewrite IH by lia. reflexivity.
Qed.

Lemma all_chars_substring (p : ascii -> bool) (s : string) :
  all_chars p s = true -> forall n m, all_chars p (String.substring n m s) = true.
Proof.
  induction s as [|c s IH]; intros H n m.
  - destruct n, m; reflexivity.
  - simpl in H. apply andb_prop in H as [Hc Hs].
    destruct n as [|n]; [destruct m as [|m]|]; simpl; auto.
    now rewrite Hc, IH.
Qed.

Lemma no_break_zfill (width : nat) (n : Z) :
  0 <= n -> all_chars no_break (zfill width (str_of_int n)) = true.
Proof.
  intros Hn. destruct (str_of_int_spec n Hn) as (Hall & _).
  apply (all_chars_impl is_decimal); [apply decimal_no_break|].
  unfold zfill. now rewrite all_chars_app, all_chars_zeros, Hall.
Qed.

(** A timestamp has no line break in it. *)
Lemma no_break_timestamp (t : Z) :
  all_chars no_break (drop_last3 (Datetime.strftime_HMSf (Datetime.of_total_us t))) = true.
Proof.
  unfold drop_last3. apply all_chars_substring.
  pose proof (of_total_us_ranges t) as (Hh & Hm & Hs).
  assert (Hu : 0 <= Datetime.microsecond (Datetime.of_total_us t))
    by (apply Z.mod_pos_bound; reflexivity).
  unfold Datetime.strftime_HMSf.
  rewrite !all_chars_app, !no_break_zfill by lia. reflexivity.
Qed.

Lemma calculate_end_time_shape (self : SubtitleGenerator) (start text : string)
    (wpm : Z) (r : option string) :
  calculate_end_time self (Some start) text wpm = Return r ->
  exists t, r = Some (drop_last3 (Datetime.strftime_HMSf (Datetime.of_total_us t)) +:+ "Z").
Proof.
  unfold calculate_end_time.
  destruct (Datetime.strptime_HMSf start) as [d|]; [|discriminate]. cbn [bind].
  destruct (seconds_per_word wpm) as [spw|]; [|discriminate]. cbn [bind].
  destruct (Datetime.timedelta_of_seconds _) as [delta|]; [|discriminate]. cbn [bind].
  unfold Datetime.add.
  destruct (_ && _); [|discriminate]. cbn [bind].
  intros [= <-]. eauto.
Qed.

(** The cue a call writes: a timing line that is not taken for a number,
    then the text. *)
Lemma srt_body_shape (reading : Z) (text body : string) :
  srt_body_at reading text = Some body ->
  exists timing,
    body = timing +:+ newline +:+ (text +:+ newline +:+ newline)
    /\ all_chars no_break timing = true
    /\ numeric_line (timing +:+ newline) = false.
Proof.
  unfold srt_body_at.
  destruct (calculate_end_time _ _ _ _) as [end_time|] eqn:E; [|discriminate].
  intros [= <-].
  apply calculate_end_time_shape in E as [t ->]. cbn [fmt].
  exists (srt_start reading +:+ " --> "
          +:+ drop_last3 (Datetime.strftime_HMSf (Datetime.of_total_us t)) +:+ "Z").
  split; [now rewrite !append_assoc|].
  split.
  - unfold srt_start. rewrite !all_chars_app, !no_break_timestamp. reflexivity.
  - destruct (numeric_line _) eqn:N; [|reflexivity].
    apply numeric_line_chars in N. rewrite !all_chars_app in N.
    apply andb_prop in N as [N _]. apply andb_prop in N as [_ N].
    apply andb_prop in N as [N _]. vm_compute in N. discriminate.
Qed.

(** *** Numbering *)

(** The lines of one cue. *)
Lemma lines_of_block (k : Z) (text body : string) (reading : Z) :
  0 <= k -> srt_body_at reading text = Some body ->
  exists timing,
    numeric_line timing = false
    /\ OS.lines_of EmptyString ((str_of_int k +:+ newline) +:+ body)
       = (str_of_int k +:+ newline) :: timing
         :: OS.lines_of EmptyString (text +:+ newline +:+ newline)
    /\ exists b', (str_of_int k +:+ newline) +:+ body = b' +:+ newline.
Proof.
  intros Hk Hbody.
  destruct (srt_body_shape _ _ _ Hbody) as (timing & -> & Hnb & Hnum).
  destruct (str_of_int_spec k Hk) as (Hall & _).
  exists (timing +:+ newline). split; [exact Hnum|]. split.
  - rewrite append_assoc.
    rewrite lines_of_first_line
      by (apply (all_chars_impl is_decimal); [apply decimal_no_break | exact Hall]).
    rewrite (lines_of_first_line timing _ Hnb). reflexivity.
  - exists (str_of_int k +:+ newline +:+ timing +:+ newline +:+ text +:+ newline).
    now rewrite !append_assoc.
Qed.

(** After a cue numbered [k] is appended, the scan finds [k]. *)
Lemma last_cue_after_block (k : Z) (old : option string) (text body : string)
    (reading : Z) :
  0 <= k -> plain_text text -> srt_body_at reading text = Some body ->
  fresh_file old = true \/ (exists j, last_cue_is j old) ->
  last_cue_is k
    (Some (default EmptyString old +:+ ((str_of_int k +:+ newline) +:+ body))).
Proof.
  intros Hk Hplain Hbody Hold.
  destruct (lines_of_block k text body reading Hk Hbody)
    as (timing & Hnum & Hlines & b' & Hend).
  assert (Hscan : forall before,
    last_cue_number
      (rev (before ++ OS.lines_of EmptyString ((str_of_int k +:+ newline) +:+ body)))
    = Return (Some k)).
  { intros before. rewrite Hlines, rev_app_distr.
    change ((str_of_int k +:+ newline) :: timing
            :: OS.lines_of EmptyString (text +:+ newline +:+ newline))
      with ([str_of_int k +:+ newline; timing]
            ++ OS.lines_of EmptyString (text +:+ newline +:+ newline)).
    rewrite rev_app_distr. cbn [rev app]. rewrite <- !app_assoc.
    rewrite last_cue_number_skip by (apply Forall_rev; exact Hplain).
    cbn [app last_cue_number]. unfold numeric_line in Hnum. rewrite Hnum.
    apply last_cue_number_numeral. exact Hk. }
  destruct Hold as [Hfresh | (j & c & c' & -> & Hc & _)].
  - assert (Hd : default EmptyString old = EmptyString).
    { destruct old as [c|]; [|reflexivity]. simpl in Hfresh.
      apply String.eqb_eq in Hfresh. now subst. }
    rewrite Hd. change (EmptyString +:+ ?x) with x.
    eexists _, b'. split; [reflexivity|]. split; [exact Hend|].
    apply (Hscan []).
  - cbn [default]. unfold id.
    eexists _, (c +:+ b'). split; [reflexivity|].
    split; [now rewrite Hend, append_assoc|].
    rewrite Hc at 1.
    rewrite (lines_of_after_break (String.length c') c' EmptyString _ (le_n _)).
    rewrite <- Hc. apply Hscan.
Qed.

(** The index a call writes after [k] cues. *)
Lemma cue_index_next (k : Z) (old : option string) :
  srt_state k old -> cue_index old = Return (k + 1).
Proof.
  intros [[-> Hfresh] | [Hk (c & c' & -> & Hc & Hscan)]]; unfold cue_index, next_cue_of.
  - assert (Hd : default EmptyString old = EmptyString).
    { destruct old as [c|]; [|reflexivity]. simpl in Hfresh.
      apply String.eqb_eq in Hfresh. now subst. }
    rewrite Hd, Hfresh. reflexivity.
  - cbn [default]. unfold id.
    destruct (OS.lines_of EmptyString c) as [|l ls] eqn:El; [discriminate|].
    cbn [length Nat.eqb]. rewrite Hscan. cbn [bind].
    assert (Hf : fresh_file (Some c) = false).
    { rewrite Hc. destruct c'; reflexivity. }
    now rewrite Hf.
Qed.

(** The target after a sequence of calls with plain texts. *)
Lemma run_srt_calls_content (self : SubtitleGenerator) (texts : list string) :
  Forall plain_text texts ->
  forall w k,
    let p := subtitle_path self +:+ ".srt" in
    srt_state k (files w !! p) ->
    files (run_srt_calls self texts w) !! p
    = match srt_blocks (now_at w) (ticks w) (k + 1) texts with
      | [] => files w !! p
      | blocks => Some (default EmptyString (files w !! p) +:+ join_all blocks)
      end
    /\ forall q, q <> p -> files (run_srt_calls self texts w) !! q = files w !! q.
Proof.
  induction 1 as [|text texts Hplain _ IH]; intros w k p Hstate; [split; reflexivity|].
  cbn [run_srt_calls srt_blocks].
  pose proof (generate_srt_subtitle_run self text false w) as (Ht & Hn & Hrun).
  fold p in Hrun.
  destruct (srt_body_at (now_at w (ticks w)) text) as [body|] eqn:Hbody.
  - rewrite (cue_index_next k _ Hstate) in Hrun. destruct Hrun as [_ Hf].
    assert (Hk : 0 <= k + 1) by (destruct Hstate as [[-> _]|[? _]]; lia).
    assert (Hnext : srt_state (k + 1)
              (files (snd (generate_srt_subtitle self text false w)) !! p)).
    { right. split; [destruct Hstate as [[-> _]|[? _]]; lia|].
      rewrite Hf, lookup_insert_eq.
      apply (last_cue_after_block (k + 1) _ text body _ Hk Hplain Hbody).
      destruct Hstate as [[_ Hfresh]|[_ Hlast]]; eauto. }
    destruct (IH _ (k + 1) Hnext) as [IHp IHq]. fold p in IHp, IHq.
    rewrite Ht, Hn, Hf in IHp. rewrite Hf in IHq. rewrite lookup_insert_eq in IHp.
    split.
    + rewrite IHp.
      destruct (srt_blocks (now_at w) (S (ticks w)) (k + 1 + 1) texts) as [|b bs].
      * cbn [join_all fold_right]. now rewrite append_empty_r.
      * cbn [default]. unfold id. now rewrite append_assoc.
    + intros q Hq. rewrite IHq by exact Hq. now rewrite lookup_insert_ne.
  - destruct Hrun as [_ Hf].
    assert (Hnext : srt_state k
              (files (snd (generate_srt_subtitle self text false w)) !! p))
      by now rewrite Hf.
    destruct (IH _ k Hnext) as [IHp IHq]. fold p in IHp, IHq.
    rewrite Ht, Hn, Hf in IHp. rewrite Hf in IHq. now split.
Qed.

(** *** Every call with a reasonable text writes its cue *)

Lemma substring_prefix_app (a b : string) (k : nat) :
  String.substring 0 (String.length a + k) (a +:+ b) = a +:+ String.substring 0 k b.
Proof.
  induction a as [|c a IH]; [reflexivity|].
  change (String c a +:+ b) with (String c (a +:+ b)). simpl. now rewrite IH.
Qed.

Lemma drop_last3_app (a b : string) :
  String.length b = 6%nat -> drop_last3 (a +:+ b) = a +:+ String.substring 0 3 b.
Proof.
  intros Hb. unfold drop_last3. rewrite length_append, Hb.
  replace (String.length a + 6 - 3)%nat with (String.length a + 3)%nat by lia.
  apply substring_prefix_app.
Qed.

Lemma zfill6_spec (us : Z) :
  0 <= us < 1000000 ->
  String.length (zfill 6 (str_of_int us)) = 6%nat
  /\ all_chars is_decimal (zfill 6 (str_of_int us)) = true.
Proof.
  intros [Hlo Hhi]. destruct (str_of_int_spec us Hlo) as (Hall & _ & _ & Hlen).
  specialize (Hlen Hhi). unfold zfill. split.
  - rewrite length_append.
    assert (Hz : forall n, String.length (zeros n) = n)
      by (induction n; simpl; congruence).
    rewrite Hz. lia.
  - now rewrite all_chars_app, all_chars_zeros, Hall.
Qed.

Lemma parse_fraction_first3 (b : string) :
  String.length b = 6%nat -> all_chars is_decimal b = true ->
  is_Some (Datetime.parse_fraction (String.substring 0 3 b)).
Proof.
  intros Hlen Hall.
  do 6 (destruct b as [|? b]; [discriminate|]).
  destruct b; [|discriminate].
  cbn [all_chars] in Hall.
  repeat (apply andb_prop in Hall as [? Hall]).
  unfold Datetime.parse_fraction. cbn [String.substring String.length all_chars].
  repeat match goal with H : is_decimal _ = true |- _ => rewrite H; clear H end.
  cbn. eauto.
Qed.

(** The start time a call builds from the clock is read back by
    [calculate_end_time]. *)
Lemma srt_start_parses (reading : Z) :
  exists start_dt,
    Datetime.strptime_HMSf (srt_start reading) = Return start_dt
    /\ Datetime.ordinal start_dt = Datetime.ordinal_1900_01_01
    /\ 0 <= Datetime.us_of_day start_dt < Datetime.us_per_day.
Proof.
  pose proof (of_total_us_ranges reading) as (Hh & Hm & Hs).
  assert (Hu : 0 <= Datetime.microsecond (Datetime.of_total_us reading) < 1000000)
    by (apply Z.mod_pos_bound; reflexivity).
  destruct (zfill6_spec _ Hu) as [Hlen Hall].
  destruct (parse_fraction_first3 _ Hlen Hall) as [us Hus].
  unfold srt_start.
  assert (E : Datetime.strftime_HMSf (Datetime.of_total_us reading)
              = (Datetime.strftime_HMS (Datetime.of_total_us reading) +:+ ".")
                +:+ zfill 6 (str_of_int (Datetime.microsecond (Datetime.of_total_us reading))))
    by (unfold Datetime.strftime_HMSf, Datetime.strftime_HMS;
        now rewrite !append_assoc).
  rewrite E, (drop_last3_app _ _ Hlen), append_assoc.
  rewrite (strptime_of_strftime _ _ us Hh Hm Hs Hus).
  apply parse_fraction_bound in Hus.
  generalize dependent (Datetime.of_total_us reading). intros d Hh Hm Hs _ _ _ _.
  eexists. split; [reflexivity|]. split; [reflexivity|].
  unfold Datetime.us_of_day, Datetime.us_per_day, Datetime.us_per_second.
  cbn [Datetime.hour Datetime.minute Datetime.second Datetime.microsecond]. lia.
Qed.

(** A call with a reasonable text writes its cue. *)
Lemma srt_body_at_reasonable (reading : Z) (text : string) :
  reasonable_text text -> is_Some (srt_body_at reading text).
Proof.
  intros Hr. destruct (srt_start_parses reading) as (start_dt & Hp & Hord & Hu).
  unfold srt_body_at. change default_wpm with 150.
  rewrite (calculate_end_time_150 the_subtitles _ text start_dt Hp); [eauto|].
  unfold reasonable_text in Hr.
  assert (Datetime.total_us start_dt + estimated_duration_us text
          < Datetime.us_per_day * (Datetime.MAXORDINAL + 1)).
  { unfold Datetime.total_us. rewrite Hord.
    unfold Datetime.ordinal_1900_01_01, Datetime.MAXORDINAL, Datetime.us_per_day,
      Datetime.us_per_second in *. lia. }
  assert ((Datetime.total_us start_dt + estimated_duration_us text) / Datetime.us_per_day
          < Datetime.MAXORDINAL + 1)
    by (apply Z.div_lt_upper_bound; [apply day_positive | assumption]).
  lia.
Qed.

Lemma srt_blocks_all (clock : nat -> Z) (texts : list string) :
  Forall reasonable_text texts ->
  forall n k, length (srt_blocks clock n k texts) = length texts.
Proof.
  induction 1 as [|text texts Hr _ IH]; intros n k; [reflexivity|].
  cbn [srt_blocks]. destruct (srt_body_at_reasonable (clock n) _ Hr) as [body ->].
  simpl. now rewrite IH.
Qed.

(** X14: on a target that does not exist or is empty, cue texts none of whose
    lines is digits only are written as the cues numbered 1, 2, 3, ... in
    the order of the calls, each with its timing line and its text; a call
    that raises writes nothing and uses no number.  Where the target can be
    opened for appending (as in every [world]), no call raises when the
    texts are of reasonable size. *)
Lemma srt_plain_texts_numbered (self : SubtitleGenerator) (texts : list string)
    (w : world) :
  let p := subtitle_path self +:+ ".srt" in
  let blocks := srt_blocks (now_at w) (ticks w) 1 texts in
  fresh_file (files w !! p) = true ->
  Forall plain_text texts ->
  files (run_srt_calls self texts w) !! p
  = match blocks with
    | [] => files w !! p
    | _ :: _ => Some (join_all blocks)
    end
  /\ (Forall reasonable_text texts -> length blocks = length texts).
Proof.
  intros p blocks Hfresh Hplain.
  destruct (run_srt_calls_content self texts Hplain w 0 (or_introl (conj eq_refl Hfresh)))
    as [Hp _].
  fold p in Hp. change (0 + 1) with 1 in Hp. fold blocks in Hp.
  split; [|intros Hr; apply srt_blocks_all; exact Hr].
  rewrite Hp. destruct blocks; [reflexivity|].
  assert (Hd : default EmptyString (files w !! p) = EmptyString).
  { destruct (files w !! p) as [c|]; [|reflexivity]. simpl in Hfresh.
    apply String.eqb_eq in Hfresh. now subst. }
  now rewrite Hd.
Qed.

End SrtPlain.

(** ** The SubRip writer *)

Section Srt.
Import GenerateSubtitle.

(** C6 at a failing input: the cue texts [7] and [hello] written to a file
    that did not exist get the indices 1 and 8.  The scan of
    [get_next_cue_number] takes the text line [7] of the first cue for the
    last cue number; with the texts [Hi], [hello], [x] the indices are 1, 2,
    3. *)
Theorem srt_index_follows_numeric_text :
  let self := new_SubtitleGenerator "sub" in
  files example_world !! "sub.srt" = None
  /\ fst (get_next_cue_number self "sub.srt" (run_srt_calls self ["7"] example_world))
     = Return (Some 8)
  /\ files (run_srt_calls self ["7"; "hello"] example_world) !! "sub.srt"
     = Some ("1" +:+ newline +:+ "23:59:50.123 --> 23:59:53.523Z" +:+ newline
             +:+ "7" +:+ newline +:+ newline
             +:+ "8" +:+ newline +:+ "23:59:55.123 --> 23:59:58.523Z" +:+ newline
             +:+ "hello" +:+ newline +:+ newline)
  /\ files (run_srt_calls self ["Hi"; "hello"; "x"] example_world) !! "sub.srt"
     = Some ("1" +:+ newline +:+ "23:59:50.123 --> 23:59:53.523Z" +:+ newline
             +:+ "Hi" +:+ newline +:+ newline
             +:+ "2" +:+ newline +:+ "23:59:55.123 --> 23:59:58.523Z" +:+ newline
             +:+ "hello" +:+ newline +:+ newline
             +:+ "3" +:+ newline +:+ "00:00:00.123 --> 00:00:03.523Z" +:+ newline
             +:+ "x" +:+ newline +:+ newline).
Proof. cbv zeta. repeat split; vm_compute; reflexivity. Qed.

End Srt.

(** ** The session *)

Section Session.
Import ProcessRequest.

(** [basic_transcribe] returns in every case: what its body raises is caught
    and answered with [None]. *)
Lemma basic_transcribe_never_raises (source target format region output : PyVal)
    (session : Session) (dh : TranscriptDataHandler) (w : world) :
  exists r, fst (basic_transcribe source target format region output session dh w)
            = Return r.
Proof.
  unfold basic_transcribe, try_except_return.
  match goal with |- context [match ?m w with _ => _ end] => destruct (m w) as [[a|e] w'] end;
    simpl; eauto.
Qed.

(** C2 at a failing input: a final event is handled, then the transport
    fails.  [process_request] returns [None] without raising and without
    logging; the snapshot is not returned, and both logs of the Store are
    empty although the final event was handled (its text is in the
    transcript file).  The same when the stream cannot be opened.  Where the
    sibling [handle_transcript_event] does raise, the [TranscriptionError]
    has no [original_error] and prints as [TranscriptionError: None].
    Whatever its arguments and the world, [basic_transcribe] returns and
    never raises. *)
Theorem session_failure_returns_none :
  let run := process_request english_to_spanish failing_session example_world in
  (forall source target format region output session dh w,
      exists r, fst (basic_transcribe source target format region output session dh w)
                = Return r)
  /\ fst run = Return None
  /\ logged (snd run) = []
  /\ store_snapshot example_store (snd run) = ([], [])
  /\ files (snd run) !! transcript_path = Some ("Hi there" +:+ GenerateSubtitle.newline)
  /\ fst (process_request english_to_spanish unopened_session example_world) = Return None
  /\ (let raised := fst (handle_transcript_event
                           (example_handler "en-US" "es" "srt" "both_text")
                           (one_result "Hi" false) world_without_translation) in
      raised = Raise (Handled TranscriptionError
                        "transcript event error: TranslationError: None" None)
      /\ match raised with
         | Raise e => str e = "TranscriptionError: None"
         | Return _ => False
         end).
Proof.
  cbv zeta. split; [intros; apply basic_transcribe_never_raises|].
  repeat split; vm_compute; reflexivity.
Qed.

End Session.

(** ** The configuration *)

Section Configuration.

(** C9 at failing inputs: [from_input_data] accepts the valid target code
    [fa] (Farsi) and maps it to [fa-AF], the value of [Dari], the first
    member whose value contains the code; it accepts the invalid codes [e]
    and [a] as [en-US] and [af].  Codes contained in no value and unknown
    formats are refused by [from_input_data], and every valid target code
    other than [fa] is mapped to itself.  The script builds its
    [UserInput] with the constructor, which checks nothing, and
    [process_request] checks nothing either: handed the [UserInput] of a
    command line on which every option is invalid, it starts the session
    and sends a request to the translation service.  The script itself
    never gets that far, for any configuration: its [main] raises the
    [TypeError]. *)
Theorem configuration_accepts_invalid_values :
  value Farsi_Persian = "fa"
  /\ from_input_data (input_data_of "en-US" "fa" "srt")
     = Return (new_UserInput (PStr "en-US") (PStr "fa-AF") (PSubtitleFormat SRT)
                 (PStr "us-east-1") (POutputFormat NONE))
  /\ from_input_data (input_data_of "e" "a" "vtt")
     = Return (new_UserInput (PStr "en-US") (PStr "af") (PSubtitleFormat VTT)
                 (PStr "us-east-1") (POutputFormat NONE))
  /\ forallb (fun m : TargetLanguage =>
                target_maps_to (value m)
                  (if String.eqb (value m) "fa" then "fa-AF" else value m))
       members = true
  /\ returns (from_input_data (input_data_of "en-US" "xx" "srt")) = false
  /\ returns (from_input_data (input_data_of "en-US" "es" "ass")) = false
  /\ Core.user_input_of_args invalid_args
     = new_UserInput (PStr "klingon") (PStr "xx") (PStr "ass") PNone (PStr "everything")
  /\ (let run := ProcessRequest.process_request (Core.user_input_of_args invalid_args)
                   one_event_session example_world in
      returns (fst run) = true
      /\ translate_calls (snd run)
         = [{| req_text := "Hi"; req_source := "klingon"; req_target := "xx";
               req_settings := [] |}])
  /\ (forall (user_input : UserInput) (w : world),
        Core.main user_input w
        = (Raise (Builtin TypeError "'module' object is not callable"), w)).
Proof. cbv zeta. repeat split; vm_compute; reflexivity. Qed.

End Configuration.

(** ** The error classes *)

Section Errors.
Import HandleError MoreProps.

(** X1: [handle_error] never returns.  For one of the four known error types it
    raises the error of that class with the message and no original error,
    and the text [str] shows for it is the class name followed by
    [": None"], whatever the message; for any other type it raises the
    [ValueError]. *)
Theorem handle_error_always_raises (error_type message : string) :
  exists e, handle_error error_type message = Raise e
    /\ match e with
       | Handled c msg original =>
           error_type = error_type_of c /\ msg = message /\ original = None
           /\ str e = class_name c +:+ ": None"
       | Builtin cls msg =>
           cls = ValueError /\ msg = "Invalid error type specified"
           /\ existsb (String.eqb error_type) known_error_types = false
       end.
Proof.
  unfold handle_error, known_error_types. cbn [map existsb error_type_of].
  destruct (String.eqb error_type "transcription") eqn:E1;
    [apply String.eqb_eq in E1; subst; eexists; split; [reflexivity|]; now cbn|].
  destruct (String.eqb error_type "translation") eqn:E2;
    [apply String.eqb_eq in E2; subst; eexists; split; [reflexivity|]; now cbn|].
  destruct (String.eqb error_type "subtitling") eqn:E3;
    [apply String.eqb_eq in E3; subst; eexists; split; [reflexivity|]; now cbn|].
  destruct (String.eqb error_type "output") eqn:E4;
    [apply String.eqb_eq in E4; subst; eexists; split; [reflexivity|]; now cbn|].
  eexists; split; [reflexivity|]. now cbn.
Qed.

End Errors.

(** ** Caption smoothing *)

Section CaptionWindow.
Import GenerateSubtitle Smoothing MoreProps.

Lemma add_captions_window_size (s : CaptionSmoothing) (xs : list Q) :
  window_size (add_captions s xs) = window_size s.
Proof.
  revert s. induction xs as [|x xs IH]; intros s; [reflexivity|].
  unfold add_captions in *. simpl. now rewrite IH.
Qed.

Lemma add_captions_snoc (s : CaptionSmoothing) (xs : list Q) (x : Q) :
  add_captions s (xs ++ [x]) = add_caption (add_captions s xs) x.
Proof. unfold add_captions. now rewrite fold_left_app. Qed.

Lemma lastn_length {A} (n : nat) (l : list A) :
  length (lastn n l) = Nat.min n (length l).
Proof. unfold lastn. rewrite length_skipn. lia. Qed.

Lemma deque_append_lastn (n : nat) (xs : list Q) (x : Q) :
  deque_append (Z.of_nat n) (lastn n xs) x = lastn n (xs ++ [x]).
Proof.
  unfold deque_append. cbv zeta.
  rewrite length_app, lastn_length. simpl length.
  unfold lastn. rewrite length_app. simpl length.
  destruct (Z.ltb_spec (Z.of_nat n) (Z.of_nat (Nat.min n (length xs) + 1))) as [Hlt|Hge].
  - assert (Hn : (n <= length xs)%nat) by lia.
    replace (length xs + 1 - n)%nat with (S (length xs - n)) by lia.
    rewrite skipn_app.
    replace (S (length xs - n) - length xs)%nat with
      (if Nat.eqb n 0 then 1 else 0)%nat
      by (destruct (Nat.eqb_spec n 0); lia).
    destruct (Nat.eqb_spec n 0) as [->|Hn0].
    + rewrite Nat.sub_0_r, skipn_all. simpl.
      rewrite skipn_all2 by lia. reflexivity.
    + simpl skipn at 3.
      assert (Hs : exists y ys, skipn (length xs - n) xs = y :: ys).
      { destruct (skipn (length xs - n) xs) as [|y ys] eqn:E; [|eauto].
        apply (f_equal (@length Q)) in E. rewrite length_skipn in E. simpl in E. lia. }
      destruct Hs as (y & ys & Hs).
      rewrite Hs. simpl tl.
      change (S (length xs - n)) with (1 + (length xs - n))%nat.
      rewrite <- skipn_skipn, Hs. reflexivity.
  - assert (Hn : (length xs < n)%nat) by lia.
    replace (length xs - n)%nat with 0%nat by lia.
    replace (length xs + 1 - n)%nat with 0%nat by lia.
    reflexivity.
Qed.

Lemma new_CaptionSmoothing_Return (n : Z) (s : CaptionSmoothing) :
  new_CaptionSmoothing n = Return s ->
  0 <= n /\ window_size s = n /\ caption_buffer s = [].
Proof.
  unfold new_CaptionSmoothing. destruct (Z.ltb_spec n 0); [discriminate|].
  intros [= <-]. auto.
Qed.

Lemma buffer_after_captions (n : Z) (s : CaptionSmoothing) (xs : list Q) :
  new_CaptionSmoothing n = Return s ->
  caption_buffer (add_captions s xs) = lastn (Z.to_nat n) xs.
Proof.
  intros H. apply new_CaptionSmoothing_Return in H as (Hn & Hw & Hb).
  induction xs as [|x xs IH] using rev_ind.
  - unfold add_captions. simpl. now rewrite Hb.
  - rewrite add_captions_snoc. unfold add_caption. cbn [caption_buffer].
    rewrite add_captions_window_size, Hw, IH.
    rewrite <- (Z2Nat.id n) at 1 by exact Hn.
    apply deque_append_lastn.
Qed.

(** X2: a smoother built for a window of [n] captions holds, after any
    captions were added to it, the last [n] of them in the order they came
    (all of them when fewer came), so never more than [n]; and it has a
    smoothed caption to give unless [n] is 0 or no caption came. *)
Theorem smoothing_buffer_is_last_window (n : Z) (s : CaptionSmoothing) (xs : list Q) :
  new_CaptionSmoothing n = Return s ->
  caption_buffer (add_captions s xs) = lastn (Z.to_nat n) xs
  /\ Z.of_nat (length (caption_buffer (add_captions s xs))) <= n
  /\ (exists older, xs = older ++ caption_buffer (add_captions s xs))
  /\ (get_smoothed_caption (add_captions s xs) = None <-> n = 0 \/ xs = []).
Proof.
  intros H. unfold get_smoothed_caption. rewrite (buffer_after_captions n s xs H).
  apply new_CaptionSmoothing_Return in H as (Hn & _ & _).
  split; [reflexivity|]. split; [|split].
  - rewrite lastn_length. lia.
  - exists (firstn (length xs - Z.to_nat n) xs). unfold lastn.
    symmetry. apply firstn_skipn.
  - pose proof (lastn_length (Z.to_nat n) xs) as Hlen.
    destruct (lastn (Z.to_nat n) xs) as [|y ys]; simpl in Hlen.
    + split; [intros _|reflexivity].
      destruct xs as [|x xs]; [now right|]. left. simpl in Hlen. lia.
    + split; [discriminate|]. intros [->| ->]; simpl in Hlen; lia.
Qed.

Lemma smoothing_buffer_is_last_window_witness :
  caption_buffer (add_captions {| window_size := 2; caption_buffer := [] |}
                    [1%Q; 2%Q; 3%Q]) = [2%Q; 3%Q].
Proof.
  exact (proj1 (smoothing_buffer_is_last_window 2
                  {| window_size := 2; caption_buffer := [] |} [1%Q; 2%Q; 3%Q] eq_refl)).
Defined.

End CaptionWindow.

(** ** The subtitle writers *)

Section Writers.
Import GenerateSubtitle GenerateOutput MoreProps.
Local Open Scope py_scope.

Lemma lines_of_nonempty (cur s : string) :
  cur <> EmptyString \/ s <> EmptyString -> OS.lines_of cur s <> [].
Proof.
  revert cur. induction s as [|c s IH]; intros cur H.
  - destruct H as [H|H]; [|congruence]. simpl. destruct cur; [congruence | discriminate].
  - cbn [OS.lines_of].
    destruct (Ascii.eqb c "010"); [discriminate|].
    destruct (Ascii.eqb c "013").
    + destruct s as [|c' s']; [discriminate|]. destruct (Ascii.eqb c' "010"); discriminate.
    + apply IH. left. destruct cur; discriminate.
Qed.

(** X3: [get_next_cue_number] changes nothing.  It returns 1 when the file
    does not exist or is empty, one more than the number on the last line
    that holds a number when there is one, and [None] when the file has
    lines but none holds a number. *)
Theorem next_cue_number_from_file (self : SubtitleGenerator) (p : string) (w : world) :
  let run := get_next_cue_number self p w in
  snd run = w
  /\ (fresh_file (files w !! p) = true -> fst run = Return (Some 1))
  /\ (forall c, files w !! p = Some c -> c <> EmptyString ->
        Forall (fun line => numeric_line line = false) (OS.lines_of EmptyString c) ->
        fst run = Return None)
  /\ (forall c before n after, files w !! p = Some c -> 0 <= n ->
        OS.lines_of EmptyString c = before ++ (str_of_int n +:+ newline) :: after ->
        Forall (fun line => numeric_line line = false) after ->
        fst run = Return (Some (n + 1))).
Proof.
  cbv zeta. rewrite get_next_cue_number_run. cbn [fst snd].
  split; [reflexivity|]. split; [|split].
  - unfold fresh_file, next_cue_of. destruct (files w !! p) as [c|]; [|reflexivity].
    intros H. apply String.eqb_eq in H. now subst c.
  - intros c Hc Hne Hall. rewrite Hc. unfold next_cue_of.
    pose proof (lines_of_nonempty EmptyString c (or_intror Hne)) as Hl.
    destruct (OS.lines_of EmptyString c) as [|l ls] eqn:E; [congruence|].
    cbn [length Nat.eqb].
    rewrite <- (app_nil_r (rev (l :: ls))).
    rewrite last_cue_number_skip by (apply Forall_rev; exact Hall).
    reflexivity.
  - intros c before n after Hc Hn Hl Hall. rewrite Hc. unfold next_cue_of.
    rewrite Hl.
    assert (Hlen : (length (before ++ (str_of_int n +:+ newline) :: after) =? 0)%nat = false).
    { rewrite length_app. simpl length. apply Nat.eqb_neq. lia. }
    rewrite Hlen, rev_app_distr. cbn [rev]. rewrite <- app_assoc.
    rewrite last_cue_number_skip by (apply Forall_rev; exact Hall).
    cbn [app]. rewrite last_cue_number_numeral by exact Hn. reflexivity.
Qed.

Lemma next_cue_number_from_file_witness :
  fst (get_next_cue_number the_subtitles "cues.srt"
         (set_files (<["cues.srt" := "7" +:+ newline +:+ "00:00:01,000" +:+ newline]> ∅)
            example_world))
  = Return (Some 8).
Proof.
  refine (proj2 (proj2 (proj2 (next_cue_number_from_file the_subtitles "cues.srt" _)))
            _ [] 7 ["00:00:01,000" +:+ newline] _ _ _ _).
  - reflexivity.
  - lia.
  - vm_compute. reflexivity.
  - repeat constructor.
Defined.

Lemma leaves_refl (q : string) (w : world) : leaves q w w.
Proof. unfold leaves. auto. Qed.

Lemma leaves_trans (q : string) (a b c : world) :
  leaves q a b -> leaves q b c -> leaves q a c.
Proof. unfold leaves. intros (?&?&?&?&?) (?&?&?&?&?). repeat split; congruence. Qed.

Lemma leaves_ticks (q : string) (w : world) (n : nat) : leaves q w (set_ticks n w).
Proof. unfold leaves. auto. Qed.

Lemma leaves_write (q : string) (w : world) (p c : string) :
  p <> q -> leaves q w (set_files (<[p := c]> (files w)) w).
Proof.
  intros Hp. unfold leaves. cbn. rewrite lookup_insert_ne by exact Hp. auto.
Qed.

Lemma leaves_calls (q : string) (w : world) (c : list TranslateRequest) :
  leaves q w (set_translate_calls c w).
Proof. unfold leaves. auto. Qed.

Lemma leaves_calls_refl (q : string) (w : world) : leaves q w w /\ same_calls w w.
Proof. split; [apply leaves_refl | reflexivity]. Qed.

Lemma leaves_calls_trans (q : string) (a b c : world) :
  leaves q a b /\ same_calls a b -> leaves q b c /\ same_calls b c ->
  leaves q a c /\ same_calls a c.
Proof.
  intros [H1 C1] [H2 C2]. split; [eapply leaves_trans; eauto|].
  unfold same_calls in *. congruence.
Qed.

(** X4: a subtitle writer, whether it returns or raises, reads the clock once
    and changes nothing but its own target file: every other file, the
    heap, the log and the requests sent to the translation service are as
    before. *)
Theorem subtitle_writers_change_only_their_file (self : SubtitleGenerator)
    (text : string) (flag : bool) (w : world) (q : string) :
  let after_vtt := snd (generate_vtt_subtitle self text flag w) in
  let after_srt := snd (generate_srt_subtitle self text flag w) in
  (q <> subtitle_path self +:+ ".vtt" ->
     leaves q w after_vtt /\ same_calls w after_vtt)
  /\ (q <> subtitle_path self +:+ ".srt" ->
     leaves q w after_srt /\ same_calls w after_srt)
  /\ ticks after_vtt = S (ticks w) /\ ticks after_srt = S (ticks w).
Proof.
  cbv zeta. split; [|split; [|split]].
  - intros Hq.
    apply (keeps_generate_vtt_subtitle (fun a b => leaves q a b /\ same_calls a b)
             (leaves_calls_refl q) (leaves_calls_trans q) (fun p => p <> q)).
    + intros a n. split; [apply leaves_ticks | reflexivity].
    + intros a p c Hp. split; [now apply leaves_write | reflexivity].
    + congruence.
  - intros Hq.
    apply (keeps_generate_srt_subtitle (fun a b => leaves q a b /\ same_calls a b)
             (leaves_calls_refl q) (leaves_calls_trans q) (fun p => p <> q)).
    + intros a n. split; [apply leaves_ticks | reflexivity].
    + intros a p c Hp. split; [now apply leaves_write | reflexivity].
    + congruence.
  - apply generate_vtt_subtitle_run.
  - apply generate_srt_subtitle_run.
Qed.

Lemma subtitle_writers_change_only_their_file_witness :
  leaves "./output/transcript_full.txt" example_world
    (snd (generate_srt_subtitle the_subtitles "Hi." false example_world)).
Proof.
  refine (proj1 (proj1 (proj2 (subtitle_writers_change_only_their_file the_subtitles
                   "Hi." false example_world "./output/transcript_full.txt")) _)).
  discriminate.
Defined.

End Writers.

(** ** The output files *)

Section Outputs.
Import GenerateOutput MoreProps.
Local Open Scope py_scope.

Lemma append_inj_l (a x y : string) : a +:+ x = a +:+ y -> x = y.
Proof.
  induction a as [|c a IH]; [auto|].
  change (String c a +:+ x) with (String c (a +:+ x)).
  change (String c a +:+ y) with (String c (a +:+ y)).
  intros [= H]. auto.
Qed.

Lemma path_join_inj (a x y : string) : path_join a x = path_join a y -> x = y.
Proof.
  unfold path_join. destruct (_ || _).
  - apply append_inj_l.
  - intros H. apply append_inj_l in H. now apply (append_inj_l "/") in H.
Qed.

(** X5: the two files of an output generator are different files whatever
    its directory.  Where they can be opened for appending (the directory
    exists, as in every [world]), storing a transcript and storing a
    translation each return, append the text and a line break to their own
    file and leave the other one alone, so the two can be done in either
    order with the same outcome. *)
Theorem output_stores_are_independent (go : OutputGenerator) (t x : string) (w : world) :
  let tp := path_join (output_path go) transcript_file_name in
  let xp := path_join (output_path go) translated_file_name in
  let w1 := snd ((store_transcript go t ;; store_translated_output go x) w) in
  String.eqb tp xp = false
  /\ (store_transcript go t ;; store_translated_output go x) w
     = (store_translated_output go x ;; store_transcript go t) w
  /\ fst ((store_transcript go t ;; store_translated_output go x) w) = Return tt
  /\ files w1 !! tp = appended (files w !! tp) [t]
  /\ files w1 !! xp = appended (files w !! xp) [x].
Proof.
  cbv zeta.
  assert (Hne : path_join (output_path go) transcript_file_name
                <> path_join (output_path go) translated_file_name)
    by (intros H; apply path_join_inj in H; discriminate).
  split; [now apply String.eqb_neq|].
  unfold store_transcript, store_translated_output, bindM.
  rewrite !store_text_file_run. cbv beta zeta match.
  cbn [fst snd files set_files]. unfold appended. cbn [fold_left].
  set (tp := path_join (output_path go) transcript_file_name) in *.
  set (xp := path_join (output_path go) translated_file_name) in *.
  rewrite (lookup_insert_ne (files w) tp xp) by exact Hne.
  rewrite (lookup_insert_ne (files w) xp tp) by congruence.
  split; [|split; [reflexivity|split]].
  - f_equal. unfold set_files. cbn. f_equal.
    apply insert_insert_ne. congruence.
  - rewrite lookup_insert_ne by congruence. now rewrite lookup_insert_eq.
  - now rewrite lookup_insert_eq.
Qed.

End Outputs.

(** ** The handler of transcript events: what it leaves alone *)

Section Footprint.
Import GenerateSubtitle GenerateOutput TranslateTranscript ProcessRequest MoreProps.
Local Open Scope py_scope.

Lemma keeps_bind_lift {A B} (R : world -> world -> Prop) (r : result A) (k : A -> M B) :
  (forall w, R w w) ->
  (forall a, r = Return a -> keeps R (k a)) -> keeps R (bindM (lift r) k).
Proof.
  intros Hrefl Hk w. unfold bindM, lift. destruct r as [a|e]; simpl.
  - now apply Hk.
  - apply Hrefl.
Qed.

Lemma subtitle_target_format (self : TranscriptHandler) (format : string) :
  py_lower (h_subtitle_format self) = Return format ->
  subtitle_target self = if String.eqb format "vtt" then vtt_path else srt_path.
Proof. intros H. unfold subtitle_target, vtt_configured. now rewrite H. Qed.

Lemma handle_alternative_leaves (self : TranscriptHandler) (same : bool)
    (result : Result) (alt : Alternative) (q : string) :
  q <> subtitle_target self ->
  (q = transcript_path -> stores_transcript self = false) ->
  (q = translated_path -> stores_translated self = false) ->
  keeps (leaves q)
    (handle_alternative self the_translate the_subtitles the_outputs
       (stores_transcript self) (stores_translated self) same result alt).
Proof.
  intros Hsub Ht Hx. unfold handle_alternative.
  assert (Hticks : forall w n, leaves q w (set_ticks n w)) by apply leaves_ticks.
  assert (Hwrite : forall w p c, p <> q -> leaves q w (set_files (<[p := c]> (files w)) w))
    by (intros; now apply leaves_write).
  apply keeps_bind; [apply leaves_trans | |intros translated_text].
  { destruct same; [apply keeps_ret, leaves_refl|].
    apply (keeps_translate_text (leaves q) (leaves_refl q) (leaves_trans q) True);
      [|exact I].
    intros _ w c. apply leaves_calls. }
  apply keeps_bind_lift; [apply leaves_refl|]. intros format Hformat.
  rewrite (subtitle_target_format self format Hformat) in Hsub.
  apply keeps_bind; [apply leaves_trans | |intros _].
  { destruct (String.eqb format "vtt").
    - apply (keeps_generate_vtt_subtitle (leaves q) (leaves_refl q) (leaves_trans q)
               (fun p => p <> q) Hticks Hwrite).
      intros E. apply Hsub. now rewrite <- E.
    - apply (keeps_generate_srt_subtitle (leaves q) (leaves_refl q) (leaves_trans q)
               (fun p => p <> q) Hticks Hwrite).
      intros E. apply Hsub. now rewrite <- E. }
  apply keeps_when; [apply leaves_refl|]. intros _.
  apply keeps_bind; [apply leaves_trans | |intros _].
  - apply keeps_when; [apply leaves_refl|]. intros Hs. unfold store_transcript.
    apply (keeps_store_text_file (leaves q) (leaves_refl q) (leaves_trans q)
             (fun p => p <> q) Hwrite
             the_outputs transcript_file_name).
    intros E. rewrite Ht in Hs; [discriminate | now rewrite <- E].
  - apply keeps_when; [apply leaves_refl|]. intros Hs. unfold store_translated_output.
    apply (keeps_store_text_file (leaves q) (leaves_refl q) (leaves_trans q)
             (fun p => p <> q) Hwrite
             the_outputs translated_file_name).
    intros E. rewrite Hx in Hs; [discriminate | now rewrite <- E].
Qed.

Lemma handle_transcript_event_leaves (self : TranscriptHandler) (ev : TranscriptEvent)
    (q : string) :
  q <> subtitle_target self ->
  (q = transcript_path -> stores_transcript self = false) ->
  (q = translated_path -> stores_translated self = false) ->
  keeps (leaves q) (handle_transcript_event self ev).
Proof.
  intros Hsub Ht Hx.
  apply handle_transcript_event_keeps; [apply leaves_refl | apply leaves_trans|].
  intros same _. apply event_loops_keeps; [apply leaves_refl | apply leaves_trans|].
  apply Forall_forall. intros result _ alt. now apply handle_alternative_leaves.
Qed.

(** X6: handling a transcript event, whether it returns or raises, changes at
    most three files: the subtitle file of the configured format and the
    two output text files.  Every other file, the heap (and so the Store),
    the clock readings and the log are as before. *)
Theorem event_changes_only_its_targets (self : TranscriptHandler) (ev : TranscriptEvent)
    (w : world) (q : string) :
  q <> subtitle_target self -> q <> transcript_path -> q <> translated_path ->
  leaves q w (snd (handle_transcript_event self ev w)).
Proof.
  intros Hsub Ht Hx. apply handle_transcript_event_leaves; [exact Hsub | |]; congruence.
Qed.

Lemma event_changes_only_its_targets_witness :
  leaves "./subtitle/realtime_subtitle.vtt" example_world_with_store
    (snd (handle_transcript_event (example_handler "en-US" "es" "srt" "both_text")
            (one_result "Hi there" false) example_world_with_store)).
Proof.
  apply event_changes_only_its_targets; vm_compute; discriminate.
Defined.

(** X7: the subtitle format selects one subtitle file and the other one is
    never touched: a handler whose format lowers to [vtt] leaves the SubRip
    file as it is, and any other handler leaves the WebVTT file as it
    is. *)
Theorem subtitle_format_selects_one_file (self : TranscriptHandler) (ev : TranscriptEvent)
    (w : world) :
  leaves (if vtt_configured self then srt_path else vtt_path) w
    (snd (handle_transcript_event self ev w)).
Proof.
  apply handle_transcript_event_leaves.
  - unfold subtitle_target. destruct (vtt_configured self); vm_compute; discriminate.
  - destruct (vtt_configured self); vm_compute; discriminate.
  - destruct (vtt_configured self); vm_compute; discriminate.
Qed.

(** X8: the output text files follow the output format: a handler whose
    format is not [transcript_text] or [both_text] never changes the
    transcript file, one whose format is not [translated_text] or
    [both_text] never changes the translation file; so with [none], with
    [None] and with any unknown format neither file is written. *)
Theorem output_format_selects_text_files (self : TranscriptHandler) (ev : TranscriptEvent)
    (w : world) :
  let w' := snd (handle_transcript_event self ev w) in
  (stores_transcript self = false -> leaves transcript_path w w')
  /\ (stores_translated self = false -> leaves translated_path w w')
  /\ (as_str (h_output_format self) = None -> 
      stores_transcript self = false /\ stores_translated self = false)
  /\ (forall s, as_str (h_output_format self) = Some s ->
      existsb (String.eqb s) (map value [TRANSCRIPT_TEXT; TRANSLATED_TEXT; BOTH_TEXT]) = false ->
      stores_transcript self = false /\ stores_translated self = false).
Proof.
  cbv zeta. split; [|split; [|split]].
  - intros H. apply handle_transcript_event_leaves; [| auto |].
    + unfold subtitle_target. destruct (vtt_configured self); vm_compute; discriminate.
    + vm_compute. discriminate.
  - intros H. apply handle_transcript_event_leaves; [| | auto].
    + unfold subtitle_target. destruct (vtt_configured self); vm_compute; discriminate.
    + vm_compute. discriminate.
  - intros H. unfold stores_transcript, stores_translated, in_members, eq_str.
    rewrite H. auto.
  - intros s H Hs. unfold stores_transcript, stores_translated, in_members, eq_str.
    rewrite H. cbn [map existsb value OutputFormat_enum] in *.
    apply orb_false_elim in Hs as [H1 Hs]. apply orb_false_elim in Hs as [H2 Hs].
    apply orb_false_elim in Hs as [H3 _].
    now rewrite H1, H2, H3.
Qed.

Lemma output_format_selects_text_files_witness :
  leaves transcript_path example_world_with_store
    (snd (handle_transcript_event (example_handler "en-US" "es" "srt" "everything")
            (one_result "Hi there" false) example_world_with_store))
  /\ leaves translated_path example_world_with_store
    (snd (handle_transcript_event (example_handler "en-US" "es" "srt" "everything")
            (one_result "Hi there" false) example_world_with_store)).
Proof.
  pose proof (output_format_selects_text_files
                (example_handler "en-US" "es" "srt" "everything")
                (one_result "Hi there" false) example_world_with_store) as (Ht & Hx & _ & Hs).
  destruct (Hs "everything" eq_refl eq_refl) as [H1 H2].
  split; [exact (Ht H1) | exact (Hx H2)].
Defined.

End Footprint.

(** ** The handler of transcript events: what it raises *)

Section Raises.
Import GenerateSubtitle GenerateOutput TranslateTranscript ProcessRequest MoreProps.
Local Open Scope py_scope.

Lemma raises_only_ret {A} (P : PyExn -> Prop) (a : A) : raises_only P (ret a).
Proof. intros w e. discriminate. Qed.

Lemma raises_only_lift {A} (P : PyExn -> Prop) (r : result A) :
  (forall e, r = Raise e -> P e) -> raises_only P (lift r).
Proof. intros H w e. simpl. apply H. Qed.

Lemma raises_only_bind {A B} (P : PyExn -> Prop) (m : M A) (k : A -> M B) :
  raises_only P m -> (forall a, raises_only P (k a)) -> raises_only P (bindM m k).
Proof.
  intros Hm Hk w e. unfold bindM. specialize (Hm w).
  destruct (m w) as [[a|e'] w1]; simpl in *.
  - apply Hk.
  - intros [= <-]. now apply Hm.
Qed.

Lemma raises_only_try_reraise {A} (P : PyExn -> Prop) (m : M A) (h : PyExn -> PyExn) :
  (forall e, P (h e)) -> raises_only P (try_reraise m h).
Proof.
  intros H w e. unfold try_reraise.
  destruct (m w) as [[a|e'] w1]; simpl; [discriminate|].
  intros [= <-]. apply H.
Qed.

Lemma raises_only_for_each {A} (P : PyExn -> Prop) (xs : list A) (body : A -> M unit) :
  (forall x, raises_only P (body x)) -> raises_only P (for_each xs body).
Proof.
  intros Hb. induction xs as [|x xs IH]; simpl.
  - apply raises_only_ret.
  - apply raises_only_bind; [apply Hb | intros _; exact IH].
Qed.

Lemma raises_only_when (P : PyExn -> Prop) (b : bool) (m : M unit) :
  raises_only P m -> raises_only P (when b m).
Proof. destruct b; simpl; [auto | intros _; apply raises_only_ret]. Qed.

Lemma handle_alternative_raises (self : TranscriptHandler) (st1 st2 same : bool)
    (result : Result) (alt : Alternative) :
  raises_only (fun e => event_failure_text (str e))
    (handle_alternative self the_translate the_subtitles the_outputs st1 st2 same
       result alt).
Proof.
  unfold handle_alternative, event_failure_text.
  apply raises_only_bind; [|intros translated_text].
  { destruct same; [apply raises_only_ret|].
    unfold translate_text. apply raises_only_try_reraise. intros e. cbn. auto. }
  apply raises_only_bind; [|intros format].
  { apply raises_only_lift. intros e. unfold py_lower.
    destruct (as_str _); [discriminate|]. intros [= <-]. cbn. auto. }
  apply raises_only_bind; [|intros _].
  { destruct (String.eqb format "vtt").
    - unfold generate_vtt_subtitle. apply raises_only_try_reraise. intros e. cbn. auto.
    - unfold generate_srt_subtitle. apply raises_only_try_reraise. intros e. cbn. auto. }
  apply raises_only_when.
  apply raises_only_bind; [|intros _]; apply raises_only_when.
  - unfold store_transcript, _store_text_file. apply raises_only_try_reraise.
    intros e. cbn. auto 6.
  - unfold store_translated_output, _store_text_file. apply raises_only_try_reraise.
    intros e. cbn. auto 6.
Qed.

(** X9: when handling a transcript event fails, the caller gets a
    [TranscriptionError] without original error, so [str] shows it as
    ["TranscriptionError: None"]; its message is ["transcript event error: "]
    followed by one of four fixed texts.  So when the translation, the
    subtitle writer or the output store failed, neither the message nor
    [str] nor [original_error] of the error raised holds the message of
    that failure.  (The implicit chaining of exceptions raised in an
    [except] clause is not part of [PyExn].) *)
Theorem event_failure_is_transcription_error (self : TranscriptHandler) (ev : TranscriptEvent)
    (w : world) (e : PyExn) :
  fst (handle_transcript_event self ev w) = Raise e ->
  exists text,
    event_failure_text text
    /\ e = Handled TranscriptionError ("transcript event error: " +:+ text) None
    /\ str e = "TranscriptionError: None".
Proof.
  rewrite handle_transcript_event_unfold. unfold try_reraise.
  destruct (bindM _ _ w) as [[u|e0] w1] eqn:E; simpl; [discriminate|].
  intros [= <-]. exists (str e0). split; [|split; reflexivity].
  assert (H : raises_only (fun e => event_failure_text (str e))
                (same <- lift (same_languages (h_source_language self)
                                 (h_target_language self)) ;;
                 event_loops self same (results ev))).
  { apply raises_only_bind; [|intros same].
    - apply raises_only_lift. intros e. unfold same_languages, py_lower, event_failure_text.
      destruct (as_str (h_source_language self)); cbn [bind];
        [|intros [= <-]; cbn; auto].
      destruct (as_str (h_target_language self)); cbn [bind];
        [discriminate | intros [= <-]; cbn; auto].
    - unfold event_loops. apply raises_only_for_each. intros result.
      apply raises_only_for_each. intros alt. apply handle_alternative_raises. }
  apply (H w e0). now rewrite E.
Qed.

Lemma event_failure_is_transcription_error_witness :
  exists text,
    event_failure_text text
    /\ Handled TranscriptionError "transcript event error: TranslationError: None" None
       = Handled TranscriptionError ("transcript event error: " +:+ text) None
    /\ str (Handled TranscriptionError
              "transcript event error: TranslationError: None" None)
       = "TranscriptionError: None".
Proof.
  apply (event_failure_is_transcription_error (example_handler "en-US" "es" "srt" "both_text")
           (one_result "Hi there" false) world_without_translation).
  vm_compute. reflexivity.
Defined.

(** X10: [translate_text] sends one request, with the text, the two codes
    and the settings that the two checks select, and changes nothing else.
    It returns what the service answers, and raises a [TranslationError]
    when the service fails.  Its [region_name] argument has no effect, and
    so the region of the handler of transcript events has none on how an
    event is handled. *)
Theorem translate_text_sends_one_request (self : Translate) (text : string)
    (src tgt region : PyVal) (profanity brevity : bool) (w : world) (s t : string) :
  as_str src = Some s -> as_str tgt = Some t ->
  let req := {| req_text := text; req_source := s; req_target := t;
                req_settings :=
                  (if profanity then [("Profanity", "MASK")] else [])
                  ++ (if brevity then [("Brevity", "ON")] else []) |} in
  let run := translate_text self text src tgt region profanity brevity w in
  snd run = set_translate_calls (translate_calls w ++ [req]) w
  /\ fst run = match translate_service w req with
               | Return answer => Return answer
               | Raise e => Raise (new_error TranslationError
                                     ("Translation error: " +:+ str e))
               end
  /\ (forall region', translate_text self text src tgt region' profanity brevity w = run)
  /\ (forall handler ev region',
        handle_transcript_event (with_region region' handler) ev
        = handle_transcript_event handler ev).
Proof.
  intros Hs Ht. cbv zeta.
  unfold translate_text, try_reraise, bindM, lift, code_param, client_translate_text.
  rewrite Hs, Ht. cbv beta zeta match.
  destruct (translate_service w _) as [answer|e]; cbn [fst snd]; repeat split; reflexivity.
Qed.

Lemma translate_text_sends_one_request_witness :
  fst (translate_text the_translate "Hi" (PStr "en-US") (PStr "es") PNone true false
         example_world)
  = Return "<Hi>".
Proof.
  exact (proj1 (proj2 (translate_text_sends_one_request the_translate "Hi" (PStr "en-US")
                         (PStr "es") PNone true false example_world "en-US" "es"
                         eq_refl eq_refl))).
Defined.

End Raises.

(** ** The session: what [process_request] returns *)

Section Outcome.
Import GenerateSubtitle GenerateOutput TranslateTranscript ProcessRequest MoreProps.
Local Open Scope py_scope.





End Outcome.

(** ** The user input *)

Section Validation.
Import MoreProps.

Lemma prefix_app (n h t : string) :
  String.prefix n h = true -> String.prefix n (h +:+ t) = true.
Proof.
  revert n. induction h as [|b h IH]; intros n.
  - destruct n; [intros _; destruct t; reflexivity | discriminate].
  - change (String b h +:+ t) with (String b (h +:+ t)).
    destruct n as [|a n]; [reflexivity|]. simpl.
    destruct (ascii_dec a b); [apply IH | discriminate].
Qed.

Lemma contains_app (n h t : string) :
  contains n h = true -> contains n (h +:+ t) = true.
Proof.
  induction h as [|b h IH].
  - cbn [contains]. destruct (String.prefix n EmptyString) eqn:E; [|discriminate].
    intros _. destruct n; [|simpl in E; discriminate].
    change (EmptyString +:+ t) with t. destruct t; reflexivity.
  - change (String b h +:+ t) with (String b (h +:+ t)). cbn [contains].
    destruct (String.prefix n (String b h)) eqn:E.
    + intros _. apply (prefix_app _ _ t) in E.
      change (String b h +:+ t) with (String b (h +:+ t)) in E. now rewrite E.
    + intros H. rewrite (IH H). now destruct (String.prefix n (String b (h +:+ t))).
Qed.

(** The loop of [get_language_enum] returns the first member whose value
    contains the code. *)
Lemma get_language_enum_loop_Some {E} `{PyEnum E} (ms : list E) (code : PyVal) (m : E) :
  get_language_enum_loop ms code = Return (Some m) ->
  exists c before after,
    as_str code = Some c /\ ms = before ++ m :: after
    /\ contains c (value m) = true
    /\ Forall (fun m' => contains c (value m') = false) before.
Proof.
  induction ms as [|m0 ms IH]; [discriminate|].
  cbn [get_language_enum_loop]. unfold code_in_value.
  destruct (as_str code) as [c|] eqn:Ec; [|discriminate]. cbn [bind].
  destruct (contains c (value m0)) eqn:Em0.
  - intros [= <-]. exists c, [], ms. auto.
  - intros Hrest. destruct (IH Hrest) as (c' & before & after & Hc' & -> & Hm & Hb).
    injection Hc' as <-.
    exists c, (m0 :: before), after. repeat split; auto.
Qed.

Lemma enum_call_Return {E} `{PyEnum E} (v : PyVal) (m : E) :
  enum_call v = Return m -> In m members /\ as_str v = Some (value m).
Proof.
  unfold enum_call. destruct (find _ members) as [m'|] eqn:Ef; [|discriminate].
  intros [= <-]. apply find_some in Ef as [Hin Heq]. split; [exact Hin|].
  unfold eq_str in Heq. destruct (as_str v) as [s|]; [|discriminate].
  apply String.eqb_eq in Heq. now subst.
Qed.

Lemma getitem_Return (d : gmap string PyVal) (key : string) (v : PyVal) :
  getitem d key = Return v -> d !! key = Some v.
Proof. unfold getitem. destruct (d !! key); [now intros [= <-] | discriminate]. Qed.

Lemma dot_value_Return {E} `{PyEnum E} (x : option E) (s : string) :
  dot_value x = Return s -> exists m, x = Some m /\ s = value m.
Proof. destruct x as [m|]; [intros [= <-]; eauto | discriminate]. Qed.

Lemma bind_Return {A B} (r : result A) (k : A -> result B) (b : B) :
  bind r k = Return b -> exists a, r = Return a /\ k a = Return b.
Proof. destruct r as [a|e]; [eauto | discriminate]. Qed.

(** X12: what [from_input_data] returns is a checked configuration: the
    source language is [en-US]; the target language is the value of the
    first member of [TargetLanguage] whose value contains the code given;
    the two formats are members of their enumerations whose value is the
    string given (the output format is [NONE] when none is given); and the
    region is the one given, or [us-east-1]. *)
Theorem from_input_data_result (input_data : gmap string PyVal) (u : UserInput) :
  from_input_data input_data = Return u ->
  source_language u = PStr "en-US"
  /\ (exists (m : TargetLanguage) code before after,
        target_language u = PStr (value m)
        /\ (input_data !! "target_language") ≫= as_str = Some code
        /\ contains code (value m) = true
        /\ members = before ++ m :: after
        /\ Forall (fun m' : TargetLanguage => contains code (value m') = false) before)
  /\ (exists f : SubtitleFormat,
        subtitle_format u = PSubtitleFormat f
        /\ (input_data !! "subtitle_format") ≫= as_str = Some (value f))
  /\ region u = default (PStr "us-east-1") (input_data !! "region")
  /\ (exists o : OutputFormat,
        output_format u = POutputFormat o
        /\ as_str (default (POutputFormat NONE) (input_data !! "output_format"))
           = Some (value o)).
Proof.
  unfold from_input_data. intros H.
  apply bind_Return in H as (code_s & Hs & H). apply getitem_Return in Hs.
  apply bind_Return in H as (enum_s & Hes & H).
  apply bind_Return in H as (src & Hsrc & H).
  apply dot_value_Return in Hsrc as (ms & -> & ->).
  apply bind_Return in H as (code_t & Ht & H). apply getitem_Return in Ht.
  apply bind_Return in H as (enum_t & Het & H).
  apply bind_Return in H as (tgt & Htgt & H).
  apply dot_value_Return in Htgt as (mt & -> & ->).
  apply bind_Return in H as (raw & Hraw & H). apply getitem_Return in Hraw.
  apply bind_Return in H as (f & Hf & H). apply enum_call_Return in Hf as [_ Hf].
  cbv zeta in H.
  apply bind_Return in H as (o & Ho & H). apply enum_call_Return in Ho as [_ Ho].
  injection H as <-. cbn.
  split; [now destruct ms|]. split; [|split; [|split; [reflexivity|]]].
  - apply get_language_enum_loop_Some in Het as (c & before & after & Hc & Hm & Hin & Hb).
    exists mt, c, before, after. rewrite Ht. cbn. auto.
  - exists f. rewrite Hraw. cbn. auto.
  - exists o. auto.
Qed.

Lemma from_input_data_result_witness :
  target_language (new_UserInput (PStr "en-US") (PStr "fa-AF") (PSubtitleFormat SRT)
                     (PStr "us-east-1") (POutputFormat NONE))
  = PStr "fa-AF"
  /\ region (new_UserInput (PStr "en-US") (PStr "fa-AF") (PSubtitleFormat SRT)
               (PStr "us-east-1") (POutputFormat NONE))
     = default (PStr "us-east-1") (input_data_of "en-US" "fa" "srt" !! "region").
Proof.
  pose proof (from_input_data_result (input_data_of "en-US" "fa" "srt") _ eq_refl)
    as (_ & _ & _ & Hr & _).
  split; [reflexivity | exact Hr].
Defined.

Lemma to_input_data_lookups (u : UserInput) :
  to_input_data u !! "source_language" = Some (source_language u)
  /\ to_input_data u !! "target_language" = Some (target_language u)
  /\ to_input_data u !! "subtitle_format" = Some (subtitle_format u)
  /\ to_input_data u !! "region" = Some (region u)
  /\ to_input_data u !! "output_format" = Some (output_format u).
Proof.
  unfold to_input_data. repeat split.
Qed.

(** Every member but [Farsi_Persian] is found again from its own value. *)
Lemma members_find_own_value (m : TargetLanguage) :
  m <> Farsi_Persian -> finds_own_value m = true.
Proof. destruct m; intros H; try (vm_compute; reflexivity). congruence. Qed.

Lemma found_member_finds_own_value (code : PyVal) (m : TargetLanguage) :
  get_target_language_enum code = Return (Some m) -> finds_own_value m = true.
Proof.
  intros H. apply members_find_own_value. intros ->.
  unfold get_target_language_enum, get_language_enum in H.
  cbn [members TargetLanguage_enum get_language_enum_loop value] in H.
  unfold code_in_value in H.
  destruct (as_str code) as [c|]; [|discriminate]. cbn [bind] in H.
  repeat match type of H with
         | (if contains c ?v then _ else _) = _ =>
             destruct (contains c v) eqn:?; [try discriminate H|]
         end; try discriminate H.
  match goal with
  | Hfa : contains c "fa" = true, Hdari : contains c "fa-AF" = false |- _ =>
      apply (contains_app _ _ "-AF") in Hfa;
      change ("fa" +:+ "-AF") with "fa-AF" in Hfa; congruence
  end.
Qed.

Lemma from_input_data_shape (input_data : gmap string PyVal) (u : UserInput) :
  from_input_data input_data = Return u ->
  exists code (m : TargetLanguage) (f : SubtitleFormat) (o : OutputFormat),
    get_target_language_enum code = Return (Some m)
    /\ source_language u = PStr "en-US" /\ target_language u = PStr (value m)
    /\ subtitle_format u = PSubtitleFormat f /\ output_format u = POutputFormat o.
Proof.
  unfold from_input_data. intros H.
  apply bind_Return in H as (code_s & _ & H).
  apply bind_Return in H as (enum_s & _ & H).
  apply bind_Return in H as (src & Hsrc & H).
  apply dot_value_Return in Hsrc as (ms & -> & ->).
  apply bind_Return in H as (code_t & _ & H).
  apply bind_Return in H as (enum_t & Het & H).
  apply bind_Return in H as (tgt & Htgt & H).
  apply dot_value_Return in Htgt as (mt & -> & ->).
  apply bind_Return in H as (raw & _ & H).
  apply bind_Return in H as (f & _ & H). cbv zeta in H.
  apply bind_Return in H as (o & _ & H). injection H as <-.
  exists code_t, mt, f, o. split; [exact Het|]. now destruct ms.
Qed.

(** X13: checking a checked configuration again changes nothing: when
    [from_input_data] returns a [UserInput], the dictionary of its five
    fields is accepted and gives the same [UserInput]. *)
Theorem from_input_data_idempotent (input_data : gmap string PyVal) (u : UserInput) :
  from_input_data input_data = Return u ->
  from_input_data (to_input_data u) = Return u.
Proof.
  intros H.
  destruct (from_input_data_shape _ _ H) as (code & m & f & o & Hfound & Hs & Htgt & Hf & Ho).
  apply found_member_finds_own_value in Hfound. unfold finds_own_value in Hfound.
  destruct (to_input_data_lookups u) as (L1 & L2 & L3 & L4 & L5).
  unfold from_input_data, getitem, get_default.
  rewrite L1, L2, L3, L4, L5, Hs, Htgt, Hf, Ho. cbn [bind default]. unfold id.
  change (get_source_language_enum (PStr "en-US")) with (Return (Some English)).
  cbn [bind dot_value].
  destruct (get_target_language_enum (PStr (value m))) as [[m'|]|]; try discriminate.
  apply String.eqb_eq in Hfound. cbn [bind dot_value]. rewrite Hfound.
  assert (Ef : enum_call (PSubtitleFormat f) = Return f) by (destruct f; reflexivity).
  assert (Eo : enum_call (POutputFormat o) = Return o) by (destruct o; reflexivity).
  rewrite Ef, Eo. cbn [bind]. unfold new_UserInput.
  destruct u; cbn in *. congruence.
Qed.

Lemma from_input_data_idempotent_witness :
  from_input_data
    (to_input_data (new_UserInput (PStr "en-US") (PStr "fa-AF") (PSubtitleFormat SRT)
                      (PStr "us-east-1") (POutputFormat NONE)))
  = Return (new_UserInput (PStr "en-US") (PStr "fa-AF") (PSubtitleFormat SRT)
              (PStr "us-east-1") (POutputFormat NONE)).
Proof.
  apply (from_input_data_idempotent (input_data_of "en-US" "fa" "srt")).
  vm_compute. reflexivity.
Defined.

End Validation.

(** ** SubRip numbering, cue timing and timestamps *)

Section Cues.
Import GenerateSubtitle MoreProps.
Local Open Scope py_scope.

Lemma srt_plain_texts_numbered_witness :
  files (run_srt_calls the_subtitles ["Hi."; "Bye now"] example_world) !! srt_path
  = Some (join_all (srt_blocks (now_at example_world) 0 1 ["Hi."; "Bye now"])).
Proof.
  refine (proj1 (srt_plain_texts_numbered the_subtitles ["Hi."; "Bye now"]
                   example_world _ _)).
  - reflexivity.
  - repeat constructor.
Defined.

Lemma findall_plus_length (p : ascii -> bool) (s cur : string) :
  (length (Re.findall_plus p cur s)
   <= String.length s + match cur with EmptyString => 0 | _ => 1 end)%nat.
Proof.
  revert cur. induction s as [|c s IH]; intros cur.
  - simpl. destruct cur; simpl; lia.
  - cbn [Re.findall_plus String.length]. destruct (p c).
    + specialize (IH (cur +:+ String c EmptyString)).
      destruct (cur +:+ String c EmptyString); destruct cur; simpl in *; lia.
    + specialize (IH EmptyString). destruct cur; simpl in *; lia.
Qed.

Lemma findall_class_length (p : ascii -> bool) (s : string) :
  (length (Re.findall_class p s) <= String.length s)%nat.
Proof.
  induction s as [|c s IH]; [simpl; lia|].
  cbn [Re.findall_class String.length]. destruct (p c); simpl; lia.
Qed.

Lemma split_class_length (p : ascii -> bool) (s cur : string) :
  (length (Re.split_class p cur s) <= String.length s + 1)%nat.
Proof.
  revert cur. induction s as [|c s IH]; intros cur; [simpl; lia|].
  cbn [Re.split_class String.length]. destruct (p c); simpl.
  - specialize (IH EmptyString). lia.
  - specialize (IH (cur +:+ String c EmptyString)). lia.
Qed.

Lemma estimated_duration_at_most (text : string) :
  estimated_duration_us text <= 3000000 + 4600000 * Z.of_nat (String.length text).
Proof.
  unfold estimated_duration_us, word_count, punctuation_count, sentence_count,
    Re.findall_words, Re.findall_punctuation, Re.split_sentences.
  pose proof (findall_plus_length is_word_char text EmptyString) as Hw.
  pose proof (findall_class_length (Re.one_of ".,?!") text) as Hp.
  pose proof (split_class_length (Re.one_of ".!?") text EmptyString) as Hs.
  cbv beta match in Hw. lia.
Qed.

(** X15: the duration estimated for a cue at 150 words per minute is at least
    3 seconds, whatever the text (the empty one too), and at most 3 seconds
    plus 4.6 seconds per character of the text. *)
Theorem estimated_duration_bounds (text : string) :
  3000000 <= estimated_duration_us text
  <= 3000000 + 4600000 * Z.of_nat (String.length text).
Proof.
  split; [apply estimated_duration_at_least_3s | apply estimated_duration_at_most].
Qed.

Lemma short_text_reasonable (text : string) :
  Z.of_nat (String.length text) <= 50000000000 -> reasonable_text text.
Proof.
  intros H. unfold reasonable_text.
  pose proof (estimated_duration_at_most text) as Hb.
  unfold Datetime.us_per_day, Datetime.us_per_second. lia.
Qed.

(** X16: for a text of at most 5 * 10^10 characters the WebVTT writer returns,
    whatever the clock reads and whatever the target holds: the end time
    can always be computed. *)
Theorem vtt_writer_returns (self : SubtitleGenerator) (text : string) (flag : bool)
    (w : world) :
  Z.of_nat (String.length text) <= 50000000000 ->
  fst (generate_vtt_subtitle self text flag w) = Return tt.
Proof.
  intros H. apply short_text_reasonable in H.
  destruct (generate_vtt_subtitle_returns self text flag w H) as [w1 ->]. reflexivity.
Qed.

Lemma vtt_writer_returns_witness :
  fst (generate_vtt_subtitle the_subtitles "Hello world." false example_world) = Return tt.
Proof. apply vtt_writer_returns. vm_compute. discriminate. Defined.

Lemma digits_value_zeros (k : nat) : digits_value 0 (zeros k) = 0.
Proof. induction k as [|k IH]; [reflexivity|]. simpl. exact IH. Qed.

Lemma digits_value_zfill (width : nat) (s : string) :
  digits_value 0 (zfill width s) = digits_value 0 s.
Proof. unfold zfill. now rewrite digits_value_app, digits_value_zeros. Qed.

Lemma parse_fraction_first3_value (b : string) :
  String.length b = 6%nat -> all_chars is_decimal b = true ->
  Datetime.parse_fraction (String.substring 0 3 b)
  = Some (digits_value 0 b / 1000 * 1000).
Proof.
  intros Hlen Hall.
  do 6 (destruct b as [|? b]; [discriminate|]).
  destruct b; [|discriminate].
  cbn [all_chars] in Hall.
  repeat (apply andb_prop in Hall as [? Hall]).
  unfold Datetime.parse_fraction. cbn [String.substring String.length all_chars].
  repeat match goal with
         | H : is_decimal ?c = true |- _ =>
             rewrite H; apply is_decimal_ord in H
         end.
  cbn [Nat.leb andb Nat.sub zeros]. f_equal.
  change (String ?x (String ?y (String ?z EmptyString)) +:+ ?t)
    with (String x (String y (String z t))).
  cbn [digits_value].
  repeat match goal with
         | H : is_decimal ?c = true |- _ => apply is_decimal_ord in H
         end.
  change (ord "0") with 48.
  generalize dependent (ord a). generalize dependent (ord a0).
  generalize dependent (ord a1). generalize dependent (ord a2).
  generalize dependent (ord a3). generalize dependent (ord a4).
  intros. Z.div_mod_to_equations. lia.
Qed.

Lemma strftime_HMSf_split (d : Datetime.datetime) :
  Datetime.strftime_HMSf d
  = (Datetime.strftime_HMS d +:+ ".") +:+ zfill 6 (str_of_int (Datetime.microsecond d)).
Proof.
  unfold Datetime.strftime_HMSf, Datetime.strftime_HMS. now rewrite !append_assoc.
Qed.

(** X17: the start time of a cue is the clock reading cut down, not rounded:
    a WebVTT cue starts at the whole second of the reading (its fraction is
    the literal [000]) and a SubRip cue at its whole millisecond, and
    [calculate_end_time] reads both back as such. *)
Theorem cue_start_truncates_clock (reading : Z) :
  let r := reading mod Datetime.us_per_day in
  (exists d, Datetime.strptime_HMSf (vtt_start reading) = Return d
             /\ Datetime.us_of_day d = r - r mod 1000000)
  /\ (exists d, Datetime.strptime_HMSf (srt_start reading) = Return d
                /\ Datetime.us_of_day d = r - r mod 1000).
Proof.
  cbv zeta.
  pose proof (of_total_us_ranges reading) as (Hh & Hm & Hs).
  pose proof (us_of_day_of_total_us reading) as Hday.
  assert (Hu : 0 <= Datetime.microsecond (Datetime.of_total_us reading) < 1000000)
    by (apply Z.mod_pos_bound; reflexivity).
  assert (Hmicro : Datetime.microsecond (Datetime.of_total_us reading)
                   = (reading mod Datetime.us_per_day) mod 1000000) by reflexivity.
  split.
  - unfold vtt_start.
    change (Datetime.strftime_HMS ?d +:+ ".000")
      with (Datetime.strftime_HMS d +:+ "." +:+ "000").
    rewrite (strptime_of_strftime _ "000" 0 Hh Hm Hs eq_refl).
    eexists. split; [reflexivity|].
    rewrite <- Hmicro, <- Hday. unfold Datetime.us_of_day.
    cbn [Datetime.hour Datetime.minute Datetime.second Datetime.microsecond]. lia.
  - destruct (zfill6_spec _ Hu) as [Hlen Hall].
    pose proof (parse_fraction_first3_value _ Hlen Hall) as Hus.
    rewrite digits_value_zfill in Hus.
    destruct (str_of_int_spec _ (proj1 Hu)) as (_ & _ & Hval & _). rewrite Hval in Hus.
    unfold srt_start.
    rewrite strftime_HMSf_split, (drop_last3_app _ _ Hlen), append_assoc.
    rewrite (strptime_of_strftime _ _ _ Hh Hm Hs Hus).
    eexists. split; [reflexivity|].
    rewrite <- Hday. unfold Datetime.us_of_day.
    cbn [Datetime.hour Datetime.minute Datetime.second Datetime.microsecond].
    unfold Datetime.us_per_second.
    generalize (Datetime.microsecond (Datetime.of_total_us reading)).
    generalize ((Datetime.hour (Datetime.of_total_us reading) * 60
                 + Datetime.minute (Datetime.of_total_us reading)) * 60
                + Datetime.second (Datetime.of_total_us reading)).
    intros A x. Z.div_mod_to_equations. lia.
Qed.

(** X18: how [calculate_end_time] fails.  Without a start time it returns
    [None] whatever the rest; a start time that is not of the form
    [%H:%M:%S.%f] makes it raise a [ValueError], also at a rate of 0 words
    per minute; with a start time that is of that form a rate of 0 makes it
    raise the [ZeroDivisionError]. *)
Theorem calculate_end_time_failures (self : SubtitleGenerator) (start text : string)
    (wpm : Z) :
  calculate_end_time self None text wpm = Return None
  /\ (returns (Datetime.strptime_HMSf start) = false ->
      exists msg, calculate_end_time self (Some start) text wpm
                  = Raise (Builtin ValueError msg))
  /\ (returns (Datetime.strptime_HMSf start) = true ->
      calculate_end_time self (Some start) text 0
      = Raise (Builtin ZeroDivisionError "division by zero")).
Proof.
  split; [reflexivity|]. unfold calculate_end_time. split.
  - intros H.
    assert (Hv : exists msg, Datetime.strptime_HMSf start = Raise (Builtin ValueError msg)).
    { unfold Datetime.strptime_HMSf, Datetime.no_match in *.
      repeat match goal with
             | |- context [match ?x with _ => _ end] => destruct x; eauto
             end; discriminate. }
    destruct Hv as [msg ->]. eauto.
  - intros H. destruct (Datetime.strptime_HMSf start) as [d|]; [|discriminate].
    reflexivity.
Qed.

Lemma calculate_end_time_failures_witness :
  (exists msg, calculate_end_time the_subtitles (Some "12:00") "Hi" 0
               = Raise (Builtin ValueError msg))
  /\ calculate_end_time the_subtitles (Some "12:00:00.000") "Hi" 0
     = Raise (Builtin ZeroDivisionError "division by zero").
Proof.
  split.
  - exact (proj1 (proj2 (calculate_end_time_failures the_subtitles "12:00" "Hi" 0)) eq_refl).
  - exact (proj2 (proj2 (calculate_end_time_failures the_subtitles "12:00:00.000" "Hi" 0))
             eq_refl).
Defined.

End Cues.

(** ** The handler of transcript events: the cues it writes *)

Section EventCues.
Import GenerateSubtitle GenerateOutput TranslateTranscript ProcessRequest MoreProps.
Local Open Scope py_scope.

Lemma agree_refl (p : string) (w : world) : agree p w w.
Proof. unfold agree. auto. Qed.

Lemma agree_sym (p : string) (w v : world) : agree p w v -> agree p v w.
Proof. unfold agree. intros (?&?&?). auto. Qed.

Lemma agree_trans (p : string) (a b c : world) :
  agree p a b -> agree p b c -> agree p a c.
Proof. unfold agree. intros (?&?&?) (?&?&?). repeat split; congruence. Qed.

Lemma agree_write (q : string) (w : world) (p c : string) :
  p <> q -> agree q w (set_files (<[p := c]> (files w)) w).
Proof.
  intros Hp. unfold agree. cbn. rewrite lookup_insert_ne by exact Hp. auto.
Qed.

Lemma respects_ret {A} (p : string) (a : A) : respects p (ret a).
Proof. intros w v H. auto. Qed.

Lemma respects_lift {A} (p : string) (r : result A) : respects p (lift r).
Proof. intros w v H. auto. Qed.

Lemma respects_bind {A B} (p : string) (m : M A) (k : A -> M B) :
  respects p m -> (forall a, respects p (k a)) -> respects p (bindM m k).
Proof.
  intros Hm Hk w v H. unfold bindM. specialize (Hm w v H).
  destruct (m w) as [[a|e] w1], (m v) as [[a'|e'] v1]; cbn [fst snd] in *;
    destruct Hm as [E Ha]; try discriminate.
  - injection E as <-. now apply Hk.
  - injection E as <-. auto.
Qed.

Lemma respects_try_reraise {A} (p : string) (m : M A) (h : PyExn -> PyExn) :
  respects p m -> respects p (try_reraise m h).
Proof.
  intros Hm w v H. unfold try_reraise. specialize (Hm w v H).
  destruct (m w) as [[a|e] w1], (m v) as [[a'|e'] v1]; cbn [fst snd] in *;
    destruct Hm as [E Ha]; try discriminate; injection E as <-; auto.
Qed.

Lemma respects_when (p : string) (b : bool) (m : M unit) :
  respects p m -> respects p (when b m).
Proof. destruct b; [auto | intros _; apply respects_ret]. Qed.

Lemma respects_now (p : string) : respects p OS.now.
Proof.
  intros w v (Hf & Ht & Hn). unfold OS.now, agree. cbn. rewrite Hn, Ht. auto.
Qed.

Lemma respects_isfile (p : string) : respects p (OS.isfile p).
Proof.
  intros w v H. unfold OS.isfile. cbn [fst snd].
  split; [|exact H]. destruct H as (-> & _). reflexivity.
Qed.

Lemma respects_size_is_zero (p : string) : respects p (OS.size_is_zero p).
Proof.
  intros w v H. unfold OS.size_is_zero. cbn [fst snd].
  split; [|exact H]. destruct H as (-> & _). reflexivity.
Qed.

Lemma respects_readlines (p : string) : respects p (OS.readlines p).
Proof.
  intros w v H. unfold OS.readlines. cbn [fst snd].
  split; [|exact H]. destruct H as (-> & _). reflexivity.
Qed.

Lemma respects_open_append (p : string) : respects p (OS.open_append p).
Proof.
  intros w v (Hf & Ht & Hn). unfold OS.open_append. cbn [fst snd].
  split; [reflexivity|]. rewrite <- Hf.
  destruct (files w !! p) eqn:E; unfold agree.
  - rewrite E. auto.
  - cbn. now rewrite !lookup_insert_eq.
Qed.

Lemma respects_write (p s : string) : respects p (OS.write p s).
Proof.
  intros w v (Hf & Ht & Hn). unfold OS.write, agree. cbn.
  rewrite !lookup_insert_eq, Hf. auto.
Qed.

Lemma respects_generate_vtt_subtitle (self : SubtitleGenerator) (text : string)
    (flag : bool) :
  respects (subtitle_path self +:+ ".vtt") (generate_vtt_subtitle self text flag).
Proof.
  unfold generate_vtt_subtitle.
  apply respects_try_reraise.
  apply respects_bind; [apply respects_now | intros t].
  apply respects_bind; [apply respects_lift | intros end_time].
  apply respects_bind; [apply respects_isfile | intros file_exists].
  apply respects_bind;
    [destruct file_exists; [apply respects_size_is_zero | apply respects_ret]
    | intros file_empty].
  apply respects_bind; [apply respects_open_append | intros _].
  apply respects_bind; [apply respects_when, respects_write | intros _].
  apply respects_bind; [apply respects_write | intros _].
  apply respects_write.
Qed.

Lemma respects_get_next_cue_number (self : SubtitleGenerator) (p : string) :
  respects p (get_next_cue_number self p).
Proof.
  unfold get_next_cue_number.
  apply respects_bind; [apply respects_isfile | intros there].
  destruct (negb there); [apply respects_ret|].
  apply respects_bind; [apply respects_readlines | intros lines].
  destruct (length lines =? 0)%nat; [apply respects_ret|].
  apply respects_bind; [apply respects_lift | intros last; apply respects_ret].
Qed.

Lemma respects_generate_srt_subtitle (self : SubtitleGenerator) (text : string)
    (flag : bool) :
  respects (subtitle_path self +:+ ".srt") (generate_srt_subtitle self text flag).
Proof.
  unfold generate_srt_subtitle.
  apply respects_try_reraise.
  apply respects_bind; [apply respects_now | intros t].
  apply respects_bind; [apply respects_lift | intros end_time].
  apply respects_bind; [apply respects_isfile | intros file_exists].
  apply respects_bind;
    [destruct file_exists; [apply respects_size_is_zero | apply respects_ret]
    | intros file_empty].
  apply respects_bind; [apply respects_open_append | intros _].
  apply respects_bind; [apply respects_get_next_cue_number | intros next].
  apply respects_bind; [apply respects_write | intros _].
  apply respects_bind; [apply respects_write | intros _].
  apply respects_write.
Qed.

(** X19: a subtitle writer depends on nothing but its target file and the
    clock: in two worlds in which these are the same it has the same
    outcome and leaves the same target, whatever the rest of the worlds
    and whatever its [partial_flag], which has no effect. *)
Theorem writers_depend_only_on_target (self : SubtitleGenerator) (text : string)
    (f f' : bool) (w v : world) :
  (agree (subtitle_path self +:+ ".vtt") w v ->
   fst (generate_vtt_subtitle self text f w) = fst (generate_vtt_subtitle self text f' v)
   /\ agree (subtitle_path self +:+ ".vtt")
        (snd (generate_vtt_subtitle self text f w))
        (snd (generate_vtt_subtitle self text f' v)))
  /\ (agree (subtitle_path self +:+ ".srt") w v ->
      fst (generate_srt_subtitle self text f w) = fst (generate_srt_subtitle self text f' v)
      /\ agree (subtitle_path self +:+ ".srt")
           (snd (generate_srt_subtitle self text f w))
           (snd (generate_srt_subtitle self text f' v))).
Proof.
  split; intros H.
  - exact (respects_generate_vtt_subtitle self text f w v H).
  - exact (respects_generate_srt_subtitle self text f w v H).
Qed.

Lemma writers_depend_only_on_target_witness :
  fst (generate_srt_subtitle the_subtitles "Hi." true example_world)
  = fst (generate_srt_subtitle the_subtitles "Hi." false example_world_with_store).
Proof.
  refine (proj1 (proj2 (writers_depend_only_on_target the_subtitles "Hi." true false
                          example_world example_world_with_store) _)).
  repeat split.
Defined.

(** The writer the handler is configured for, with either flag. *)
Lemma respects_writer (self : TranscriptHandler) (text : string) (flag : bool) :
  respects (subtitle_target self)
    (if vtt_configured self then generate_vtt_subtitle the_subtitles text flag
     else generate_srt_subtitle the_subtitles text flag).
Proof.
  unfold subtitle_target. destruct (vtt_configured self).
  - apply (respects_generate_vtt_subtitle the_subtitles).
  - apply (respects_generate_srt_subtitle the_subtitles).
Qed.

Lemma write_cues_agree (self : TranscriptHandler) (texts : list string) (w v : world) :
  agree (subtitle_target self) w v ->
  agree (subtitle_target self) (write_cues self texts w) (write_cues self texts v).
Proof.
  revert w v. induction texts as [|t texts IH]; intros w v H; [exact H|].
  simpl. apply IH. now apply (respects_writer self t false).
Qed.

Lemma write_cues_ticks (self : TranscriptHandler) (texts : list string) (w : world) :
  ticks (write_cues self texts w) = (ticks w + length texts)%nat.
Proof.
  revert w. induction texts as [|t texts IH]; intros w; [simpl; lia|].
  simpl. rewrite IH. unfold write_cue. destruct (vtt_configured self).
  - pose proof (generate_vtt_subtitle_run the_subtitles t false w) as (-> & _). lia.
  - pose proof (generate_srt_subtitle_run the_subtitles t false w) as (-> & _). lia.
Qed.

(** What handling one alternative does to the subtitle file is what one call
    of the writer does. *)
Lemma handle_alternative_cue (self : TranscriptHandler) (same : bool)
    (result : Result) (alt : Alternative) (w w' : world) :
  handle_alternative self the_translate the_subtitles the_outputs
    (stores_transcript self) (stores_translated self) same result alt w
  = (Return tt, w') ->
  agree (subtitle_target self) w'
    (snd (write_cue self (translation_of (translate_service w) self same (transcript alt))
            w)).
Proof.
  intros H. unfold handle_alternative in H.
  pose proof output_paths_distinct as (D1 & D2 & D3 & D4 & D5).
  set (p := subtitle_target self).
  assert (Hp : p <> transcript_path /\ p <> translated_path)
    by (unfold p, subtitle_target; destruct (vtt_configured self); split; congruence).
  destruct Hp as [Hp1 Hp2].
  apply bindM_Return in H as (translated & w1 & Htr & H).
  assert (A1 : agree p w w1).
  { assert (K : keeps (agree p)
                  (if same then ret (transcript alt)
                   else translate_text the_translate (transcript alt)
                          (h_source_language self) (h_target_language self)
                          (h_region self) false false)).
    { destruct same; [apply keeps_ret, agree_refl|].
      apply (keeps_translate_text (agree p) (agree_refl p) (agree_trans p) True);
        [|exact I].
      intros _ a c. unfold agree. auto. }
    specialize (K w). now rewrite Htr in K. }
  apply translated_text_run in Htr as (-> & _ & _).
  apply bindM_Return in H as (format & w2 & Hfmt & H).
  apply lift_Return in Hfmt as [Hfmt ->].
  apply bindM_Return in H as ([] & w3 & Hgen & H).
  assert (A3 : agree p w3 w').
  { assert (K : keeps (agree p)
                  (when (negb (is_partial result))
                     (when (stores_transcript self)
                        (store_transcript the_outputs (transcript alt)) ;;
                      when (stores_translated self)
                        (store_translated_output the_outputs
                           (translation_of (translate_service w) self same
                              (transcript alt)))))).
    { apply keeps_when; [apply agree_refl|]. intros _.
      apply keeps_bind; [apply agree_trans | |intros _];
        (apply keeps_when; [apply agree_refl|]; intros _).
      - unfold store_transcript.
        apply (keeps_store_text_file (agree p) (agree_refl p) (agree_trans p)
                 (fun q => q <> p) (agree_write p) the_outputs transcript_file_name).
        intros E. now apply Hp1.
      - unfold store_translated_output.
        apply (keeps_store_text_file (agree p) (agree_refl p) (agree_trans p)
                 (fun q => q <> p) (agree_write p) the_outputs translated_file_name).
        intros E. now apply Hp2. }
    specialize (K w3). now rewrite H in K. }
  assert (Hv : vtt_configured self = String.eqb format "vtt")
    by (unfold vtt_configured; now rewrite Hfmt).
  rewrite <- Hv in Hgen.
  pose proof (respects_writer self
                (translation_of (translate_service w) self same (transcript alt))
                (is_partial result) w1 w (agree_sym _ _ _ A1)) as [_ A2].
  rewrite Hgen in A2. cbn [snd] in A2.
  eapply agree_trans; [apply agree_sym; exact A3|]. exact A2.
Qed.

Lemma alternatives_cues (self : TranscriptHandler) (same : bool) (result : Result)
    (alts : list Alternative) (w w' : world) :
  for_each alts (fun alt =>
    handle_alternative self the_translate the_subtitles the_outputs
      (stores_transcript self) (stores_translated self) same result alt) w
  = (Return tt, w') ->
  translate_service w' = translate_service w
  /\ agree (subtitle_target self) w'
       (write_cues self
          (map (translation_of (translate_service w) self same) (map transcript alts)) w).
Proof.
  revert w. induction alts as [|alt alts IH]; intros w H.
  - simpl in H. injection H as <-. split; [reflexivity | apply agree_refl].
  - apply for_each_cons_Return in H as (w1 & H1 & H2).
    pose proof (handle_alternative_same_inner self (stores_transcript self)
                  (stores_translated self) same result alt w) as (_ & Hsvc & _).
    rewrite H1 in Hsvc. simpl in Hsvc.
    apply handle_alternative_cue in H1.
    apply IH in H2 as (Hsvc' & H2). rewrite Hsvc in H2.
    split; [congruence|]. cbn [map write_cues].
    eapply agree_trans; [exact H2|]. now apply write_cues_agree.
Qed.

Lemma write_cues_app (self : TranscriptHandler) (a b : list string) (w : world) :
  write_cues self (a ++ b) w = write_cues self b (write_cues self a w).
Proof. revert w. induction a as [|t a IH]; intros w; [reflexivity|]. simpl. apply IH. Qed.

Lemma event_loops_cues (self : TranscriptHandler) (same : bool) (rs : list Result)
    (w w' : world) :
  event_loops self same rs w = (Return tt, w') ->
  translate_service w' = translate_service w
  /\ agree (subtitle_target self) w'
       (write_cues self
          (map (translation_of (translate_service w) self same)
             (all_texts {| results := rs |})) w).
Proof.
  unfold all_texts. simpl.
  revert w. induction rs as [|res rs IH]; intros w H.
  - simpl in H. injection H as <-. split; [reflexivity | apply agree_refl].
  - rewrite event_loops_cons in H.
    apply bindM_Return in H as ([] & w1 & H1 & H2).
    apply alternatives_cues in H1 as (Hsvc & H1).
    apply IH in H2 as (Hsvc' & H2). rewrite Hsvc in H2.
    split; [congruence|]. simpl flat_map. rewrite map_app, write_cues_app.
    eapply agree_trans; [exact H2|]. now apply write_cues_agree.
Qed.

(** X20: when an event is handled without an exception, the subtitle file
    ends up as if the writer had been called once for every alternative of
    every result, partial ones as well as final ones, in order, with the
    translated text; the clock was read once per alternative. *)
Theorem event_writes_one_cue_per_alternative (self : TranscriptHandler)
    (ev : TranscriptEvent) (w : world) :
  fst (handle_transcript_event self ev w) = Return tt ->
  let texts := map (translation_of (translate_service w) self (languages_same self))
                 (all_texts ev) in
  let w' := snd (handle_transcript_event self ev w) in
  files w' !! subtitle_target self = files (write_cues self texts w) !! subtitle_target self
  /\ ticks w' = (ticks w + length (all_texts ev))%nat.
Proof.
  intros H. cbv zeta.
  destruct (handle_transcript_event self ev w) as [r w'] eqn:Hrun.
  cbn [fst snd] in *. subst r.
  rewrite handle_transcript_event_unfold in Hrun.
  apply try_reraise_Return in Hrun.
  apply bindM_Return in Hrun as (same & w1 & Hsame & Hrun).
  apply lift_Return in Hsame as [Hsame ->].
  unfold languages_same. rewrite Hsame.
  destruct ev as [rs]. cbn [results] in Hrun.
  apply event_loops_cues in Hrun as (_ & Hf & Ht & _).
  split; [exact Hf|]. rewrite Ht, write_cues_ticks, length_map. reflexivity.
Qed.

Lemma event_writes_one_cue_per_alternative_witness :
  ticks (snd (handle_transcript_event (example_handler "en-US" "es" "vtt" "none")
                (one_result "Hi there" true) example_world_with_store))
  = 1%nat.
Proof.
  refine (proj2 (event_writes_one_cue_per_alternative
                   (example_handler "en-US" "es" "vtt" "none")
                   (one_result "Hi there" true) example_world_with_store _)).
  vm_compute. reflexivity.
Defined.

End EventCues.

(** ** A handler without a subtitle format *)

Section WithoutFormat.
Import GenerateSubtitle GenerateOutput TranslateTranscript ProcessRequest MoreProps.
Local Open Scope py_scope.

Lemma translate_text_files (self : Translate) (text : string) (src tgt region : PyVal)
    (p b : bool) (w : world) :
  files (snd (translate_text self text src tgt region p b w)) = files w.
Proof.
  apply (keeps_translate_text (fun a b => files b = files a) ltac:(reflexivity)
           ltac:(intros; congruence) True ltac:(reflexivity)). exact I.
Qed.

Lemma handle_alternative_without_format (self : TranscriptHandler) (st1 st2 same : bool)
    (result : Result) (alt : Alternative) (w : world) :
  as_str (h_subtitle_format self) = None ->
  let run := handle_alternative self the_translate the_subtitles the_outputs st1 st2
               same result alt w in
  returns (fst run) = false /\ files (snd run) = files w.
Proof.
  intros Hf. cbv zeta.
  destruct (handle_alternative _ _ _ _ _ _ _ _ _ w) as [r w'] eqn:Hrun. cbn [fst snd].
  unfold handle_alternative, py_lower in Hrun. rewrite Hf in Hrun.
  unfold bindM at 1 in Hrun.
  destruct same.
  - unfold ret at 1 in Hrun. cbv beta match in Hrun. unfold bindM, lift in Hrun.
    injection Hrun as <- <-. auto.
  - pose proof (translate_text_files the_translate (transcript alt)
                  (h_source_language self) (h_target_language self) (h_region self)
                  false false w) as Hfiles.
    destruct (translate_text _ _ _ _ _ _ _ w) as [[t|e] w1]; cbn [snd] in Hfiles.
    + unfold bindM, lift in Hrun. injection Hrun as <- <-. auto.
    + injection Hrun as <- <-. auto.
Qed.

Lemma event_loops_without_format (self : TranscriptHandler) (same : bool)
    (rs : list Result) (w : world) :
  as_str (h_subtitle_format self) = None ->
  all_texts {| results := rs |} <> [] ->
  returns (fst (event_loops self same rs w)) = false
  /\ files (snd (event_loops self same rs w)) = files w.
Proof.
  intros Hf. unfold all_texts. cbn [results].
  induction rs as [|res rs IH]; intros Hne; [exfalso; now apply Hne|].
  rewrite event_loops_cons. cbn [flat_map] in Hne.
  destruct (alternatives res) as [|alt alts] eqn:Ea.
  - cbn [map app] in Hne.
    change (returns (fst (event_loops self same rs w)) = false
            /\ files (snd (event_loops self same rs w)) = files w).
    now apply IH.
  - cbn [for_each].
    pose proof (handle_alternative_without_format self (stores_transcript self)
                  (stores_translated self) same res alt w Hf) as [Hr Hfiles].
    unfold bindM.
    destruct (handle_alternative _ _ _ _ _ _ _ _ _ w) as [[u|e] w1];
      cbn [fst snd] in *; [discriminate | auto].
Qed.

Lemma event_without_format (self : TranscriptHandler) (ev : TranscriptEvent) (w : world) :
  as_str (h_subtitle_format self) = None ->
  all_texts ev <> [] ->
  returns (fst (handle_transcript_event self ev w)) = false
  /\ files (snd (handle_transcript_event self ev w)) = files w.
Proof.
  intros Hf Hne. rewrite handle_transcript_event_unfold.
  unfold try_reraise, bindM, lift.
  destruct (same_languages _ _) as [same|e]; [|cbn; auto].
  destruct ev as [rs]. cbn [results].
  pose proof (event_loops_without_format self same rs w Hf Hne) as [Hr Hfiles].
  destruct (event_loops self same rs w) as [[u|e] w1]; cbn [fst snd] in *;
    [discriminate | auto].
Qed.

(** X21: neither the constructor of [UserInput] nor [process_request] checks
    the subtitle format.  With [None] as the format, a session whose first
    event carries a transcript ends with [None] at that event: the handler
    fails there, and no file has been written, neither a subtitle nor an
    output text. *)
Theorem missing_subtitle_format_ends_session (user_input : UserInput)
    (session : Session) (ev : TranscriptEvent) (rest : list StreamItem) (w : world) :
  as_str (subtitle_format user_input) = None ->
  start_error session = None ->
  stream session = Event ev :: rest ->
  all_texts ev <> [] ->
  let run := process_request user_input session w in
  fst run = Return None /\ files (snd run) = files w.
Proof.
  intros Hfmt Hstart Hstream Hne. cbv zeta.
  destruct (process_request user_input session w) as [r w'] eqn:Hrun. cbn [fst snd].
  unfold process_request in Hrun.
  unfold bindM at 1 in Hrun.
  destruct (new_TranscriptDataHandler w) as [[dh|e] w0] eqn:Hnew.
  2:{ unfold new_TranscriptDataHandler, bindM, new_list, ret in Hnew. discriminate. }
  assert (Hw0 : files w0 = files w).
  { unfold new_TranscriptDataHandler, bindM, new_list, ret in Hnew.
    injection Hnew as _ <-. reflexivity. }
  unfold basic_transcribe, try_except_return, start_stream_transcription in Hrun.
  rewrite Hstart, Hstream in Hrun. unfold bindM at 1, ret at 1 in Hrun.
  cbv beta match in Hrun.
  unfold bindM at 1 in Hrun. unfold gather_write_and_handle in Hrun.
  cbn [for_each] in Hrun. unfold bindM at 1 in Hrun.
  match type of Hrun with
  | context [handle_transcript_event ?h ev w0] =>
      pose proof (event_without_format h ev w0 Hfmt Hne) as [Hr Hfiles];
      destruct (handle_transcript_event h ev w0) as [[u|e] w1]
  end; cbn [fst snd] in *; [discriminate|].
  unfold ret in Hrun. injection Hrun as <- <-. split; [reflexivity|]. congruence.
Qed.

Lemma missing_subtitle_format_ends_session_witness :
  fst (process_request
         (new_UserInput (PStr "en-US") (PStr "es") PNone (PStr "us-east-1")
            (PStr "both_text"))
         one_event_session example_world)
  = Return None.
Proof.
  refine (proj1 (missing_subtitle_format_ends_session _ one_event_session
                   (one_result "Hi" false) [] example_world _ _ _ _));
    [reflexivity | reflexivity | reflexivity | discriminate].
Defined.

End WithoutFormat.
